(** * TopLIS e-mobility time series: a shallow embedding of
    [emob_timeseries.py] and the properties of its synthesis engine.

    Conventions of the embedding.
    - Energies (Python floats) are exact rationals [Qc]; rounding error of
      the float arithmetic is not modelled.
    - A [pd.Timestamp] is the number of nanoseconds since 1970-01-01 00:00,
      a [pd.Timedelta] a number of nanoseconds, a [datetime.date] its
      proleptic Gregorian ordinal ([date.toordinal()]).
    - A [DataFrame] is the list of its rows in index order; each row carries
      its index label (the timestamp) and the three metric columns.
    - numpy's global random state is an abstract state threaded through the
      calls ([NumpyRandom]); an [OverflowError] of Python's date arithmetic
      is the [None] of the state-and-error monad [M]. *)

From Stdlib Require Import ZArith QArith Qcanon Qround Lia Ascii.
From stdpp Require Import base tactics numbers list option sorting strings gmap.

Local Open Scope Z_scope.

(** ** Exact arithmetic on metric values *)

Definition Qc_sum (l : list Qc) : Qc := foldr Qcplus 0%Qc l.

(** [Series.clip(lower=0)] on one value, and Python's [max(x, 0.0)]. *)
Definition clip_lower0 (x : Qc) : Qc := if bool_decide (x < 0)%Qc then 0%Qc else x.

(** ** The table *)

Record row := Row {
  timestamp : Z;
  available_capacity_kWh : Qc;
  energy_demand_kWh : Qc;
  rest_energy_kWh : Qc
}.

Abbreviation frame := (list row).

Definition set_capacity (v : Qc) (r : row) : row :=
  Row (timestamp r) v (energy_demand_kWh r) (rest_energy_kWh r).
Definition set_demand (v : Qc) (r : row) : row :=
  Row (timestamp r) (available_capacity_kWh r) v (rest_energy_kWh r).
Definition set_rest (v : Qc) (r : row) : row :=
  Row (timestamp r) (available_capacity_kWh r) (energy_demand_kWh r) v.

(** [df.index] *)
Definition index (df : frame) : list Z := timestamp <$> df.

(** The data model's invariant on the index: strictly ascending labels, hence
    no duplicates. *)
Definition ascending (df : frame) : Prop := StronglySorted Z.lt (index df).

(** ** pandas primitives used by the block consolidator *)

(** Boolean-mask selection, [values[mask]]. *)
Fixpoint masked {A} (mask : list bool) (values : list A) : list A :=
  match mask, values with
  | b :: mask, v :: values => if b then v :: masked mask values else masked mask values
  | _, _ => []
  end.

(** [Series.diff()]: the first entry is NaN ([None]), every other entry is
    the difference to its predecessor. *)
Fixpoint diff_from (prev : Z) (s : list Z) : list (option Z) :=
  match s with
  | [] => []
  | x :: s => Some (x - prev) :: diff_from x s
  end.

Definition diff (s : list Z) : list (option Z) :=
  match s with
  | [] => []
  | x :: s => None :: diff_from x s
  end.

(** [series == v]; NaN compares unequal to everything. *)
Definition mask_eq (s : list (option Z)) (v : Z) : list bool :=
  (λ o, match o with Some x => bool_decide (x = v) | None => false end) <$> s.

(** [mask.shift(-1, fill_value=False)] *)
Definition shift_back (mask : list bool) : list bool :=
  match mask with
  | [] => []
  | _ :: mask => mask ++ [false]
  end.

(** [mask.any()] *)
Definition any (mask : list bool) : bool := existsb id mask.

(** [bool.astype(int)] *)
Definition int_of_bool (b : bool) : Z := if b then 1 else 0.

(** [Index.union]: the sorted union without repetitions; when one side is
    empty, or both sides are equal, pandas returns the other side as it is. *)
Fixpoint insert_sorted (x : Z) (l : list Z) : list Z :=
  match l with
  | [] => [x]
  | y :: l' =>
      if bool_decide (x < y) then x :: l
      else if bool_decide (x = y) then l
      else y :: insert_sorted x l'
  end.

Definition sort_unique (l : list Z) : list Z := foldr insert_sorted [] l.

Definition index_union (a b : list Z) : list Z :=
  match a, b with
  | [], _ => b
  | _, [] => a
  | _, _ => if bool_decide (a = b) then a else sort_unique (a ++ b)
  end.

(** [df.at[key, "energy_demand_kWh"] = v] and its sibling, for a label of the
    index. *)
Definition at_set_demand (key : Z) (v : Qc) (df : frame) : frame :=
  (λ r, if bool_decide (timestamp r = key) then set_demand v r else r) <$> df.
Definition at_set_rest (key : Z) (v : Qc) (df : frame) : frame :=
  (λ r, if bool_decide (timestamp r = key) then set_rest v r else r) <$> df.

(** ** Block consolidator *)

(** [has_capacity = df["available_capacity_kWh"] > 0] *)
Definition has_cap (r : row) : bool := bool_decide (0 < available_capacity_kWh r)%Qc.
Definition has_capacity (df : frame) : list bool := has_cap <$> df.

(** The block detection that both consolidation functions share line for
    line: from the index and the [has_capacity] series to the labels of the
    block starts and of the block ends. *)
Definition block_bounds (idx : list Z) (has_capacity : list bool) : list Z * list Z :=
  let capacity_diff := diff (int_of_bool <$> has_capacity) in
  let block_starts := masked (mask_eq capacity_diff 1) idx in
  let block_end_indices := mask_eq capacity_diff (-1) in
  let block_ends :=
    if any block_end_indices
    then masked (shift_back block_end_indices) idx
    else [] in
  let block_starts :=
    match has_capacity, idx with
    | true :: _, first :: _ => index_union [first] block_starts
    | _, _ => block_starts
    end in
  let block_ends :=
    match last has_capacity, last idx with
    | Some true, Some final => index_union block_ends [final]
    | _, _ => block_ends
    end in
  (block_starts, block_ends).

(** [(df.index >= start) & (df.index <= end) & has_capacity] *)
Definition block_mask (idx : list Z) (has_capacity : list bool) (start end_ : Z) : list bool :=
  zip_with andb
    (zip_with andb ((λ t, bool_decide (start ≤ t)) <$> idx)
                   ((λ t, bool_decide (t ≤ end_)) <$> idx))
    has_capacity.

Definition set_energy_demand_at_block_end (df0 : frame) : frame :=
  let original_demand := energy_demand_kWh <$> df0 in
  let df := set_demand 0%Qc <$> df0 in
  let has_capacity := has_capacity df in
  let '(block_starts, block_ends) := block_bounds (index df) has_capacity in
  foldl (λ df i,
      if bool_decide (i < length block_ends)%nat then
        let start := block_starts !!! i in
        let end_ := block_ends !!! i in
        let block_mask := block_mask (index df) has_capacity start end_ in
        let total_demand := Qc_sum (masked block_mask original_demand) in
        if bool_decide (0 < total_demand)%Qc
        then at_set_demand end_ total_demand df
        else df
      else df)
    df (seq 0 (length block_starts)).

Definition set_rest_energy_at_block_start (df0 : frame) : frame :=
  let original_rest := rest_energy_kWh <$> df0 in
  let df := set_rest 0%Qc <$> df0 in
  let has_capacity := has_capacity df in
  let '(block_starts, block_ends) := block_bounds (index df) has_capacity in
  foldl (λ df i,
      if bool_decide (i < length block_ends)%nat then
        let start := block_starts !!! i in
        let end_ := block_ends !!! i in
        let block_mask := block_mask (index df) has_capacity start end_ in
        let total_rest := Qc_sum (masked block_mask original_rest) in
        if bool_decide (0 < total_rest)%Qc
        then at_set_rest start total_rest df
        else df
      else df)
    df (seq 0 (length block_starts)).

(** The two passes in the order [build_cluster_timeseries] runs them. *)
Definition consolidate (df : frame) : frame :=
  set_rest_energy_at_block_start (set_energy_demand_at_block_end df).

(** *** The same consolidation as one pass over the rows

    The run-by-run formulation the proofs work with.  [to_block_end] carries
    the demand collected so far in the current block and puts it on the row
    that closes the block; [to_block_start] puts the rest energy of the whole
    block on the row that opens it. *)

Definition next_has (l : frame) : bool :=
  match l with
  | [] => false
  | r :: _ => has_cap r
  end.

(** What the consolidator writes for a block total: the total when it is
    positive, otherwise the zero of the reset column stays. *)
Definition written (total : Qc) : Qc := if bool_decide (0 < total)%Qc then total else 0%Qc.

Fixpoint to_block_end (acc : Qc) (l : frame) : frame :=
  match l with
  | [] => []
  | r :: t =>
      if has_cap r then
        if next_has t
        then set_demand 0%Qc r :: to_block_end (acc + energy_demand_kWh r)%Qc t
        else set_demand (written (acc + energy_demand_kWh r)%Qc) r :: to_block_end 0%Qc t
      else set_demand 0%Qc r :: to_block_end 0%Qc t
  end.

(** Sum of a metric over the leading run of rows with capacity. *)
Fixpoint run_sum (val : row → Qc) (l : frame) : Qc :=
  match l with
  | [] => 0%Qc
  | r :: t => if has_cap r then (val r + run_sum val t)%Qc else 0%Qc
  end.

Fixpoint to_block_start (prev : bool) (l : frame) : frame :=
  match l with
  | [] => []
  | r :: t =>
      if has_cap r then
        (if prev then set_rest 0%Qc r
         else set_rest (written (run_sum rest_energy_kWh l)) r) :: to_block_start true t
      else set_rest 0%Qc r :: to_block_start false t
  end.

(** Column sums, and the part of a column that sits on rows with capacity. *)
Definition column_sum (val : row → Qc) (df : frame) : Qc := Qc_sum (val <$> df).
Definition sum_in_blocks (val : row → Qc) (df : frame) : Qc :=
  Qc_sum (val <$> filter (λ r, has_cap r = true) df).
Definition sum_outside_blocks (val : row → Qc) (df : frame) : Qc :=
  Qc_sum (val <$> filter (λ r, has_cap r = false) df).

(** Block starts and ends by recursion on the rows. *)
Fixpoint starts_of (prev : bool) (l : frame) : list Z :=
  match l with
  | [] => []
  | r :: t =>
      if has_cap r && negb prev
      then timestamp r :: starts_of (has_cap r) t
      else starts_of (has_cap r) t
  end.

Fixpoint ends_of (l : frame) : list Z :=
  match l with
  | [] => []
  | r :: t =>
      if has_cap r && negb (next_has t)
      then timestamp r :: ends_of t
      else ends_of t
  end.

(** The ends the [diff == -1] transitions find: every end but one on the
    last row of the table. *)
Fixpoint inner_ends_of (l : frame) : list Z :=
  match l with
  | [] => []
  | r :: t =>
      match t with
      | [] => []
      | _ :: _ =>
          if has_cap r && negb (next_has t)
          then timestamp r :: inner_ends_of t
          else inner_ends_of t
      end
  end.

(** The blocks of a table as (start label, end label, total of the metric),
    with a possibly open block inherited from the rows before. *)
Fixpoint blocks_from (val : row → Qc) (open : option Z) (acc : Qc) (l : frame)
  : list (Z * Z * Qc) :=
  match l with
  | [] => []
  | r :: t =>
      if has_cap r then
        let s := default (timestamp r) open in
        if next_has t
        then blocks_from val (Some s) (acc + val r)%Qc t
        else (s, timestamp r, (acc + val r)%Qc) :: blocks_from val None 0%Qc t
      else blocks_from val None 0%Qc t
  end.

(** ** Calendar

    The arithmetic of [datetime.date] on ordinals, as in CPython's
    [datetime] module. *)

Definition MINORDINAL : Z := 1.
(** [date(9999, 12, 31).toordinal()] *)
Definition MAXORDINAL : Z := 3652059.

Definition is_leap (year : Z) : bool :=
  bool_decide (year mod 4 = 0)
  && (negb (bool_decide (year mod 100 = 0)) || bool_decide (year mod 400 = 0)).

Definition days_before_year (year : Z) : Z :=
  let y := year - 1 in y * 365 + y / 4 - y / 100 + y / 400.

Definition DAYS_BEFORE_MONTH : list Z :=
  [0; 31; 59; 90; 120; 151; 181; 212; 243; 273; 304; 334].

Definition days_before_month (year month : Z) : Z :=
  DAYS_BEFORE_MONTH !!! Z.to_nat (month - 1)
  + (if bool_decide (2 < month) && is_leap year then 1 else 0).

(** [date(year, month, day)], for a valid calendar date. *)
Definition date (year month day : Z) : Z :=
  days_before_year year + days_before_month year month + day.

Definition days_in_year (year : Z) : Z := if is_leap year then 366 else 365.

(** [d.weekday()]: Monday is 0, Sunday is 6. *)
Definition weekday (d : Z) : Z := (d + 6) mod 7.

(** [d + td(days=k)]; outside of [date.min .. date.max] Python raises an
    [OverflowError]. *)
Definition date_add_days (d k : Z) : option Z :=
  let o := d + k in
  if bool_decide (MINORDINAL ≤ o ≤ MAXORDINAL) then Some o else None.

(** [days_of_year(year)]: every date from January 1 while the date is still
    in [year]. *)
Definition days_of_year (year : Z) : list Z :=
  (λ k, date year 1 1 + k) <$> seqZ 0 (days_in_year year).

Definition WD : list string := ["Mo"; "Di"; "Mi"; "Do"; "Fr"; "Sa"; "So"].

(** ** Clock times, timestamps and durations *)

Record time := Time { hour : Z; minute : Z }.

(** [time.min] *)
Definition time_min : time := Time 0 0.

Definition minute_of_day (t : time) : Z := 60 * hour t + minute t.

(** The values a [datetime.time] can hold. *)
Definition valid_time (t : time) : Prop := 0 ≤ hour t < 24 ∧ 0 ≤ minute t < 60.

(** [a > b] on [datetime.time] values: hours first, then minutes. *)
Definition time_gt (a b : time) : bool :=
  bool_decide (hour b < hour a)
  || (bool_decide (hour a = hour b) && bool_decide (minute b < minute a)).

Definition NS_PER_MINUTE : Z := 60000000000.
Definition NS_PER_DAY : Z := 1440 * NS_PER_MINUTE.
(** [date(1970, 1, 1).toordinal()] *)
Definition EPOCH : Z := 719163.

(** [pd.Timestamp.combine(day, t)] *)
Definition combine (day : Z) (t : time) : Z :=
  (day - EPOCH) * NS_PER_DAY + minute_of_day t * NS_PER_MINUTE.

(** [ts.floor(freq)]: down to a multiple of the resolution, counted from
    the epoch. *)
Definition floor_ts (ts freq_delta : Z) : Z := ts - ts mod freq_delta.

(** The calendar date of a timestamp ([d["timestamp"].dt.date]). *)
Definition timestamp_date (ts : Z) : Z := EPOCH + ts / NS_PER_DAY.

(** The minute of the day of a timestamp (the "%H:%M" of the output). *)
Definition timestamp_minute (ts : Z) : Z := (ts mod NS_PER_DAY) / NS_PER_MINUTE.

(** [pd.date_range(start, end, freq=freq, inclusive="left")] for a positive
    resolution. *)
Definition date_range (start end_ freq_delta : Z) : list Z :=
  (λ k, start + k * freq_delta) <$> seqZ 0 ((end_ - start + freq_delta - 1) / freq_delta).

(** ** Time deviations *)

(** [apply_time_deviation(base_time, deviation_minutes)].  [today] is the
    value of [date.today()].  The sum is a [datetime]; when its date leaves
    [date.min .. date.max], the addition raises an [OverflowError] ([None]).
    Otherwise only the time of day of the sum is returned. *)
Definition apply_time_deviation (today : Z) (base_time : time) (deviation_minutes : Z)
  : option time :=
  let base_dt := today * 1440 + minute_of_day base_time in
  let new_dt := base_dt + deviation_minutes in
  if bool_decide (MINORDINAL ≤ new_dt / 1440 ≤ MAXORDINAL)
  then Some (Time (new_dt mod 1440 / 60) (new_dt mod 1440 mod 60))
  else None.

(** numpy's global random state: seeding, and one draw of
    [np.random.uniform(low, high)] and of [np.random.normal(loc, scale)].
    The generator itself is a parameter of the development. *)
Class NumpyRandom := {
  rng : Type;
  np_seed : Z → rng;
  np_uniform : Qc → Qc → rng → Qc * rng;
  np_normal : Qc → Qc → rng → Qc * rng
}.

(** [size] draws in a row, as the vectorised numpy calls make them. *)
Fixpoint draws {St A} (one : St → A * St) (size : nat) (st : St) : list A * St :=
  match size with
  | O => ([], st)
  | S size =>
      let '(x, st) := one st in
      let '(xs, st) := draws one size st in
      (x :: xs, st)
  end.

(** [np.clip(x, lo, hi)], that is [minimum(maximum(x, lo), hi)]. *)
Definition np_clip (lo hi x : Qc) : Qc :=
  let y := if bool_decide (x < lo)%Qc then lo else x in
  if bool_decide (hi < y)%Qc then hi else y.

(** Python's [round(x)] to an [int]: to the nearest integer, ties to the
    even one. *)
Definition py_round (x : Qc) : Z :=
  let f := Qfloor x in
  let frac := (x - Qc_of_Z f)%Qc in
  if bool_decide (frac < Q2Qc (1 # 2))%Qc then f
  else if bool_decide (Q2Qc (1 # 2) < frac)%Qc then f + 1
  else if Z.even f then f else f + 1.

(** The [zeitverzerrung] dictionary; a missing key is [None]. *)
Record zeitverzerrung_config := {
  typ : option string;
  stddev_minuten : option Qc;
  max_abweichung_minuten : option Qc;
  seed : option Z
}.

(** The empty dictionary [{}]. *)
Definition no_zeitverzerrung : zeitverzerrung_config :=
  {| typ := None; stddev_minuten := None; max_abweichung_minuten := None; seed := None |}.

Section generator.
Context `{NumpyRandom}.

(** [generate_time_deviations(n_vehicles, config)], on the random state
    [st]; returns the deviations and the state it leaves.  ([random.seed]
    is called too, but nothing draws from Python's own generator.) *)
Definition generate_time_deviations (n_vehicles : nat) (config : zeitverzerrung_config)
    (st : rng) : list Z * rng :=
  let st := match seed config with Some s => np_seed s | None => st end in
  let '(deviations, st) :=
    if bool_decide (default "normal" (typ config) = "uniform") then
      let max_dev := default (Qc_of_Z 15) (max_abweichung_minuten config) in
      draws (np_uniform (- max_dev) max_dev) n_vehicles st
    else
      let stddev := default (Qc_of_Z 10) (stddev_minuten config) in
      let max_dev := default (Qc_of_Z 30) (max_abweichung_minuten config) in
      let '(deviations, st) := draws (np_normal 0 stddev) n_vehicles st in
      (np_clip (- max_dev) max_dev <$> deviations, st) in
  (py_round <$> deviations, st).

(** The generator as the specification words it for a seeded configuration:
    the random state is shared and consumed sequentially, a call going on
    from the state the previous call left.  This is the body of
    [generate_time_deviations] without the re-seeding. *)
Definition generate_sequentially (n_vehicles : nat) (config : zeitverzerrung_config)
    (st : rng) : list Z * rng :=
  generate_time_deviations n_vehicles
    {| typ := typ config; stddev_minuten := stddev_minuten config;
       max_abweichung_minuten := max_abweichung_minuten config; seed := None |} st.

(** The two draws at the head of both trip handlers. *)
Definition draw_trip_deviations (n : nat) (zeitverzerrung_config : zeitverzerrung_config)
    (st : rng) : list Z * list Z * rng :=
  let '(leave_deviations, st) := generate_time_deviations n zeitverzerrung_config st in
  let '(return_deviations, st) := generate_time_deviations n zeitverzerrung_config st in
  (leave_deviations, return_deviations, st).

End generator.

(** What numpy documents of a uniform draw: it lies in [low, high). *)
Definition uniform_in_range `{NumpyRandom} : Prop :=
  ∀ lo hi st, (lo ≤ hi)%Qc → (lo ≤ (np_uniform lo hi st).1 ≤ hi)%Qc.

(** The maximal deviation of a configuration, with the default of its
    distribution. *)
Definition max_dev_of (config : zeitverzerrung_config) : Qc :=
  if bool_decide (default "normal" (typ config) = "uniform")
  then default (Qc_of_Z 15) (max_abweichung_minuten config)
  else default (Qc_of_Z 30) (max_abweichung_minuten config).

(** ** Configuration *)

Record tour := {
  tour_km : Qc;
  tour_abfahrt : time;
  tour_rueckkehr : time
}.

Record mehrtagstour := {
  multi_km : Qc;
  multi_abfahrt : time;
  multi_rueckkehr_uhr : time;
  multi_tage_spaeter : option Z
}.

(** A validated day entry has exactly one of the four modes. *)
Inductive day_entry :=
  | Steht
  | NichtVerfuegbar
  | Tour (t : tour)
  | Mehrtagstour (t : mehrtagstour).

Record fahrzeug := {
  anzahl : nat;
  akku_kapazitaet_kwh : Qc;
  verbrauch_kwh_pro_km : Qc;
  wochenplan : gmap string day_entry;
  zeitverzerrung : option zeitverzerrung_config
}.

(** The cluster configuration; its [cluster_name] only names the log lines
    and the output file. *)
Record cluster := {
  fahrzeuge : list fahrzeug
}.

(** *** Validation

    The checks of [validate_cluster_config] and the functions it calls, as
    boolean tests ([true]: no [ValueError]).  The checks on the presence and
    the type of the keys are carried by the record types; a clock time is a
    string that [hhmm] parses. *)

Definition validate_time (t : time) : bool :=
  bool_decide (0 ≤ hour t < 24) && bool_decide (0 ≤ minute t < 60).

Definition validate_tour_entry (t : tour) : bool :=
  bool_decide (0 ≤ tour_km t)%Qc
  && validate_time (tour_abfahrt t) && validate_time (tour_rueckkehr t).

Definition validate_multiday_entry (t : mehrtagstour) : bool :=
  bool_decide (0 ≤ multi_km t)%Qc
  && validate_time (multi_abfahrt t) && validate_time (multi_rueckkehr_uhr t)
  && match multi_tage_spaeter t with
     | Some k => bool_decide (0 ≤ k)
     | None => true
     end.

Definition validate_day_entry (entry : day_entry) : bool :=
  match entry with
  | Steht | NichtVerfuegbar => true
  | Tour t => validate_tour_entry t
  | Mehrtagstour t => validate_multiday_entry t
  end.

Definition validate_weekly_plan (plan : gmap string day_entry) : bool :=
  forallb (λ p, bool_decide (p.1 ∈ WD) && validate_day_entry p.2) (map_to_list plan).

Definition validate_zeitverzerrung (tz : zeitverzerrung_config) : bool :=
  match typ tz with
  | Some t => bool_decide (t ∈ ["normal"; "uniform"])
  | None => true
  end
  && match stddev_minuten tz with
     | Some x => bool_decide (0 ≤ x)%Qc
     | None => true
     end
  && match max_abweichung_minuten tz with
     | Some x => bool_decide (0 ≤ x)%Qc
     | None => true
     end.

Definition validate_vehicle (vehicle : fahrzeug) : bool :=
  bool_decide (0 < anzahl vehicle)%nat
  && bool_decide (0 < akku_kapazitaet_kwh vehicle)%Qc
  && bool_decide (0 < verbrauch_kwh_pro_km vehicle)%Qc
  && match zeitverzerrung vehicle with
     | Some tz => validate_zeitverzerrung tz
     | None => true
     end
  && validate_weekly_plan (wochenplan vehicle).

Definition validate_cluster_config (cfg : cluster) : bool :=
  bool_decide (fahrzeuge cfg ≠ []) && forallb validate_vehicle (fahrzeuge cfg).

(** ** Table updates of the simulation *)

(** [df.loc[lo:hi, "available_capacity_kWh"] += v], and the same update
    through the mask [(df.index >= lo) & (df.index <= hi)]. *)
Definition add_capacity_between (lo hi : Z) (v : Qc) (df : frame) : frame :=
  (λ r, if bool_decide (lo ≤ timestamp r ≤ hi)
        then set_capacity (available_capacity_kWh r + v)%Qc r else r) <$> df.

Definition sub_capacity_between (lo hi : Z) (v : Qc) (df : frame) : frame :=
  (λ r, if bool_decide (lo ≤ timestamp r ≤ hi)
        then set_capacity (available_capacity_kWh r - v)%Qc r else r) <$> df.

(** [df.at[key, "energy_demand_kWh"] += v] and its sibling. *)
Definition at_add_demand (key : Z) (v : Qc) (df : frame) : frame :=
  (λ r, if bool_decide (timestamp r = key)
        then set_demand (energy_demand_kWh r + v)%Qc r else r) <$> df.

Definition at_add_rest (key : Z) (v : Qc) (df : frame) : frame :=
  (λ r, if bool_decide (timestamp r = key)
        then set_rest (rest_energy_kWh r + v)%Qc r else r) <$> df.

(** [df["available_capacity_kWh"] = df["available_capacity_kWh"].clip(lower=0)] *)
Definition clip_capacity (df : frame) : frame :=
  (λ r, set_capacity (clip_lower0 (available_capacity_kWh r)) r) <$> df.

(** ** Schedule simulator *)

(** What both handlers do for one vehicle once its departure [lt] and its
    return [rt] are known (the two loop bodies agree from the range test on).
    Nothing in the guarded part can fail on a table with a timestamp index,
    so its [except] branch is not reached. *)
Definition trip_contribution (df : frame) (lt rt : Z) (km cap cons : Qc)
    (year_start year_end freq_delta : Z) : frame :=
  if bool_decide (lt < year_start) || bool_decide (year_end < rt) then df
  else
    let end_time := rt - freq_delta in
    let df :=
      if bool_decide (lt ≤ end_time)
      then sub_capacity_between lt end_time cap df else df in
    let ts_req := floor_ts lt freq_delta - freq_delta in
    let df :=
      if bool_decide (year_start ≤ ts_req) && bool_decide (ts_req ∈ index df)
      then at_add_demand ts_req (km * cons)%Qc df else df in
    let rt_floor := floor_ts rt freq_delta in
    let df :=
      if bool_decide (rt_floor ≤ year_end) && bool_decide (rt_floor ∈ index df)
      then at_add_rest rt_floor (clip_lower0 (cap - km * cons)%Qc) df else df in
    df.

(** Departure and return timestamps of one vehicle of a day trip. *)
Definition tour_times (today day : Z) (base_leave base_ret : time)
    (leave_deviation return_deviation : Z) : option (Z * Z) :=
  actual_leave ← apply_time_deviation today base_leave leave_deviation;
  actual_ret ← apply_time_deviation today base_ret return_deviation;
  let lt := combine day actual_leave in
  bd ← (if time_gt actual_ret actual_leave then Some day else date_add_days day 1);
  let rt := combine bd actual_ret in
  Some (lt, rt).

(** Departure and return timestamps of one vehicle of a multi-day trip. *)
Definition multiday_times (today day : Z) (base_leave base_ret : time) (offset : Z)
    (leave_deviation return_deviation : Z) : option (Z * Z) :=
  actual_leave ← apply_time_deviation today base_leave leave_deviation;
  actual_ret ← apply_time_deviation today base_ret return_deviation;
  let lt := combine day actual_leave in
  bd ← (if bool_decide (offset ≠ 0) then date_add_days day offset
        else if time_gt actual_ret actual_leave then Some day else date_add_days day 1);
  let rt := combine bd actual_ret in
  Some (lt, rt).

(** A loop whose body may raise. *)
Fixpoint foldl_option {A B} (f : A → B → option A) (a : A) (l : list B) : option A :=
  match l with
  | [] => Some a
  | x :: l => a' ← f a x; foldl_option f a' l
  end.

Section simulation.
Context `{NumpyRandom}.

(** Computations on the random state that may raise: the state-and-error
    monad of the simulation. *)
Definition M (A : Type) : Type := rng → option (A * rng).

Definition ret {A} (a : A) : M A := λ st, Some (a, st).

Definition bind {A B} (m : M A) (k : A → M B) : M B :=
  λ st, match m st with
        | Some (a, st') => k a st'
        | None => None
        end.

Fixpoint foldM {A B} (f : A → B → M A) (a : A) (l : list B) : M A :=
  match l with
  | [] => ret a
  | x :: l => bind (f a x) (λ a', foldM f a' l)
  end.

Definition handle_tour_sub_with_deviation (today : Z) (df : frame) (day : Z) (t : tour)
    (n : nat) (cap cons : Qc) (year : Z) (zeitverzerrung_config : zeitverzerrung_config)
    (freq_delta : Z) : M frame :=
  λ st,
  let km := tour_km t in
  let base_leave := tour_abfahrt t in
  let base_ret := tour_rueckkehr t in
  let '(leave_deviations, return_deviations, st) :=
    draw_trip_deviations n zeitverzerrung_config st in
  let year_start := combine (date year 1 1) time_min in
  let year_end := combine (date (year + 1) 1 1) time_min - freq_delta in
  df ← foldl_option (λ df i,
         '(lt, rt) ← tour_times today day base_leave base_ret
                       (leave_deviations !!! i) (return_deviations !!! i);
         Some (trip_contribution df lt rt km cap cons year_start year_end freq_delta))
       df (seq 0 n);
  Some (df, st).

Definition handle_multiday_sub_with_deviation (today : Z) (df : frame) (day : Z)
    (t : mehrtagstour) (n : nat) (cap cons : Qc) (year : Z)
    (zeitverzerrung_config : zeitverzerrung_config) (freq_delta : Z) : M frame :=
  λ st,
  let km := multi_km t in
  let base_leave := multi_abfahrt t in
  let base_ret := multi_rueckkehr_uhr t in
  let offset := default 0 (multi_tage_spaeter t) in
  let '(leave_deviations, return_deviations, st) :=
    draw_trip_deviations n zeitverzerrung_config st in
  let year_start := combine (date year 1 1) time_min in
  let year_end := combine (date (year + 1) 1 1) time_min - freq_delta in
  df ← foldl_option (λ df i,
         '(lt, rt) ← multiday_times today day base_leave base_ret offset
                       (leave_deviations !!! i) (return_deviations !!! i);
         Some (trip_contribution df lt rt km cap cons year_start year_end freq_delta))
       df (seq 0 n);
  Some (df, st).

(** ** Timeseries builder *)

Definition exclusion_days (year : Z) : list Z :=
  [date year 1 1; date year 1 2; date year 12 30; date year 12 31].

(** The empty table of the year. *)
Definition empty_table (year freq_delta : Z) : frame :=
  (λ ts, Row ts 0%Qc 0%Qc 0%Qc)
    <$> date_range (combine (date year 1 1) time_min)
                   (combine (date (year + 1) 1 1) time_min) freq_delta.

(** The first loop over the days of a group: the full-day credit. *)
Definition credit_days (year freq_delta : Z) (cap : Qc) (n : nat) (df : frame) : frame :=
  foldl (λ df day,
      if bool_decide (day ∉ exclusion_days year) then
        let start_ts := combine day time_min in
        let end_ts := start_ts + NS_PER_DAY - freq_delta in
        add_capacity_between start_ts end_ts (cap * Qc_of_Z (Z.of_nat n))%Qc df
      else df)
    df (days_of_year year).

(** The second loop over the days of a group: the plan of each day. *)
Definition plan_day (today year freq_delta : Z) (group : fahrzeug) (df : frame) (day : Z)
  : M frame :=
  let n := anzahl group in
  let cap := akku_kapazitaet_kwh group in
  let cons := verbrauch_kwh_pro_km group in
  let zeitverzerrung_config := default no_zeitverzerrung (zeitverzerrung group) in
  if bool_decide (day ∈ exclusion_days year) then ret df
  else
    match default Steht (wochenplan group !! (WD !!! Z.to_nat (weekday day))) with
    | Steht => ret df
    | NichtVerfuegbar =>
        let start_ts := combine day time_min in
        let end_ts := start_ts + NS_PER_DAY - freq_delta in
        ret (sub_capacity_between start_ts end_ts (cap * Qc_of_Z (Z.of_nat n))%Qc df)
    | Tour t =>
        handle_tour_sub_with_deviation today df day t n cap cons year
          zeitverzerrung_config freq_delta
    | Mehrtagstour t =>
        handle_multiday_sub_with_deviation today df day t n cap cons year
          zeitverzerrung_config freq_delta
    end.

(** One iteration of [for group in cfg["fahrzeuge"]], the clipping at its
    end included. *)
Definition process_group (today year freq_delta : Z) (df : frame) (group : fahrzeug)
  : M frame :=
  let df := credit_days year freq_delta (akku_kapazitaet_kwh group) (anzahl group) df in
  bind (foldM (plan_day today year freq_delta group) df (days_of_year year))
    (λ df, ret (clip_capacity df)).

(** The table before the block consolidation. *)
Definition simulate_cluster (today : Z) (cfg : cluster) (year freq_delta : Z) : M frame :=
  foldM (process_group today year freq_delta) (empty_table year freq_delta) (fahrzeuge cfg).

(** [build_cluster_timeseries(cfg, cluster_name, year, freq)].  The rows keep
    their timestamp; the [Datum] and [Zeit] columns of the output are its
    date and its time of day. *)
Definition build_cluster_timeseries (today : Z) (cfg : cluster) (year freq_delta : Z)
  : M frame :=
  bind (simulate_cluster today cfg year freq_delta) (λ df, ret (consolidate df)).

(** The builder as the specification words the clamping: every group's
    additions and subtractions accumulate unclamped, and the capacity is
    floored at 0 once, after all groups. *)
Definition process_group_unclamped (today year freq_delta : Z) (df : frame)
    (group : fahrzeug) : M frame :=
  let df := credit_days year freq_delta (akku_kapazitaet_kwh group) (anzahl group) df in
  foldM (plan_day today year freq_delta group) df (days_of_year year).

Definition build_clamped_once (today : Z) (cfg : cluster) (year freq_delta : Z) : M frame :=
  bind (foldM (process_group_unclamped today year freq_delta)
          (empty_table year freq_delta) (fahrzeuge cfg))
    (λ df, ret (consolidate (clip_capacity df))).

End simulation.

(** ** A concrete generator for running the definitions

    A small linear congruential generator that implements [NumpyRandom]; it
    stands in for numpy's Mersenne Twister when a definition is evaluated on
    a concrete input.  The general theorems hold for every generator. *)

Definition lcg_next (st : Z) : Z := (1103515245 * st + 12345) mod 2147483648.

Definition lcg_unit (st : Z) : Qc := Q2Qc (Qmake st 2147483648).

Definition lcg_uniform (lo hi : Qc) (st : Z) : Qc * Z :=
  let st' := lcg_next st in ((lo + (hi - lo) * lcg_unit st')%Qc, st').

Definition lcg_normal (loc scale : Qc) (st : Z) : Qc * Z :=
  let '(u1, st) := lcg_uniform 0%Qc 1%Qc st in
  let '(u2, st) := lcg_uniform 0%Qc 1%Qc st in
  let '(u3, st) := lcg_uniform 0%Qc 1%Qc st in
  ((loc + scale * (Qc_of_Z 2 * (u1 + u2 + u3) - Qc_of_Z 3))%Qc, st).

#[global] Instance lcg_random : NumpyRandom :=
  {| rng := Z; np_seed s := s mod 4294967296;
     np_uniform := lcg_uniform; np_normal := lcg_normal |}.

(** [{"seed": 42}] *)
Definition seeded_config : zeitverzerrung_config :=
  {| typ := None; stddev_minuten := None; max_abweichung_minuten := None; seed := Some 42 |}.

(** [{"max_abweichung_minuten": 15.6, "seed": 35}] *)
Definition fractional_max_config : zeitverzerrung_config :=
  {| typ := None; stddev_minuten := None;
     max_abweichung_minuten := Some (Q2Qc (78 # 5)); seed := Some 35 |}.

(** ** The contribution of a group, apart from the table it is added to *)

Definition row_add (r d : row) : row :=
  Row (timestamp r)
    (available_capacity_kWh r + available_capacity_kWh d)%Qc
    (energy_demand_kWh r + energy_demand_kWh d)%Qc
    (rest_energy_kWh r + rest_energy_kWh d)%Qc.

(** Row by row sum of two tables over the same index. *)
Definition table_add (df delta : frame) : frame := zip_with row_add df delta.

(** The all-zero table over the index of [df]. *)
Definition zero_table (df : frame) : frame := (λ r, Row (timestamp r) 0%Qc 0%Qc 0%Qc) <$> df.

Section contribution.
Context `{NumpyRandom}.

(** What the pass of a group, before its clipping, leaves on an all-zero
    table: the additions and subtractions of the group alone. *)
Definition group_contribution (today year freq_delta : Z) (df : frame) (group : fahrzeug)
  : M frame :=
  process_group_unclamped today year freq_delta (zero_table df) group.

End contribution.

(** ** Sample inputs *)

(** The value of [date.today()] in the examples. *)
Definition sample_today : Z := date 2026 11 4.

(** [pd.Timedelta("12h")] and [pd.Timedelta("1h")] *)
Definition half_day : Z := 720 * NS_PER_MINUTE.
Definition hourly : Z := 60 * NS_PER_MINUTE.

(** [{"typ": "uniform", "max_abweichung_minuten": 0}]: no deviation. *)
Definition no_deviation : zeitverzerrung_config :=
  {| typ := Some "uniform"; stddev_minuten := None;
     max_abweichung_minuten := Some 0%Qc; seed := None |}.

(** Two vehicles that leave on Friday morning for three days and make a day
    trip every Tuesday, with seeded deviations. *)
Definition weekend_group : fahrzeug :=
  {| anzahl := 2; akku_kapazitaet_kwh := Qc_of_Z 50;
     verbrauch_kwh_pro_km := Q2Qc (1 # 5);
     wochenplan :=
       {[ "Fr" := Mehrtagstour {| multi_km := Qc_of_Z 300; multi_abfahrt := Time 8 0;
                                  multi_rueckkehr_uhr := Time 17 0;
                                  multi_tage_spaeter := Some 3 |};
          "Di" := Tour {| tour_km := Qc_of_Z 100; tour_abfahrt := Time 8 0;
                          tour_rueckkehr := Time 17 0 |} ]};
     zeitverzerrung := Some seeded_config |}.

Definition weekend_cluster : cluster := {| fahrzeuge := [weekend_group] |}.

(** One vehicle that is unavailable on Mondays and leaves for a day trip on
    Tuesdays at 00:30. *)
Definition early_group : fahrzeug :=
  {| anzahl := 1; akku_kapazitaet_kwh := Qc_of_Z 50;
     verbrauch_kwh_pro_km := Q2Qc (1 # 5);
     wochenplan :=
       {[ "Mo" := NichtVerfuegbar;
          "Di" := Tour {| tour_km := Qc_of_Z 100; tour_abfahrt := Time 0 30;
                          tour_rueckkehr := Time 17 0 |} ]};
     zeitverzerrung := Some no_deviation |}.

Definition early_cluster : cluster := {| fahrzeuge := [early_group] |}.

(** One vehicle that leaves on Monday 08:00 until Tuesday 17:00 although it
    is planned as unavailable on Tuesdays, and a second group of one parked
    vehicle. *)
Definition overbooked_group : fahrzeug :=
  {| anzahl := 1; akku_kapazitaet_kwh := Qc_of_Z 50;
     verbrauch_kwh_pro_km := Q2Qc (1 # 5);
     wochenplan :=
       {[ "Mo" := Mehrtagstour {| multi_km := Qc_of_Z 100; multi_abfahrt := Time 8 0;
                                  multi_rueckkehr_uhr := Time 17 0;
                                  multi_tage_spaeter := Some 1 |};
          "Di" := NichtVerfuegbar ]};
     zeitverzerrung := Some no_deviation |}.

Definition parked_group : fahrzeug :=
  {| anzahl := 1; akku_kapazitaet_kwh := Qc_of_Z 30;
     verbrauch_kwh_pro_km := Q2Qc (1 # 5);
     wochenplan := ∅; zeitverzerrung := None |}.

Definition two_group_cluster : cluster := {| fahrzeuge := [overbooked_group; parked_group] |}.

(** A small table: a row without capacity, a block of three rows, a row
    without capacity and a block of one row. *)
Definition sample_gap : frame := [Row 0 0%Qc (Qc_of_Z 5) (Qc_of_Z 1)].
Definition sample_block : frame :=
  [Row 1 (Qc_of_Z 2) (Qc_of_Z 3) (Qc_of_Z 1);
   Row 2 (Qc_of_Z 2) 0%Qc (Qc_of_Z 7);
   Row 3 (Qc_of_Z 4) (Qc_of_Z 4) 0%Qc].
Definition sample_rest : frame :=
  [Row 4 0%Qc (Qc_of_Z 1) (Qc_of_Z 2); Row 5 (Qc_of_Z 1) (Qc_of_Z 9) (Qc_of_Z 3)].
Definition sample_table : frame := sample_gap ++ sample_block ++ sample_rest.

(** ** Auxiliary notions of the proofs *)

(** A row of one of the four boundary days of the year. *)
Definition boundary_row (year : Z) (r : row) : Prop :=
  timestamp_date (timestamp r) ∈ exclusion_days year.

(** Invariants of the table during the simulation of a year. *)
Definition boundary_nonpos (year : Z) (df : frame) : Prop :=
  Forall (λ r, boundary_row year r → (available_capacity_kWh r ≤ 0)%Qc) df.

Definition boundary_zero (year : Z) (df : frame) : Prop :=
  Forall (λ r, boundary_row year r → available_capacity_kWh r = 0%Qc) df.

Definition capacity_nonneg (df : frame) : Prop :=
  Forall (λ r, (0 ≤ available_capacity_kWh r)%Qc) df.

(** The amounts a group moves in the table satisfy [A]: its capacity, the
    capacity of all its vehicles, and the demand and rest energy of each of
    its planned trips. *)
Definition entry_amounts (A : Qc → Prop) (cap cons : Qc) (e : day_entry) : Prop :=
  match e with
  | Tour t =>
      A (tour_km t * cons)%Qc ∧ A (clip_lower0 (cap - tour_km t * cons)%Qc)
  | Mehrtagstour t =>
      A (multi_km t * cons)%Qc ∧ A (clip_lower0 (cap - multi_km t * cons)%Qc)
  | Steht | NichtVerfuegbar => True
  end.

Definition group_amounts (A : Qc → Prop) (g : fahrzeug) : Prop :=
  A (akku_kapazitaet_kwh g) ∧
  A (akku_kapazitaet_kwh g * Qc_of_Z (Z.of_nat (anzahl g)))%Qc ∧
  ∀ key e, wochenplan g !! key = Some e →
    entry_amounts A (akku_kapazitaet_kwh g) (verbrauch_kwh_pro_km g) e.

(** Membership of a row in the block delimited by two labels, and the total
    the loop body computes for it. *)
Definition in_block (s e : Z) (r : row) : bool :=
  bool_decide (s ≤ timestamp r) && bool_decide (timestamp r ≤ e) && has_cap r.

Definition block_total (val : row → Qc) (s e : Z) (df : frame) : Qc :=
  Qc_sum ((λ r, if in_block s e r then val r else 0%Qc) <$> df).

Definition open_starts (open : option Z) (l : frame) : list Z :=
  match open with
  | Some s => s :: starts_of true l
  | None => starts_of false l
  end.

(** What is known of a block left open by the rows [pre] already visited. *)
Definition open_inv (val : row → Qc) (pre l : frame) (open : option Z) (acc : Qc) : Prop :=
  match open with
  | None => acc = 0%Qc
  | Some s =>
      next_has l = true ∧ Forall (λ x, s ≤ x) (index l) ∧
      ∀ e, Forall (λ x, x ≤ e) (index pre) → block_total val s e pre = acc
  end.

Definition prev_open (open : option Z) : bool :=
  match open with Some _ => true | None => false end.

(** The raw metric values of the table are not negative: every sample the
    schedule simulator records is [km * cons] or [max(cap - km * cons, 0)]
    with non-negative [km] and [cons]. *)
Definition nonneg_metrics (df : frame) : Prop :=
  Forall (λ r, (0 ≤ energy_demand_kWh r)%Qc ∧ (0 ≤ rest_energy_kWh r)%Qc) df.

(** [blk] is a maximal run of [pre ++ blk ++ post]: the row before it, and
    the row after it, if any, have no capacity. *)
Definition closed_before (pre : frame) : Prop :=
  match last pre with
  | Some z => has_cap z = false
  | None => True
  end.

Definition maximal_run (pre blk post : frame) : Prop :=
  closed_before pre ∧ blk ≠ [] ∧ Forall (λ r, has_cap r = true) blk ∧ next_has post = false.

(** [df.at[key, column] = v], generically in the column setter. *)
Definition at_set (set : Qc → row → row) (key : Z) (v : Qc) (df : frame) : frame :=
  (λ r, if bool_decide (timestamp r = key) then set v r else r) <$> df.

(** The value a row labelled [k] ends up with after the writes [W]
    (label, total), starting from [v0]. *)
Definition pick (k : Z) (v0 : Qc) (W : list (Z * Qc)) : Qc :=
  foldl (λ v w, if bool_decide (0 < w.2)%Qc && bool_decide (k = w.1) then w.2 else v) v0 W.

(** The loop of either consolidation function, on the reset table, with the
    column ([set], [val]) and the row written to ([key]) as parameters. *)
Definition block_loop (set : Qc → row → row) (val : row → Qc) (key : Z * Z → Z)
    (df0 : frame) : frame :=
  let original := val <$> df0 in
  let df := set 0%Qc <$> df0 in
  let has_capacity := has_capacity df in
  let '(block_starts, block_ends) := block_bounds (index df) has_capacity in
  foldl (λ df i,
      if bool_decide (i < length block_ends)%nat then
        let start := block_starts !!! i in
        let end_ := block_ends !!! i in
        let block_mask := block_mask (index df) has_capacity start end_ in
        let total := Qc_sum (masked block_mask original) in
        if bool_decide (0 < total)%Qc
        then at_set set (key (start, end_)) total df
        else df
      else df)
    df (seq 0 (length block_starts)).

Definition loop_body (set : Qc → row → row) (key : Z * Z → Z)
    (hc : list bool) (orig : list Qc) (s e : Z) (d : frame) : frame :=
  let total := Qc_sum (masked (block_mask (index d) hc s e) orig) in
  if bool_decide (0 < total)%Qc then at_set set (key (s, e)) total d else d.

(** ** The calendar loop of [days_of_year] *)

Definition DI400Y : Z := 146097.
Definition DI100Y : Z := 36524.
Definition DI4Y : Z := 1461.

Definition DAYS_IN_MONTH : list Z := [31; 28; 31; 30; 31; 30; 31; 31; 30; 31; 30; 31].

Definition ord2ymd (n : Z) : Z * Z * Z :=
  let n := n - 1 in
  let n400 := n / DI400Y in
  let n := n mod DI400Y in
  let year := n400 * 400 + 1 in
  let n100 := n / DI100Y in
  let n := n mod DI100Y in
  let n4 := n / DI4Y in
  let n := n mod DI4Y in
  let n1 := n / 365 in
  let n := n mod 365 in
  let year := year + n100 * 100 + n4 * 4 + n1 in
  if bool_decide (n1 = 4) || bool_decide (n100 = 4) then (year - 1, 12, 31)
  else
    let leapyear :=
      bool_decide (n1 = 3) && (negb (bool_decide (n4 = 24)) || bool_decide (n100 = 3)) in
    let month := Z.shiftr (n + 50) 5 in
    let preceding :=
      DAYS_BEFORE_MONTH !!! Z.to_nat (month - 1)
      + (if bool_decide (2 < month) && leapyear then 1 else 0) in
    let '(month, preceding) :=
      if bool_decide (n < preceding)
      then (month - 1,
            preceding - (DAYS_IN_MONTH !!! Z.to_nat (month - 2)
                         + (if bool_decide (month - 1 = 2) && leapyear then 1 else 0)))
      else (month, preceding) in
    (year, month, n - preceding + 1).

Definition date_year (d : Z) : Z := (ord2ymd d).1.1.

(** The year-independent part of [ord2ymd] *)
Definition ord2year (n : Z) : Z :=
  let n := n - 1 in
  let n400 := n / DI400Y in
  let n := n mod DI400Y in
  let n100 := n / DI100Y in
  let n := n mod DI100Y in
  let n4 := n / DI4Y in
  let n := n mod DI4Y in
  let n1 := n / 365 in
  let year := n400 * 400 + 1 + n100 * 100 + n4 * 4 + n1 in
  if bool_decide (n1 = 4) || bool_decide (n100 = 4) then year - 1 else year.

(** Python exceptions the modelled code can raise. *)
Inductive exception := ValueError | TypeError | KeyError | OverflowError.

(** How the run of a generator ends. *)
Inductive generator_end := StopIteration | Raised (e : exception) | OutOfFuel.

(** The [while] loop of [days_of_year], from the date [d] on: the dates it
    yields and how it ends. *)
Fixpoint days_of_year_from (fuel : nat) (year d : Z) : list Z * generator_end :=
  match fuel with
  | O => ([], OutOfFuel)
  | S fuel =>
      if bool_decide (date_year d = year) then
        match date_add_days d 1 with
        | Some d' => let '(l, e) := days_of_year_from fuel year d' in (d :: l, e)
        | None => ([d], Raised OverflowError)
        end
      else ([], StopIteration)
  end.

(** [days_of_year(year)] as the generator the source defines; [date(year, 1, 1)]
    raises a [ValueError] outside of the years 1 to 9999. *)
Definition days_of_year_gen (fuel : nat) (year : Z) : list Z * generator_end :=
  if bool_decide (1 ≤ year ≤ 9999)
  then days_of_year_from fuel year (date year 1 1)
  else ([], Raised ValueError).

(** ** Parsing and printing clock times

    A [str] is a [string] whose characters are the code points below 256.
    Among these the class [\d] of [re] holds the ten ASCII digits only. *)

Definition code (c : ascii) : Z := Z.of_N (N_of_ascii c).

(** [lo <= c <= hi] on characters, the class [[lo-hi]]. *)
Definition in_class (lo hi c : ascii) : bool :=
  bool_decide (code lo ≤ code c ≤ code hi).
Arguments in_class (lo hi c)%_char.

(** [\d] *)
Definition is_digit (c : ascii) : bool := in_class "0" "9" c.

(** [int(s)] for a string of digits. *)
Definition int_of_digits (s : list ascii) : Z :=
  foldl (λ n c, 10 * n + (code c - code "0"%char)) 0 s.

(** The pattern of the directive [%H], [(2[0-3]|[0-1]\d|\d)]: the matches at
    the head of [s] in the order in which the alternatives are tried, each
    with the rest of the string. *)
Definition directive_H (s : string) : list (Z * string) :=
  (match s with
   | String c1 (String c2 rest) =>
       if bool_decide (c1 = "2"%char) && in_class "0" "3" c2
       then [(int_of_digits [c1; c2], rest)] else []
   | _ => []
   end)
  ++ (match s with
      | String c1 (String c2 rest) =>
          if in_class "0" "1" c1 && is_digit c2
          then [(int_of_digits [c1; c2], rest)] else []
      | _ => []
      end)
  ++ (match s with
      | String c1 rest => if is_digit c1 then [(int_of_digits [c1], rest)] else []
      | _ => []
      end).

(** The pattern of the directive [%M], [([0-5]\d|\d)]. *)
Definition directive_M (s : string) : list (Z * string) :=
  (match s with
   | String c1 (String c2 rest) =>
       if in_class "0" "5" c1 && is_digit c2
       then [(int_of_digits [c1; c2], rest)] else []
   | _ => []
   end)
  ++ (match s with
      | String c1 rest => if is_digit c1 then [(int_of_digits [c1], rest)] else []
      | _ => []
      end).

(** The matches of the pattern of ["%H:%M"] at the head of [txt], in the order
    in which the backtracking matcher finds them. *)
Definition pattern_HM (txt : string) : list (Z * Z * string) :=
  '(h, rest) ← directive_H txt;
  match rest with
  | String c rest =>
      if bool_decide (c = ":"%char) then '(m, rest) ← directive_M rest; [(h, m, rest)] else []
  | _ => []
  end.

(** [hhmm(txt)]: [datetime.strptime(txt, "%H:%M").time()].  The first match
    of the pattern counts; [strptime] raises a [ValueError] ([None]) when there
    is none and when the match leaves a part of the string unconverted. *)
Definition hhmm (txt : string) : option time :=
  match pattern_HM txt with
  | [] => None
  | (h, m, rest) :: _ => if bool_decide (rest = EmptyString) then Some (Time h m) else None
  end.

(** The character of a digit, and a number below 100 in two digits ([%02d]). *)
Definition digit_char (d : Z) : ascii := ascii_of_N (Z.to_N (code "0"%char + d)).

Definition two_digits (n : Z) : string :=
  String (digit_char (n / 10)) (String (digit_char (n mod 10)) EmptyString).

Definition one_digit (n : Z) : string := String (digit_char n) EmptyString.

(** [t.strftime("%H:%M")] *)
Definition strftime_HM (t : time) : string :=
  two_digits (hour t) +:+ ":" +:+ two_digits (minute t).

(** The time of day of a timestamp and the [Zeit] column of the output,
    [d["timestamp"].dt.strftime("%H:%M")]. *)
Definition timestamp_time (ts : Z) : time :=
  Time (timestamp_minute ts / 60) (timestamp_minute ts mod 60).

Definition Zeit (ts : Z) : string := strftime_HM (timestamp_time ts).

(** The spellings of a number that a directive accepts: two digits, and one
    digit for a number below 10. *)
Definition spellings (n : Z) : list string :=
  two_digits n :: (if bool_decide (n < 10) then [one_digit n] else []).

Definition time_spellings (t : time) : list string :=
  hs ← spellings (hour t); ms ← spellings (minute t); [hs +:+ ":" +:+ ms].

(** ** The text columns of the output *)

(** The month and the day of the [n]-th day of a year (from 0), as [_ord2ymd]
    finds them once the year is known. *)
Definition yday2md (leapyear : bool) (n : Z) : Z * Z :=
  let month := Z.shiftr (n + 50) 5 in
  let preceding :=
    DAYS_BEFORE_MONTH !!! Z.to_nat (month - 1)
    + (if bool_decide (2 < month) && leapyear then 1 else 0) in
  let '(month, preceding) :=
    if bool_decide (n < preceding)
    then (month - 1,
          preceding - (DAYS_IN_MONTH !!! Z.to_nat (month - 2)
                       + (if bool_decide (month - 1 = 2) && leapyear then 1 else 0)))
    else (month, preceding) in
  (month, n - preceding + 1).

(** ["%04d" % n] for a number below 10000. *)
Definition four_digits (n : Z) : string :=
  String (digit_char (n / 1000)) (String (digit_char (n / 100 mod 10)) (two_digits (n mod 100))).

(** [str(d)] of a [date], which is [d.isoformat()]: ["%04d-%02d-%02d"]. *)
Definition isoformat (d : Z) : string :=
  let '(year, month, day) := ord2ymd d in
  four_digits year +:+ "-" +:+ two_digits month +:+ "-" +:+ two_digits day.

(** The [Datum] column of the output, [d["timestamp"].dt.date.astype(str)]. *)
Definition Datum (ts : Z) : string := isoformat (timestamp_date ts).

(** The table the builder returns: the timestamp is replaced by the two text
    columns. *)
Record out_row := OutRow {
  out_Datum : string;
  out_Zeit : string;
  out_available_capacity_kWh : Qc;
  out_energy_demand_kWh : Qc;
  out_rest_energy_kWh : Qc
}.

Definition output (df : frame) : list out_row :=
  (λ r, OutRow (Datum (timestamp r)) (Zeit (timestamp r))
               (available_capacity_kWh r) (energy_demand_kWh r) (rest_energy_kWh r)) <$> df.

Definition yday2md_check (leapyear : bool) (k : Z) : bool :=
  let '(m, d) := yday2md leapyear k in
  bool_decide (1 ≤ m ≤ 12) && bool_decide (1 ≤ d ≤ 31)
  && bool_decide (DAYS_BEFORE_MONTH !!! Z.to_nat (m - 1)
                  + (if bool_decide (2 < m) && leapyear then 1 else 0) + d = k + 1).

(** ** The configuration as [json.loads] returns it, and its validation *)

(** The Python value of a JSON text.  A [dict] is the list of its items in
    insertion order; floats are exact rationals (no [nan], no infinities). *)
#[local] Unset Elimination Schemes.
Inductive json :=
  | JNull
  | JBool (b : bool)
  | JInt (n : Z)
  | JFloat (x : Qc)
  | JStr (s : string)
  | JList (l : list json)
  | JDict (d : list (string * json)).
#[local] Set Elimination Schemes.

(** The outcome of a call that may raise. *)
Inductive result (A : Type) :=
  | Ok (a : A)
  | Raise (e : exception).
Arguments Ok {A} a.
Arguments Raise {A} e.

#[global] Instance result_ret : MRet result := λ A a, Ok a.
#[global] Instance result_bind : MBind result :=
  λ A B f m, match m with Ok a => f a | Raise e => Raise e end.

(** [d.get(k)] on the items of a [dict]. *)
Fixpoint dict_get (d : list (string * json)) (k : string) : option json :=
  match d with
  | [] => None
  | (k', v) :: d => if bool_decide (k' = k) then Some v else dict_get d k
  end.

(** [s1 in s2] on strings. *)
Definition is_substring (s1 s2 : string) : bool :=
  match String.index 0 s1 s2 with Some _ => true | None => false end.

(** [k in obj] for a string [k]: a key of a [dict], an element of a [list],
    a substring of a [str]; the other values are not iterable. *)
Definition py_contains (obj : json) (k : string) : result bool :=
  match obj with
  | JDict d => Ok (bool_decide (is_Some (dict_get d k)))
  | JList l => Ok (existsb (λ v, match v with JStr s => bool_decide (s = k) | _ => false end) l)
  | JStr s => Ok (is_substring k s)
  | _ => Raise TypeError
  end.

(** [obj[k]] for a string [k]. *)
Definition py_getitem (obj : json) (k : string) : result json :=
  match obj with
  | JDict d => match dict_get d k with Some v => Ok v | None => Raise KeyError end
  | _ => Raise TypeError
  end.

(** [isinstance(v, int)] (a [bool] is an [int]) and [isinstance(v, (int, float))]. *)
Definition is_int (v : json) : bool :=
  match v with JBool _ | JInt _ => true | _ => false end.

Definition is_number (v : json) : bool :=
  match v with JBool _ | JInt _ | JFloat _ => true | _ => false end.

(** The value of a number in comparisons and in arithmetic. *)
Definition number_value (v : json) : Qc :=
  match v with
  | JBool b => if b then 1%Qc else 0%Qc
  | JInt n => Qc_of_Z n
  | JFloat x => x
  | _ => 0%Qc
  end.

(** [c.isspace()] for a code point below 256. *)
Definition is_space (c : ascii) : bool :=
  bool_decide (code c ∈ [9; 10; 11; 12; 13; 28; 29; 30; 31; 32; 133; 160]).

(** [not s.strip()] *)
Fixpoint is_blank (s : string) : bool :=
  match s with
  | EmptyString => true
  | String c s => is_space c && is_blank s
  end.

(** The two keys that are not ASCII: [nicht_verfügbar] and [tage_später]. *)
Definition nicht_verfuegbar : string :=
  "nicht_verf" +:+ String (ascii_of_N 252) "gbar".
Definition tage_spaeter : string :=
  "tage_sp" +:+ String (ascii_of_N 228) "ter".

(** [if not ok: raise ValueError(...)] *)
Definition require (ok : bool) : result unit :=
  if ok then Ok () else Raise ValueError.

(** [if present: check] *)
Definition when_present (present : bool) (check : result unit) : result unit :=
  if present then check else Ok ().

(** [for k in keys: if k not in obj: raise ValueError(...)] *)
Fixpoint require_keys (keys : list string) (obj : json) : result unit :=
  match keys with
  | [] => Ok ()
  | k :: keys =>
      present ← py_contains obj k;
      _ ← require present;
      require_keys keys obj
  end.

(** [for x in l: check(x)] *)
Fixpoint for_each {A} (check : A → result unit) (l : list A) : result unit :=
  match l with
  | [] => Ok ()
  | x :: l => _ ← check x; for_each check l
  end.

(** [hhmm(v)] on a value: [strptime] raises a [TypeError] for what is not a
    [str]. *)
Definition hhmm_value (v : json) : result time :=
  match v with
  | JStr s => match hhmm s with Some t => Ok t | None => Raise ValueError end
  | _ => Raise TypeError
  end.

Definition validate_tour_entry_raw (tour : json) : result unit :=
  _ ← require_keys ["km"; "abfahrt"; "rueckkehr"] tour;
  km ← py_getitem tour "km";
  _ ← require (is_number km && bool_decide (0 ≤ number_value km)%Qc);
  abfahrt ← py_getitem tour "abfahrt";
  _ ← hhmm_value abfahrt;
  rueckkehr ← py_getitem tour "rueckkehr";
  _ ← hhmm_value rueckkehr;
  Ok ().

Definition validate_multiday_entry_raw (entry : json) : result unit :=
  _ ← require_keys ["km"; "abfahrt"; "rueckkehr_uhr"] entry;
  km ← py_getitem entry "km";
  _ ← require (is_number km && bool_decide (0 ≤ number_value km)%Qc);
  abfahrt ← py_getitem entry "abfahrt";
  _ ← hhmm_value abfahrt;
  rueckkehr_uhr ← py_getitem entry "rueckkehr_uhr";
  _ ← hhmm_value rueckkehr_uhr;
  later ← py_contains entry tage_spaeter;
  when_present later
    (days ← py_getitem entry tage_spaeter;
     require (is_int days && bool_decide (0 ≤ number_value days)%Qc)).

Definition modes : list string := ["steht"; "tour"; "mehrtagstour"; nicht_verfuegbar].

Definition validate_day_entry_raw (entry : json) : result unit :=
  match entry with
  | JDict d =>
      let found := filter (λ m, is_Some (dict_get d m)) modes in
      match found with
      | [m] =>
          if bool_decide (m ∈ ["steht"; nicht_verfuegbar]) return result unit then
            v ← py_getitem entry m;
            require (match v with JBool true => true | _ => false end)
          else if bool_decide (m = "tour") then
            v ← py_getitem entry m; validate_tour_entry_raw v
          else
            v ← py_getitem entry m; validate_multiday_entry_raw v
      | _ => Raise ValueError
      end
  | _ => Raise ValueError
  end.

Definition validate_weekly_plan_raw (plan : json) : result unit :=
  match plan with
  | JDict d =>
      for_each (λ item : string * json,
          _ ← require (bool_decide (item.1 ∈ WD));
          validate_day_entry_raw item.2) d
  | _ => Raise ValueError
  end.

Definition validate_zeitverzerrung_raw (tz : json) : result unit :=
  match tz with
  | JDict d =>
      _ ← require (match dict_get d "typ" with
                   | Some v => match v with
                               | JStr s => bool_decide (s ∈ ["normal"; "uniform"])
                               | _ => false
                               end
                   | None => true
                   end);
      _ ← require (match dict_get d "stddev_minuten" with
                   | Some v => is_number v && bool_decide (0 ≤ number_value v)%Qc
                   | None => true
                   end);
      require (match dict_get d "max_abweichung_minuten" with
               | Some v => is_number v && bool_decide (0 ≤ number_value v)%Qc
               | None => true
               end)
  | _ => Raise ValueError
  end.

Definition validate_vehicle_raw (vehicle : json) : result unit :=
  _ ← require_keys ["name"; "anzahl"; "akku_kapazitaet_kwh"; "verbrauch_kwh_pro_km";
                    "wochenplan"] vehicle;
  n ← py_getitem vehicle "anzahl";
  _ ← require (is_int n && bool_decide (0 < number_value n)%Qc);
  cap ← py_getitem vehicle "akku_kapazitaet_kwh";
  _ ← require (is_number cap && bool_decide (0 < number_value cap)%Qc);
  cons ← py_getitem vehicle "verbrauch_kwh_pro_km";
  _ ← require (is_number cons && bool_decide (0 < number_value cons)%Qc);
  has_tz ← py_contains vehicle "zeitverzerrung";
  _ ← when_present has_tz
        (tz ← py_getitem vehicle "zeitverzerrung"; validate_zeitverzerrung_raw tz);
  plan ← py_getitem vehicle "wochenplan";
  validate_weekly_plan_raw plan.

Definition validate_cluster_config_raw (cfg : json) : result unit :=
  _ ← require_keys ["cluster_name"; "fahrzeuge"] cfg;
  name ← py_getitem cfg "cluster_name";
  _ ← require (match name with JStr s => negb (is_blank s) | _ => false end);
  vehicles ← py_getitem cfg "fahrzeuge";
  match vehicles with
  | JList l => _ ← require (negb (bool_decide (l = []))); for_each validate_vehicle_raw l
  | _ => Raise ValueError
  end.

(** The call returns, or raises one of the two. *)
Definition value_or_type_error {A} (m : result A) : Prop :=
  match m with
  | Ok _ => True
  | Raise e => e = ValueError ∨ e = TypeError
  end.

(** ** Reading a raw configuration

    What the accesses of the builder and of the two handlers yield on a raw
    configuration, as the typed configuration of the simulation.  [None]: the
    value is not of the kind the typed configuration holds (the source then
    raises, or converts in a way that is not modelled, as [float] does for a
    string). *)

(** [float(v)] of a number. *)
Definition py_float (v : json) : option Qc :=
  if is_number v then Some (number_value v) else None.

(** [int(v)] of an [int]; a [bool] counts as 0 or 1. *)
Definition py_int (v : json) : option Z :=
  match v with
  | JBool b => Some (if b then 1 else 0)
  | JInt n => Some n
  | _ => None
  end.

(** [bool(v)], the truth value of [if v:]. *)
Definition py_truthy (v : json) : bool :=
  match v with
  | JNull => false
  | JBool b => b
  | JInt n => negb (bool_decide (n = 0))
  | JFloat x => negb (bool_decide (x = 0%Qc))
  | JStr s => negb (bool_decide (s = EmptyString))
  | JList l => negb (bool_decide (l = []))
  | JDict d => negb (bool_decide (d = []))
  end.

Definition read_time (v : json) : option time :=
  match v with JStr s => hhmm s | _ => None end.

(** An optional key: absent, or present with a value that [read] accepts. *)
Definition read_optional {A} (read : json → option A) (v : option json) : option (option A) :=
  match v with
  | None => Some None
  | Some v => Some <$> read v
  end.

(** The head of [_handle_tour_sub_with_deviation]: [float(t["km"])],
    [hhmm(t["abfahrt"])], [hhmm(t["rueckkehr"])]. *)
Definition read_tour (t : json) : option tour :=
  match t with
  | JDict d =>
      km ← dict_get d "km" ≫= py_float;
      abfahrt ← dict_get d "abfahrt" ≫= read_time;
      rueckkehr ← dict_get d "rueckkehr" ≫= read_time;
      Some {| tour_km := km; tour_abfahrt := abfahrt; tour_rueckkehr := rueckkehr |}
  | _ => None
  end.

(** The head of [_handle_multiday_sub_with_deviation]: [float(t.get("km", 0))],
    [hhmm(t.get("abfahrt", "00:00"))], [hhmm(t.get("rueckkehr_uhr", "00:00"))],
    [int(t.get("tage_später", 0))]. *)
Definition read_multiday (t : json) : option mehrtagstour :=
  match t with
  | JDict d =>
      km ← py_float (default (JInt 0) (dict_get d "km"));
      abfahrt ← read_time (default (JStr "00:00") (dict_get d "abfahrt"));
      rueckkehr_uhr ← read_time (default (JStr "00:00") (dict_get d "rueckkehr_uhr"));
      later ← read_optional py_int (dict_get d tage_spaeter);
      Some {| multi_km := km; multi_abfahrt := abfahrt;
              multi_rueckkehr_uhr := rueckkehr_uhr; multi_tage_spaeter := later |}
  | _ => None
  end.

(** The dispatch of the builder on the entry [e] of a day: [e.get("steht")],
    [e.get("nicht_verfügbar")], ["tour" in e], and else
    [e.get("mehrtagstour", {})]. *)
Definition read_entry (e : json) : option day_entry :=
  match e with
  | JDict d =>
      if py_truthy (default JNull (dict_get d "steht")) then Some Steht
      else if py_truthy (default JNull (dict_get d nicht_verfuegbar)) then Some NichtVerfuegbar
      else match dict_get d "tour" with
           | Some t => Tour <$> read_tour t
           | None => Mehrtagstour <$> read_multiday (default (JDict []) (dict_get d "mehrtagstour"))
           end
  | _ => None
  end.

(** [plan.get(WD[day.weekday()], {"steht": True})] for the seven days. *)
Definition read_plan_day (d : list (string * json)) (wd : string)
    (acc : option (gmap string day_entry)) : option (gmap string day_entry) :=
  m ← acc;
  match dict_get d wd with
  | None => Some m
  | Some e => entry ← read_entry e; Some (<[wd := entry]> m)
  end.

Definition read_plan (plan : json) : option (gmap string day_entry) :=
  match plan with
  | JDict d => foldr (read_plan_day d) (Some ∅) WD
  | _ => None
  end.

(** The seed of a deviation configuration: [None] and an [int] are what
    [np.random.seed] is modelled for. *)
Definition read_seed (v : option json) : option (option Z) :=
  match v with
  | None | Some JNull => Some None
  | Some v => Some <$> py_int v
  end.

(** The [config.get] calls of [generate_time_deviations]. *)
Definition read_zeitverzerrung (tz : json) : option zeitverzerrung_config :=
  match tz with
  | JDict d =>
      typ ← read_optional (λ v, match v with JStr s => Some s | _ => None end)
              (dict_get d "typ");
      stddev ← read_optional py_float (dict_get d "stddev_minuten");
      max_dev ← read_optional py_float (dict_get d "max_abweichung_minuten");
      seed ← read_seed (dict_get d "seed");
      Some {| typ := typ; stddev_minuten := stddev;
              max_abweichung_minuten := max_dev; seed := seed |}
  | _ => None
  end.

(** The head of the loop over the groups: [group["anzahl"]],
    [group["akku_kapazitaet_kwh"]], [group["verbrauch_kwh_pro_km"]],
    [group["wochenplan"]], [group.get("zeitverzerrung", {})]. *)
Definition read_group (group : json) : option fahrzeug :=
  match group with
  | JDict d =>
      n ← dict_get d "anzahl" ≫= py_int;
      _ ← guard (0 ≤ n);
      cap ← dict_get d "akku_kapazitaet_kwh" ≫= py_float;
      cons ← dict_get d "verbrauch_kwh_pro_km" ≫= py_float;
      plan ← dict_get d "wochenplan" ≫= read_plan;
      tz ← read_optional read_zeitverzerrung (dict_get d "zeitverzerrung");
      Some {| anzahl := Z.to_nat n; akku_kapazitaet_kwh := cap;
              verbrauch_kwh_pro_km := cons; wochenplan := plan; zeitverzerrung := tz |}
  | _ => None
  end.

(** [cfg["fahrzeuge"]] *)
Definition read_cluster (cfg : json) : option cluster :=
  match cfg with
  | JDict d =>
      match dict_get d "fahrzeuge" with
      | Some (JList l) => groups ← mapM read_group l; Some {| fahrzeuge := groups |}
      | _ => None
      end
  | _ => None
  end.

(** The seeds of the configuration are absent, [null] or integers (the
    validation does not look at them). *)
Definition seed_plain (group : json) : bool :=
  match group with
  | JDict d =>
      match dict_get d "zeitverzerrung" with
      | Some (JDict tz) => bool_decide (is_Some (read_seed (dict_get tz "seed")))
      | _ => true
      end
  | _ => true
  end.

Definition seeds_plain (cfg : json) : bool :=
  match cfg with
  | JDict d =>
      match dict_get d "fahrzeuge" with
      | Some (JList l) => forallb seed_plain l
      | _ => true
      end
  | _ => true
  end.

(** ** Ranges of the date arithmetic, and the fallback handlers *)

(** pandas' nanosecond timestamps reach from September 1677 to April 2262:
    the years from [FIRST_YEAR] to [LAST_YEAR] lie within their range, with
    the day before and the day after. *)
Definition FIRST_YEAR : Z := 1678.
Definition LAST_YEAR : Z := 2261.

(** What keeps the date arithmetic of the simulation within range: the
    deviated clock times within [datetime]'s years, seen from [today], for
    deviations of at most [K] minutes, and the return dates of the multi-day
    trips not after [LAST_YEAR]. *)
Definition today_margin (today K : Z) : Prop :=
  MINORDINAL * 1440 + K ≤ today * 1440 ∧ today * 1440 + K + 1440 ≤ (MAXORDINAL + 1) * 1440.

Definition returns_within (year : Z) (cfg : cluster) : Prop :=
  ∀ g key t, g ∈ fahrzeuge cfg → wochenplan g !! key = Some (Mehrtagstour t) →
    date (year + 1) 1 1 + default 0 (multi_tage_spaeter t) ≤ date (LAST_YEAR + 1) 1 1.

(** What the two numpy calls accept: [np.random.seed] a seed from 0 to
    2**32 - 1, [np.random.normal] a scale that is not negative. *)
Definition seed_in_range (config : zeitverzerrung_config) : Prop :=
  ∀ s, seed config = Some s → 0 ≤ s < 2 ^ 32.

Definition numpy_accepts (config : zeitverzerrung_config) : Prop :=
  seed_in_range config ∧ (0 ≤ default (Qc_of_Z 10) (stddev_minuten config))%Qc.

Definition seeds_in_range (cfg : cluster) : Prop :=
  ∀ g, g ∈ fahrzeuge cfg → seed_in_range (default no_zeitverzerrung (zeitverzerrung g)).

Definition deviations_at_most (K : Z) (cfg : cluster) : Prop :=
  ∀ g, g ∈ fahrzeuge cfg →
    (max_dev_of (default no_zeitverzerrung (zeitverzerrung g)) ≤ Qc_of_Z K)%Qc.

(** The fallback handlers, which pass the empty deviation configuration. *)
Section fallback.
Context `{NumpyRandom}.

Definition handle_tour_sub (today : Z) (df : frame) (day : Z) (t : tour) (n : nat)
    (cap cons : Qc) (year freq_delta : Z) : M frame :=
  handle_tour_sub_with_deviation today df day t n cap cons year no_zeitverzerrung freq_delta.

Definition handle_multiday_sub (today : Z) (df : frame) (day : Z) (t : mehrtagstour)
    (n : nat) (cap cons : Qc) (year freq_delta : Z) : M frame :=
  handle_multiday_sub_with_deviation today df day t n cap cons year no_zeitverzerrung
    freq_delta.

End fallback.

(** ** Notions of the properties of the builder *)

(** The battery capacity of all vehicles of the cluster. *)
Definition fleet_capacity (cfg : cluster) : Qc :=
  Qc_sum ((λ g, akku_kapazitaet_kwh g * Qc_of_Z (Z.of_nat (anzahl g)))%Qc <$> fahrzeuge cfg).

Definition capacity_at_most (B : Qc) (df : frame) : Prop :=
  Forall (λ r, (available_capacity_kWh r ≤ B)%Qc) df.

(** The full-day credit of one day on one row. *)
Definition credit_row (year freq_delta : Z) (v : Qc) (r : row) (day : Z) : row :=
  if bool_decide (day ∉ exclusion_days year) then
    if bool_decide (combine day time_min ≤ timestamp r
                    ≤ combine day time_min + NS_PER_DAY - freq_delta)
    then set_capacity (available_capacity_kWh r + v)%Qc r else r
  else r.






(** Every group that plans a trip has a seed in its deviation configuration. *)
Definition seeded (g : fahrzeug) : Prop :=
  ∃ z s, zeitverzerrung g = Some z ∧ seed z = Some s.

(** Two runs end alike: both raise, or both return the same table. *)
Definition same_table {St} (a b : option (frame * St)) : Prop :=
  fst <$> a = fst <$> b.

(** ** More sample inputs *)

(** [pd.Timedelta("1D")] *)
Definition daily : Z := NS_PER_DAY.

(** A raw cluster file: two vans with a day trip on Mondays and a trip from
    Friday to Sunday. *)
Definition sample_raw_cluster : json :=
  JDict [("cluster_name", JStr "depot");
         ("fahrzeuge", JList [
            JDict [("name", JStr "van"); ("anzahl", JInt 2);
                   ("akku_kapazitaet_kwh", JInt 50);
                   ("verbrauch_kwh_pro_km", JFloat (Q2Qc (1 # 5)));
                   ("zeitverzerrung", JDict [("typ", JStr "uniform");
                                             ("max_abweichung_minuten", JInt 10);
                                             ("seed", JInt 7)]);
                   ("wochenplan", JDict [
                      ("Mo", JDict [("tour", JDict [("km", JInt 100);
                                                    ("abfahrt", JStr "08:00");
                                                    ("rueckkehr", JStr "17:00")])]);
                      ("Fr", JDict [("mehrtagstour",
                                     JDict [("km", JInt 300); ("abfahrt", JStr "7:30");
                                            ("rueckkehr_uhr", JStr "18:00");
                                            (tage_spaeter, JInt 2)])]);
                      ("So", JDict [("steht", JBool true)])])]])].



(** * Properties *)

(** ** Lemmas on the pandas primitives *)

Lemma masked_all_false {A} (m : list bool) (l : list A) :
  Forall (λ b, b = false) m → masked m l = [].
Proof.
  intros Hm. revert l. induction Hm as [|b m -> _ IH]; intros [|x l]; simpl; auto.
Qed.

Lemma any_false m : any m = false → Forall (λ b, b = false) m.
Proof.
  unfold any. induction m as [|b m IH]; simpl; [constructor|].
  destruct b; simpl; [discriminate|]. intros H. constructor; auto.
Qed.

Lemma masked_shift_back_none {A} (m : list bool) (l : list A) :
  any m = false → masked (shift_back m) l = [].
Proof.
  intros Hm. apply masked_all_false. apply any_false in Hm.
  destruct Hm as [|b m _ Hm]; simpl; [constructor|].
  apply Forall_app; split; [done|]. by constructor.
Qed.

Lemma insert_sorted_below x l :
  Forall (Z.lt x) l → insert_sorted x l = x :: l.
Proof.
  destruct 1 as [|y l Hy _]; simpl; [done|].
  by rewrite bool_decide_true.
Qed.

Lemma sort_unique_sorted l : StronglySorted Z.lt l → sort_unique l = l.
Proof.
  induction 1 as [|x l _ IH Hx]; [done|].
  unfold sort_unique in *. simpl. rewrite IH. by apply insert_sorted_below.
Qed.

Lemma index_union_first x l :
  Forall (Z.lt x) l → StronglySorted Z.lt l → index_union [x] l = x :: l.
Proof.
  intros Hx Hl. destruct l as [|y l]; [done|]. simpl.
  rewrite bool_decide_false.
  - change (sort_unique (x :: y :: l) = x :: y :: l).
    apply sort_unique_sorted. by constructor.
  - intros [= -> _]. inversion Hx; subst. lia.
Qed.

Lemma index_union_final x l :
  Forall (λ y, y < x) l → StronglySorted Z.lt l → index_union l [x] = l ++ [x].
Proof.
  intros Hx Hl. destruct l as [|y l]; [done|]. simpl.
  rewrite bool_decide_false.
  - change (sort_unique ((y :: l) ++ [x]) = (y :: l) ++ [x]).
    apply sort_unique_sorted. apply StronglySorted_app.
    split_and!; [|done|repeat constructor].
    intros a b Ha Hb. apply list_elem_of_singleton in Hb as ->.
    by eapply Forall_forall in Hx.
  - intros [= -> ->]. inversion Hx; subst. lia.
Qed.

(** ** The block detection finds the maximal runs *)

Lemma sorted_sublist (l k : list Z) :
  l `sublist_of` k → StronglySorted Z.lt k → StronglySorted Z.lt l.
Proof.
  induction 1 as [|x l1 l2 Hsub IH|x l1 l2 Hsub IH]; intros Hk.
  - constructor.
  - apply StronglySorted_cons in Hk as [Hx Hk]. constructor; [auto|].
    rewrite Forall_forall in Hx |- *. intros y Hy. apply Hx.
    by eapply elem_of_sublist.
  - apply StronglySorted_cons in Hk as [_ Hk]. auto.
Qed.

Lemma Forall_sublist_of {A} (P : A → Prop) (l k : list A) :
  l `sublist_of` k → Forall P k → Forall P l.
Proof.
  intros Hsub. rewrite !Forall_forall. intros Hk x Hx. apply Hk.
  by eapply elem_of_sublist.
Qed.

Lemma starts_of_sublist p l : starts_of p l `sublist_of` index l.
Proof.
  revert p. induction l as [|r t IH]; intros p; simpl; [constructor|].
  destruct (has_cap r && negb p); [apply sublist_skip|apply sublist_cons]; apply IH.
Qed.

Lemma ends_of_sublist l : ends_of l `sublist_of` index l.
Proof.
  induction l as [|r t IH]; simpl; [constructor|].
  destruct (has_cap r && negb (next_has t)); [apply sublist_skip|apply sublist_cons]; apply IH.
Qed.

Lemma inner_ends_of_cons r t :
  t ≠ [] →
  inner_ends_of (r :: t) =
    if has_cap r && negb (next_has t)
    then timestamp r :: inner_ends_of t else inner_ends_of t.
Proof. by destruct t. Qed.

Lemma inner_ends_of_sublist l x : inner_ends_of (l ++ [x]) `sublist_of` index l.
Proof.
  induction l as [|r t IH]; [constructor|].
  rewrite <- app_comm_cons, inner_ends_of_cons by (by destruct t).
  destruct (has_cap r && negb (next_has (t ++ [x]))); [apply sublist_skip|apply sublist_cons]; apply IH.
Qed.

Lemma mask_eq_cons o s v :
  mask_eq (o :: s) v =
    match o with Some x => bool_decide (x = v) | None => false end :: mask_eq s v.
Proof. done. Qed.

Lemma has_capacity_cons r t : has_capacity (r :: t) = has_cap r :: has_capacity t.
Proof. done. Qed.

Lemma index_cons r t : index (r :: t) = timestamp r :: index t.
Proof. done. Qed.

Lemma index_app l k : index (l ++ k) = index l ++ index k.
Proof. apply fmap_app. Qed.

Lemma starts_raw_spec t p :
  masked (mask_eq (diff_from (int_of_bool p) (int_of_bool <$> has_capacity t)) 1) (index t)
  = starts_of p t.
Proof.
  revert p. induction t as [|r t IH]; intros p; [done|].
  rewrite has_capacity_cons, index_cons, fmap_cons.
  cbn [diff_from]. rewrite mask_eq_cons. cbn [masked starts_of].
  rewrite IH. by destruct (has_cap r), p.
Qed.

Lemma inner_ends_raw_spec t r :
  masked (mask_eq (diff_from (int_of_bool (has_cap r)) (int_of_bool <$> has_capacity t)) (-1)
            ++ [false]) (timestamp r :: index t)
  = inner_ends_of (r :: t).
Proof.
  revert r. induction t as [|r' t IH]; intros r; [done|].
  rewrite inner_ends_of_cons by done.
  rewrite has_capacity_cons, index_cons, fmap_cons.
  cbn [diff_from]. rewrite mask_eq_cons, <- app_comm_cons. cbn [masked next_has].
  rewrite IH. by destruct (has_cap r), (has_cap r').
Qed.

Lemma ends_of_inner l :
  ends_of l = inner_ends_of l ++
    match last l with
    | Some r => if has_cap r then [timestamp r] else []
    | None => []
    end.
Proof.
  induction l as [|r t IH]; [done|].
  destruct t as [|r' t].
  - simpl. by destruct (has_cap r).
  - rewrite last_cons_cons, inner_ends_of_cons by done.
    change (ends_of (r :: r' :: t))
      with (if has_cap r && negb (next_has (r' :: t))
            then timestamp r :: ends_of (r' :: t) else ends_of (r' :: t)).
    rewrite IH. by destruct (has_cap r && negb (next_has (r' :: t))).
Qed.

Lemma block_bounds_spec df :
  ascending df →
  block_bounds (index df) (has_capacity df) = (starts_of false df, ends_of df).
Proof.
  intros Hasc. destruct df as [|r t]; [done|].
  unfold block_bounds. f_equal.
  - rewrite has_capacity_cons, index_cons, fmap_cons. cbn [diff].
    rewrite mask_eq_cons. cbn [masked starts_of].
    rewrite starts_raw_spec.
    apply StronglySorted_cons in Hasc as [Hr Ht].
    destruct (has_cap r); simpl; [|done].
    apply index_union_first.
    + eapply Forall_sublist_of; [apply starts_of_sublist|done].
    + eapply sorted_sublist; [apply starts_of_sublist|done].
  - set (m := mask_eq (diff (int_of_bool <$> has_capacity (r :: t))) (-1)).
    assert (Hinner : (if any m then masked (shift_back m) (index (r :: t)) else [])
                     = inner_ends_of (r :: t)).
    { assert (Hm : masked (shift_back m) (index (r :: t)) = inner_ends_of (r :: t)).
      { rewrite <- inner_ends_raw_spec. done. }
      destruct (any m) eqn:Hany; [done|].
      rewrite <- Hm. symmetry. by apply masked_shift_back_none. }
    rewrite Hinner, ends_of_inner. clear Hinner m.
    unfold has_capacity at 1, index at 1. rewrite !fmap_last.
    destruct (last (r :: t)) as [x|] eqn:Hlast;
      cbn [fmap option_fmap option_map]; [|by rewrite app_nil_r].
    destruct (has_cap x); [|by rewrite app_nil_r].
    apply last_Some in Hlast as [l' Hl']. revert Hasc. rewrite Hl'. intros Hasc.
    unfold ascending in Hasc. rewrite index_app in Hasc.
    apply StronglySorted_app in Hasc as (Hlt & Hl & _).
    apply index_union_final.
    + eapply Forall_sublist_of; [apply inner_ends_of_sublist|].
      apply Forall_forall. intros y Hy. apply Hlt; [done|]. by left.
    + eapply sorted_sublist; [apply inner_ends_of_sublist|done].
Qed.

(** ** From the index loop to the list of blocks *)

Lemma foldl_pointwise {A B} (f g : A → B → A) (a : A) (l : list B) :
  (∀ a b, f a b = g a b) → foldl f a l = foldl g a l.
Proof.
  intros Hfg. revert a. induction l as [|b l IH]; intros a; simpl; [done|].
  by rewrite Hfg, IH.
Qed.

(** [for i in range(len(starts)): if i < len(ends): ...] visits the pairs of
    [zip(starts, ends)] in order. *)
Lemma index_loop_zip {T} (F : Z → Z → T → T) (ss es : list Z) (d : T) :
  foldl (λ d i, if bool_decide (i < length es)%nat
                then F (ss !!! i) (es !!! i) d else d) d (seq 0 (length ss))
  = foldl (λ d p, F p.1 p.2 d) d (zip ss es).
Proof.
  revert es d. induction ss as [|s ss IH]; intros es d; [done|].
  destruct es as [|e es].
  - simpl. clear IH. generalize (seq 1 (length ss)). intros l.
    induction l as [|i l IHl]; simpl; auto.
  - cbn [length seq foldl zip zip_with]. rewrite bool_decide_true by lia.
    rewrite <- fmap_S_seq, foldl_fmap. cbn [fst snd].
    rewrite <- IH. apply foldl_pointwise. intros a i.
    rewrite (bool_decide_ext (S i < S (length es))%nat (i < length es)%nat) by lia.
    done.
Qed.

Lemma Qc_sum_cons x l : Qc_sum (x :: l) = (x + Qc_sum l)%Qc.
Proof. done. Qed.

Lemma Qc_sum_app l k : Qc_sum (l ++ k) = (Qc_sum l + Qc_sum k)%Qc.
Proof.
  induction l as [|x l IH].
  - simpl. by rewrite Qcplus_0_l.
  - rewrite <- app_comm_cons, !Qc_sum_cons, IH. ring.
Qed.

Lemma block_total_cons val s e r t :
  block_total val s e (r :: t) =
    ((if in_block s e r then val r else 0) + block_total val s e t)%Qc.
Proof. done. Qed.

Lemma block_total_app val s e l k :
  block_total val s e (l ++ k) = (block_total val s e l + block_total val s e k)%Qc.
Proof. unfold block_total. by rewrite fmap_app, Qc_sum_app. Qed.

Lemma masked_block_mask val s e df :
  Qc_sum (masked (block_mask (index df) (has_capacity df) s e) (val <$> df))
  = block_total val s e df.
Proof.
  induction df as [|r t IH]; [done|].
  rewrite block_total_cons, <- IH. unfold block_mask, in_block.
  rewrite index_cons, has_capacity_cons, !fmap_cons. cbn [zip_with masked].
  destruct (bool_decide (s ≤ timestamp r) && bool_decide (timestamp r ≤ e) && has_cap r).
  - by rewrite Qc_sum_cons.
  - by rewrite Qcplus_0_l.
Qed.

Lemma block_total_below val s e l :
  Forall (λ x, x < s) (index l) → block_total val s e l = 0%Qc.
Proof.
  induction l as [|r t IH]; [done|]. rewrite index_cons. intros [Hr Ht]%Forall_cons.
  rewrite block_total_cons, IH by done. unfold in_block.
  rewrite (bool_decide_false (s ≤ timestamp r)) by lia. simpl. ring.
Qed.

Lemma block_total_above val s e l :
  Forall (λ x, e < x) (index l) → block_total val s e l = 0%Qc.
Proof.
  induction l as [|r t IH]; [done|]. rewrite index_cons. intros [Hr Ht]%Forall_cons.
  rewrite block_total_cons, IH by done. unfold in_block.
  rewrite (bool_decide_false (timestamp r ≤ e)) by lia.
  rewrite andb_false_r. simpl. ring.
Qed.

(** A block whose start is at or before the first row of [l] and whose end
    is the label of [r], the rows of [t] lying after it. *)
Lemma block_total_run val s e r pre t :
  ascending (pre ++ r :: t) → s ≤ timestamp r → e = timestamp r → has_cap r = true →
  block_total val s e (pre ++ r :: t) = (block_total val s e pre + val r)%Qc.
Proof.
  intros Hasc Hs -> Hr. unfold ascending in Hasc. rewrite index_app, index_cons in Hasc.
  apply StronglySorted_app in Hasc as (_ & _ & [Ht _]%StronglySorted_cons).
  rewrite block_total_app, block_total_cons, (block_total_above _ _ _ t) by done.
  unfold in_block. rewrite Hr, !bool_decide_true by lia. simpl. ring.
Qed.

(** ** Writing block totals, generically in the column *)

Section writes.
Context (set : Qc → row → row).
Context (set_timestamp : ∀ v r, timestamp (set v r) = timestamp r).
Context (set_set : ∀ v w r, set v (set w r) = set v r).

Lemma pick_notin k v0 W : Forall (λ w, w.1 ≠ k) W → pick k v0 W = v0.
Proof.
  intros HW. revert v0. induction HW as [|w W Hw _ IH]; intros v0; [done|].
  unfold pick in *. simpl. rewrite (bool_decide_false (k = w.1)) by done.
  rewrite andb_false_r. apply IH.
Qed.

Lemma pick_cons k v0 w W :
  pick k v0 (w :: W) =
    pick k (if bool_decide (0 < w.2)%Qc && bool_decide (k = w.1) then w.2 else v0) W.
Proof. done. Qed.

Lemma index_at_set key v df : index (at_set set key v df) = index df.
Proof.
  unfold index, at_set. rewrite <- list_fmap_compose. apply list_fmap_ext.
  intros i r _. simpl. case_bool_decide; by rewrite ?set_timestamp.
Qed.

Lemma apply_writes_pointwise W f df :
  foldl (λ d w, if bool_decide (0 < w.2)%Qc then at_set set w.1 w.2 d else d)
    ((λ r, set (f r) r) <$> df) W
  = (λ r, set (pick (timestamp r) (f r) W) r) <$> df.
Proof.
  revert f. induction W as [|[k tot] W IH]; intros f; [done|].
  cbn [foldl fst snd].
  assert (Hstep : (if bool_decide (0 < tot)%Qc
                   then at_set set k tot ((λ r, set (f r) r) <$> df)
                   else (λ r, set (f r) r) <$> df)
                  = (λ r, set ((λ r, if bool_decide (0 < tot)%Qc && bool_decide (timestamp r = k)
                                     then tot else f r) r) r) <$> df).
  { case_bool_decide; [|done]. unfold at_set. rewrite <- list_fmap_compose.
    apply list_fmap_ext. intros i r _. simpl. rewrite set_timestamp.
    case_bool_decide; by rewrite ?set_set. }
  rewrite Hstep, IH. done.
Qed.
End writes.

(** ** The pairs of the loop are the maximal runs, with their totals *)

Lemma starts_of_no_cap p l : next_has l = false → starts_of p l = starts_of false l.
Proof. destruct l as [|r t]; [done|]. simpl. by intros ->. Qed.

Lemma snoc_app {A} (pre : list A) r t : pre ++ r :: t = (pre ++ [r]) ++ t.
Proof. by rewrite <- app_assoc. Qed.

Lemma ascending_split pre r t :
  ascending (pre ++ r :: t) →
  Forall (λ x, x < timestamp r) (index pre) ∧ Forall (λ x, timestamp r < x) (index t).
Proof.
  unfold ascending. rewrite index_app, index_cons.
  intros (Hlt & _ & [Ht _]%StronglySorted_cons)%StronglySorted_app. split; [|done].
  apply Forall_forall. intros x Hx. apply Hlt; [done|]. by left.
Qed.

Lemma blocks_from_zip val l : ∀ pre open acc,
  ascending (pre ++ l) →
  open_inv val pre l open acc →
  (λ p, (p.1, p.2, block_total val p.1 p.2 (pre ++ l)))
    <$> zip (open_starts open l) (ends_of l)
  = blocks_from val open acc l.
Proof.
  induction l as [|r t IH]; intros pre open acc Hasc Hinv.
  { cbn [ends_of]. by rewrite zip_with_nil_r. }
  destruct (ascending_split _ _ _ Hasc) as [Hpre Ht].
  cbn [blocks_from ends_of].
  destruct (has_cap r) eqn:Hr; [destruct (next_has t) eqn:Hn|].
  - (* the block goes on *)
    rewrite snoc_app in Hasc |- *.
    rewrite <- (IH (pre ++ [r]) (Some (default (timestamp r) open)) (acc + val r)%Qc Hasc).
    { destruct open as [s|]; simpl; by rewrite Hr. }
    split; [done|]. destruct open as [s|]; simpl.
    + destruct Hinv as (_ & [Hsr Hst]%Forall_cons & Hacc). split; [done|].
      intros e. rewrite index_app. intros [He1 [He2 _]%Forall_cons]%Forall_app.
      rewrite block_total_app, (Hacc e He1). unfold block_total, in_block. simpl.
      rewrite Hr, !bool_decide_true by done. simpl. unfold Qc_sum. simpl. ring.
    + simpl in Hinv. subst acc. split.
      { eapply Forall_impl; [exact Ht|]. simpl. lia. }
      intros e. rewrite index_app. intros [He1 [He2 _]%Forall_cons]%Forall_app.
      rewrite block_total_app, (block_total_below _ _ _ pre) by done.
      unfold block_total, in_block. simpl.
      rewrite Hr, !bool_decide_true by (done || lia). simpl. unfold Qc_sum. simpl. ring.
  - (* the block ends on this row *)
    assert (Hz : zip (open_starts open (r :: t)) (timestamp r :: ends_of t)
                 = (default (timestamp r) open, timestamp r) :: zip (starts_of false t) (ends_of t)).
    { rewrite <- (starts_of_no_cap true t Hn). destruct open as [s|]; simpl; by rewrite Hr. }
    simpl. rewrite Hz. clear Hz. rewrite fmap_cons. cbn [fst snd]. f_equal.
    + f_equal. destruct open as [s|]; simpl.
      * destruct Hinv as (_ & [Hsr Hst]%Forall_cons & Hacc).
        rewrite (block_total_run val s (timestamp r) r pre t) by done.
        rewrite Hacc; [done|]. eapply Forall_impl; [exact Hpre|]. simpl. lia.
      * simpl in Hinv. subst acc.
        rewrite (block_total_run val _ (timestamp r) r pre t) by (done || lia).
        by rewrite block_total_below.
    + rewrite snoc_app in Hasc |- *.
      by rewrite <- (IH (pre ++ [r]) None 0%Qc Hasc).
  - (* a row without capacity *)
    destruct open as [s|]; [destruct Hinv as (Hn & _); simpl in Hn; congruence|].
    rewrite snoc_app in Hasc |- *.
    rewrite <- (IH (pre ++ [r]) None 0%Qc Hasc) by done.
    simpl. by rewrite Hr.
Qed.

Lemma blocks_from_keys val l : ∀ open acc,
  Forall (λ b, (b.1.1 ∈ index l ∨ open = Some b.1.1) ∧ b.1.2 ∈ index l)
    (blocks_from val open acc l).
Proof.
  induction l as [|r t IH]; intros open acc; [constructor|].
  assert (Hhead : timestamp r ∈ index (r :: t) ∨ open = Some (default (timestamp r) open)).
  { destruct open; [by right|left; by left]. }
  assert (Htail : ∀ o a, o = None ∨ o = Some (default (timestamp r) open) →
            Forall (λ b, (b.1.1 ∈ index (r :: t) ∨ open = Some b.1.1) ∧ b.1.2 ∈ index (r :: t))
              (blocks_from val o a t)).
  { intros o a Ho. eapply Forall_impl; [apply IH|]. intros b [Hs He]. rewrite index_cons.
    split; [|by right]. destruct Hs as [Hs|Hs]; [left; by right|].
    destruct Ho as [->| ->]; [done|]. injection Hs as <-.
    destruct open; [by right|left; by left]. }
  cbn [blocks_from]. destruct (has_cap r); [destruct (next_has t)|]; auto.
  constructor; [|by auto]. simpl. split; [|by left].
  destruct open; [by right|left; by left].
Qed.

Lemma end_keys_above val t open acc k :
  Forall (λ x, k < x) (index t) →
  Forall (λ w : Z * Qc, w.1 ≠ k) ((λ b, (b.1.2, b.2)) <$> blocks_from val open acc t).
Proof.
  intros Ht. apply Forall_fmap. eapply Forall_impl; [apply blocks_from_keys|].
  intros b [_ He]. simpl. rewrite Forall_forall in Ht. specialize (Ht _ He). lia.
Qed.

Lemma start_keys_above val t open acc k :
  Forall (λ x, k < x) (index t) → open ≠ Some k →
  Forall (λ w : Z * Qc, w.1 ≠ k) ((λ b, (b.1.1, b.2)) <$> blocks_from val open acc t).
Proof.
  intros Ht Ho. apply Forall_fmap. eapply Forall_impl; [apply blocks_from_keys|].
  intros b [[Hs|Hs] _]; simpl.
  - rewrite Forall_forall in Ht. specialize (Ht _ Hs). lia.
  - congruence.
Qed.

Lemma fmap_pick_skip (set : Qc → row → row) w W t :
  Forall (λ x, x ≠ w.1) (index t) →
  (λ x, set (pick (timestamp x) 0%Qc (w :: W)) x) <$> t
  = (λ x, set (pick (timestamp x) 0%Qc W) x) <$> t.
Proof.
  intros Ht. apply Forall_fmap_ext_1. unfold index in Ht. rewrite Forall_fmap in Ht.
  eapply Forall_impl; [exact Ht|]. intros x Hx. simpl in Hx.
  rewrite pick_cons, (bool_decide_false (timestamp x = w.1)) by done.
  by rewrite andb_false_r.
Qed.

Lemma ascending_cons r t :
  ascending (r :: t) → Forall (λ x, timestamp r < x) (index t) ∧ ascending t.
Proof. unfold ascending. rewrite index_cons. apply StronglySorted_cons. Qed.

Lemma next_has_fmap (f : row → row) l :
  (∀ r, has_cap (f r) = has_cap r) → next_has (f <$> l) = next_has l.
Proof. intros Hf. destruct l; simpl; auto. Qed.

(** *** Demand: the total lands on the last row of its block *)

Lemma pick_ends_spec l : ∀ open acc,
  ascending l →
  (λ r, set_demand
          (pick (timestamp r) 0%Qc
             ((λ b, (b.1.2, b.2)) <$> blocks_from energy_demand_kWh open acc l)) r) <$> l
  = to_block_end acc l.
Proof.
  induction l as [|r t IH]; intros open acc Hasc; [done|].
  apply ascending_cons in Hasc as [Hr Hasc].
  rewrite fmap_cons. cbn [blocks_from to_block_end].
  destruct (has_cap r); [destruct (next_has t)|].
  - rewrite IH, pick_notin by auto using end_keys_above. done.
  - rewrite fmap_cons, pick_cons. cbn [fst snd].
    rewrite (bool_decide_true (timestamp r = timestamp r)), andb_true_r by done.
    rewrite pick_notin by auto using end_keys_above.
    rewrite fmap_pick_skip.
    2:{ eapply Forall_impl; [exact Hr|]. simpl. lia. }
    by rewrite IH.
  - rewrite IH, pick_notin by auto using end_keys_above. done.
Qed.

(** *** Rest energy: the total lands on the first row of its block *)

Lemma to_block_start_no_cap p l :
  next_has l = false → to_block_start p l = to_block_start false l.
Proof. destruct l as [|r t]; [done|]. simpl. by intros ->. Qed.

Lemma run_sum_no_cap val l : next_has l = false → run_sum val l = 0%Qc.
Proof. destruct l as [|r t]; [done|]. simpl. by intros ->. Qed.

Lemma pick_open val t : ∀ s a v0,
  next_has t = true → Forall (λ x, s < x) (index t) →
  pick s v0 ((λ b, (b.1.1, b.2)) <$> blocks_from val (Some s) a t)
  = if bool_decide (0 < a + run_sum val t)%Qc then (a + run_sum val t)%Qc else v0.
Proof.
  induction t as [|x t IH]; intros s a v0 Hn Hs; [done|].
  simpl in Hn. rewrite index_cons in Hs. apply Forall_cons in Hs as [Hx Hs].
  cbn [blocks_from run_sum]. rewrite Hn. destruct (next_has t) eqn:Hnt.
  - simpl. rewrite IH by done. by rewrite Qcplus_assoc.
  - rewrite fmap_cons, pick_cons. cbn [fst snd default].
    rewrite (bool_decide_true (s = s)), andb_true_r by done.
    rewrite pick_notin by (apply start_keys_above; [done|congruence]).
    by rewrite run_sum_no_cap, Qcplus_0_r.
Qed.

Lemma pick_starts_spec l : ∀ open acc,
  ascending l →
  match open with
  | Some s => next_has l = true ∧ Forall (λ x, s < x) (index l)
  | None => acc = 0%Qc
  end →
  (λ r, set_rest
          (pick (timestamp r) 0%Qc
             ((λ b, (b.1.1, b.2)) <$> blocks_from rest_energy_kWh open acc l)) r) <$> l
  = to_block_start (prev_open open) l.
Proof.
  induction l as [|r t IH]; intros open acc Hasc Hopen; [done|].
  apply ascending_cons in Hasc as [Hr Hasc].
  assert (Hne : Forall (λ x, x ≠ timestamp r) (index t)).
  { eapply Forall_impl; [exact Hr|]. simpl. lia. }
  rewrite fmap_cons. cbn [blocks_from to_block_start run_sum].
  destruct (has_cap r) eqn:Hcap; [destruct (next_has t) eqn:Hn|].
  - destruct open as [s|]; cbn [default prev_open].
    + destruct Hopen as [_ [Hsr Hst]%Forall_cons].
      rewrite pick_notin by (apply start_keys_above; [done|intros [=]; lia]).
      by rewrite (IH (Some s)).
    + subst acc. rewrite pick_open by done.
      rewrite (IH (Some (timestamp r))) by done.
      by rewrite Qcplus_0_l.
  - rewrite fmap_cons, pick_cons. cbn [fst snd].
    rewrite (to_block_start_no_cap true t Hn).
    destruct open as [s|]; cbn [default prev_open].
    + destruct Hopen as [_ [Hsr Hst]%Forall_cons].
      rewrite (bool_decide_false (timestamp r = s)), andb_false_r by lia.
      rewrite pick_notin by (apply start_keys_above; [done|congruence]).
      rewrite fmap_pick_skip, (IH None); [done..|].
      eapply Forall_impl; [exact Hst|]. simpl. lia.
    + subst acc.
      rewrite (bool_decide_true (timestamp r = timestamp r)), andb_true_r by done.
      rewrite pick_notin by (apply start_keys_above; [done|congruence]).
      rewrite fmap_pick_skip, (IH None) by done.
      by rewrite run_sum_no_cap, Qcplus_0_l, Qcplus_0_r.
  - destruct open as [s|]; [destruct Hopen as [Hn _]; simpl in Hn; congruence|].
    rewrite pick_notin by (apply start_keys_above; [done|congruence]).
    by rewrite (IH None).
Qed.

(** ** The consolidation functions compute the one-pass formulation *)

Lemma starts_of_fmap (f : row → row) p l :
  (∀ r, has_cap (f r) = has_cap r) → (∀ r, timestamp (f r) = timestamp r) →
  starts_of p (f <$> l) = starts_of p l.
Proof.
  intros Hc Ht. revert p. induction l as [|r t IH]; intros p; [done|].
  rewrite fmap_cons. simpl. by rewrite Hc, Ht, IH.
Qed.

Lemma ends_of_fmap (f : row → row) l :
  (∀ r, has_cap (f r) = has_cap r) → (∀ r, timestamp (f r) = timestamp r) →
  ends_of (f <$> l) = ends_of l.
Proof.
  intros Hc Ht. induction l as [|r t IH]; [done|].
  rewrite fmap_cons. simpl. by rewrite Hc, Ht, IH, next_has_fmap.
Qed.

Lemma index_fmap (f : row → row) l :
  (∀ r, timestamp (f r) = timestamp r) → index (f <$> l) = index l.
Proof.
  intros Ht. unfold index. rewrite <- list_fmap_compose. apply list_fmap_ext.
  intros i r _. apply Ht.
Qed.

Lemma has_capacity_fmap (f : row → row) l :
  (∀ r, has_cap (f r) = has_cap r) → has_capacity (f <$> l) = has_capacity l.
Proof.
  intros Hc. unfold has_capacity. rewrite <- list_fmap_compose. apply list_fmap_ext.
  intros i r _. apply Hc.
Qed.

Section loop.
Context (set : Qc → row → row).
Context (set_timestamp : ∀ v r, timestamp (set v r) = timestamp r).
Context (set_set : ∀ v w r, set v (set w r) = set v r).
Context (set_has_cap : ∀ v r, has_cap (set v r) = has_cap r).
Context (val : row → Qc) (key : Z * Z → Z).

Lemma loop_totals hc orig (P : list (Z * Z)) : ∀ d0,
  foldl (λ d p, loop_body set key hc orig p.1 p.2 d) d0 P
  = foldl (λ d w, if bool_decide (0 < w.2)%Qc then at_set set w.1 w.2 d else d) d0
      ((λ p, (key (p.1, p.2), Qc_sum (masked (block_mask (index d0) hc p.1 p.2) orig))) <$> P).
Proof.
  induction P as [|p P IH]; intros d0; [done|].
  rewrite fmap_cons. cbn [foldl fst snd]. rewrite IH. unfold loop_body.
  case_bool_decide; [|done]. by rewrite index_at_set.
Qed.

Lemma block_loop_spec df :
  ascending df →
  block_loop set val key df =
    (λ r, set (pick (timestamp r) 0%Qc
                 ((λ b, (key (b.1.1, b.1.2), b.2)) <$> blocks_from val None 0%Qc df)) r) <$> df.
Proof.
  intros Hasc. unfold block_loop.
  assert (Hidx : index (set 0%Qc <$> df) = index df) by by apply index_fmap.
  assert (Hhc : has_capacity (set 0%Qc <$> df) = has_capacity df)
    by by apply has_capacity_fmap.
  rewrite Hidx, Hhc, block_bounds_spec by done.
  etrans.
  { apply (index_loop_zip (loop_body set key (has_capacity df) (val <$> df))). }
  etrans; [apply (loop_totals (has_capacity df) (val <$> df))|]. rewrite Hidx.
  rewrite (apply_writes_pointwise set set_timestamp set_set _ (λ _, 0%Qc)).
  assert (HW : (λ p : Z * Z, (key (p.1, p.2),
                   Qc_sum (masked (block_mask (index df) (has_capacity df) p.1 p.2)
                             (val <$> df))))
               <$> zip (starts_of false df) (ends_of df)
               = (λ b, (key (b.1.1, b.1.2), b.2)) <$> blocks_from val None 0%Qc df).
  { rewrite <- (blocks_from_zip val df [] None 0%Qc) by done.
    rewrite <- list_fmap_compose. apply list_fmap_ext. intros i [s e] _. simpl.
    by rewrite masked_block_mask. }
  by rewrite HW.
Qed.
End loop.

Lemma set_demand_timestamp v r : timestamp (set_demand v r) = timestamp r.
Proof. done. Qed.
Lemma set_demand_set v w r : set_demand v (set_demand w r) = set_demand v r.
Proof. done. Qed.
Lemma set_demand_has_cap v r : has_cap (set_demand v r) = has_cap r.
Proof. done. Qed.
Lemma set_rest_timestamp v r : timestamp (set_rest v r) = timestamp r.
Proof. done. Qed.
Lemma set_rest_set v w r : set_rest v (set_rest w r) = set_rest v r.
Proof. done. Qed.
Lemma set_rest_has_cap v r : has_cap (set_rest v r) = has_cap r.
Proof. done. Qed.

(** On a table with an ascending index, [_set_energy_demand_at_block_end]
    is [to_block_end] started with an empty accumulator. *)
Theorem set_energy_demand_at_block_end_spec df :
  ascending df → set_energy_demand_at_block_end df = to_block_end 0%Qc df.
Proof.
  intros Hasc.
  change (set_energy_demand_at_block_end df)
    with (block_loop set_demand energy_demand_kWh snd df).
  rewrite block_loop_spec by done.
  by apply (pick_ends_spec df None 0%Qc).
Qed.

(** On a table with an ascending index, [_set_rest_energy_at_block_start]
    is [to_block_start]. *)
Theorem set_rest_energy_at_block_start_spec df :
  ascending df → set_rest_energy_at_block_start df = to_block_start false df.
Proof.
  intros Hasc.
  change (set_rest_energy_at_block_start df)
    with (block_loop set_rest rest_energy_kWh fst df).
  rewrite block_loop_spec by done.
  by apply (pick_starts_spec df None 0%Qc).
Qed.

(** ** Properties of the one-pass formulation *)

Lemma written_nonneg x : (0 ≤ x)%Qc → written x = x.
Proof.
  intros Hx. unfold written. case_bool_decide as H; [done|].
  apply Qcnot_lt_le in H. by apply Qcle_antisym.
Qed.

Lemma written_written x : written (written x) = written x.
Proof.
  unfold written. destruct (decide (0 < x)%Qc) as [H|H].
  - by rewrite !(bool_decide_true (0 < x)%Qc).
  - by rewrite !(bool_decide_false (0 < x)%Qc).
Qed.

Lemma written_0 : written 0%Qc = 0%Qc.
Proof. done. Qed.

Lemma index_to_block_end l : ∀ acc, index (to_block_end acc l) = index l.
Proof.
  induction l as [|r t IH]; intros acc; [done|]. simpl.
  destruct (has_cap r); [destruct (next_has t)|]; rewrite index_cons, IH; done.
Qed.

Lemma index_to_block_start l : ∀ p, index (to_block_start p l) = index l.
Proof.
  induction l as [|r t IH]; intros p; [done|]. simpl.
  destruct (has_cap r); [destruct p|]; rewrite index_cons, IH; done.
Qed.

Lemma next_has_to_block_end l acc : next_has (to_block_end acc l) = next_has l.
Proof.
  destruct l as [|r t]; [done|]. simpl.
  destruct (has_cap r) eqn:Hr; [destruct (next_has t)|]; simpl; by rewrite set_demand_has_cap.
Qed.

Lemma next_has_to_block_start l p : next_has (to_block_start p l) = next_has l.
Proof.
  destruct l as [|r t]; [done|]. simpl.
  destruct (has_cap r) eqn:Hr; [destruct p|]; simpl; by rewrite set_rest_has_cap.
Qed.

Lemma ascending_to_block_end l acc : ascending l → ascending (to_block_end acc l).
Proof. unfold ascending. by rewrite index_to_block_end. Qed.

Lemma ascending_to_block_start l p : ascending l → ascending (to_block_start p l).
Proof. unfold ascending. by rewrite index_to_block_start. Qed.

(** A second demand pass finds every block total already on the last row of
    its block. *)
Lemma to_block_end_idem l : ∀ acc,
  to_block_end 0%Qc (to_block_end acc l) = to_block_end acc l.
Proof.
  induction l as [|r t IH]; intros acc; [done|].
  cbn [to_block_end].
  destruct (has_cap r) eqn:Hr; [destruct (next_has t) eqn:Hn|];
    cbn [to_block_end]; rewrite set_demand_has_cap, Hr, ?next_has_to_block_end, ?Hn.
  - simpl. rewrite Qcplus_0_l. by rewrite IH.
  - simpl. rewrite Qcplus_0_l, written_written. by rewrite IH.
  - by rewrite IH.
Qed.

Lemma run_sum_to_block_start_true l :
  run_sum rest_energy_kWh (to_block_start true l) = 0%Qc.
Proof.
  induction l as [|r t IH]; [done|]. cbn [to_block_start].
  destruct (has_cap r) eqn:Hr; cbn [run_sum]; rewrite set_rest_has_cap, Hr; [|done].
  simpl. rewrite IH. ring.
Qed.

Lemma to_block_start_idem l : ∀ p,
  to_block_start p (to_block_start p l) = to_block_start p l.
Proof.
  induction l as [|r t IH]; intros p; [done|].
  cbn [to_block_start].
  destruct (has_cap r) eqn:Hr; [destruct p|];
    cbn [to_block_start run_sum]; rewrite set_rest_has_cap, Hr, IH; [done| |done].
  f_equal. simpl.
  rewrite run_sum_to_block_start_true, Qcplus_0_r, written_written. done.
Qed.

Lemma run_sum_to_block_end l : ∀ acc,
  run_sum rest_energy_kWh (to_block_end acc l) = run_sum rest_energy_kWh l.
Proof.
  induction l as [|r t IH]; intros acc; [done|]. cbn [to_block_end].
  destruct (has_cap r) eqn:Hr; [destruct (next_has t)|];
    cbn [run_sum]; rewrite set_demand_has_cap, Hr, ?IH; done.
Qed.

(** The two passes work on different columns and commute. *)
Lemma to_block_end_start_comm l : ∀ acc p,
  to_block_end acc (to_block_start p l) = to_block_start p (to_block_end acc l).
Proof.
  induction l as [|r t IH]; intros acc p; [done|].
  cbn [to_block_start to_block_end].
  destruct (has_cap r) eqn:Hr; [destruct (next_has t) eqn:Hn; destruct p|];
    cbn [to_block_start to_block_end run_sum];
    rewrite ?set_rest_has_cap, ?set_demand_has_cap, ?Hr, ?next_has_to_block_start, ?Hn,
      ?run_sum_to_block_end, <- ?IH; done.
Qed.

Lemma consolidate_spec df :
  ascending df → consolidate df = to_block_start false (to_block_end 0%Qc df).
Proof.
  intros Hasc. unfold consolidate.
  rewrite set_energy_demand_at_block_end_spec by done.
  by rewrite set_rest_energy_at_block_start_spec by by apply ascending_to_block_end.
Qed.

Lemma ascending_consolidate df : ascending df → ascending (consolidate df).
Proof.
  intros Hasc. rewrite consolidate_spec by done.
  by apply ascending_to_block_start, ascending_to_block_end.
Qed.

(** *** Conservation inside the blocks *)

Lemma column_sum_cons val r t : column_sum val (r :: t) = (val r + column_sum val t)%Qc.
Proof. done. Qed.

Lemma column_sum_app val l k :
  column_sum val (l ++ k) = (column_sum val l + column_sum val k)%Qc.
Proof. unfold column_sum. by rewrite fmap_app, Qc_sum_app. Qed.

Lemma sum_in_blocks_cons val r t :
  sum_in_blocks val (r :: t) =
    ((if has_cap r then val r else 0) + sum_in_blocks val t)%Qc.
Proof.
  unfold sum_in_blocks. rewrite filter_cons.
  case_decide as H; rewrite H || (apply not_true_is_false in H; rewrite H).
  - done.
  - by rewrite Qcplus_0_l.
Qed.

Lemma run_sum_nonneg val l : Forall (λ r, (0 ≤ val r)%Qc) l → (0 ≤ run_sum val l)%Qc.
Proof.
  induction 1 as [|r t Hr _ IH]; simpl; [done|].
  destruct (has_cap r); [|done]. by apply Qcplus_nonneg_nonneg.
Qed.

Lemma demand_sum_to_block_end l : ∀ acc,
  (0 ≤ acc)%Qc → Forall (λ r, (0 ≤ energy_demand_kWh r)%Qc) l →
  column_sum energy_demand_kWh (to_block_end acc l)
  = ((if next_has l then acc else 0) + sum_in_blocks energy_demand_kWh l)%Qc.
Proof.
  induction l as [|r t IH]; intros acc Hacc Hl.
  { simpl. unfold column_sum, sum_in_blocks. simpl. ring. }
  apply Forall_cons in Hl as [Hr Ht].
  rewrite sum_in_blocks_cons. cbn [to_block_end next_has].
  assert (Hsum : (0 ≤ acc + energy_demand_kWh r)%Qc) by by apply Qcplus_nonneg_nonneg.
  destruct (has_cap r); [destruct (next_has t) eqn:Hn|];
    rewrite column_sum_cons, IH by done; rewrite ?Hn, ?written_nonneg by done.
  - simpl. ring.
  - simpl. ring.
  - destruct (next_has t); simpl; ring.
Qed.

Lemma rest_sum_to_block_start l : ∀ p,
  Forall (λ r, (0 ≤ rest_energy_kWh r)%Qc) l →
  (column_sum rest_energy_kWh (to_block_start p l)
   + (if p then run_sum rest_energy_kWh l else 0))%Qc
  = sum_in_blocks rest_energy_kWh l.
Proof.
  induction l as [|r t IH]; intros p Hl.
  { destruct p; unfold column_sum, sum_in_blocks; simpl; ring. }
  pose proof (run_sum_nonneg _ _ Hl) as Hrun.
  apply Forall_cons in Hl as [Hr Ht].
  rewrite sum_in_blocks_cons. cbn [to_block_start run_sum] in *.
  destruct (has_cap r); [destruct p|]; rewrite column_sum_cons.
  - rewrite <- (IH true Ht). simpl. ring.
  - rewrite <- (IH true Ht), written_nonneg by done. simpl. ring.
  - rewrite <- (IH false Ht). destruct p; simpl; ring.
Qed.

Lemma demand_to_block_start l : ∀ p,
  energy_demand_kWh <$> to_block_start p l = energy_demand_kWh <$> l.
Proof.
  induction l as [|r t IH]; intros p; [done|]. cbn [to_block_start].
  destruct (has_cap r); [destruct p|]; rewrite !fmap_cons, IH; done.
Qed.

Lemma rest_in_blocks_to_block_end l : ∀ acc,
  sum_in_blocks rest_energy_kWh (to_block_end acc l) = sum_in_blocks rest_energy_kWh l.
Proof.
  induction l as [|r t IH]; intros acc; [done|]. cbn [to_block_end].
  destruct (has_cap r) eqn:Hr; [destruct (next_has t)|];
    rewrite !sum_in_blocks_cons, set_demand_has_cap, Hr, IH; done.
Qed.

(** The demand pass leaves the rest-energy column alone. *)
Lemma rest_nonneg_to_block_end l : ∀ acc,
  Forall (λ r, (0 ≤ rest_energy_kWh r)%Qc) l →
  Forall (λ r, (0 ≤ rest_energy_kWh r)%Qc) (to_block_end acc l).
Proof.
  induction l as [|r t IH]; intros acc Hl; [constructor|].
  apply Forall_cons in Hl as [Hr Ht]. cbn [to_block_end].
  destruct (has_cap r); [destruct (next_has t)|]; constructor; auto.
Qed.

Lemma consolidate_conservation df :
  ascending df → nonneg_metrics df →
  column_sum energy_demand_kWh (consolidate df) = sum_in_blocks energy_demand_kWh df ∧
  column_sum rest_energy_kWh (consolidate df) = sum_in_blocks rest_energy_kWh df.
Proof.
  intros Hasc Hnn. rewrite consolidate_spec by done. split.
  - unfold column_sum. rewrite demand_to_block_start.
    fold (column_sum energy_demand_kWh (to_block_end 0%Qc df)).
    rewrite demand_sum_to_block_end; [destruct (next_has df); ring|done|].
    eapply Forall_impl; [exact Hnn|]. by intros r [? _].
  - rewrite <- rest_in_blocks_to_block_end with (acc := 0%Qc).
    rewrite <- (rest_sum_to_block_start _ false); [ring|].
    apply rest_nonneg_to_block_end.
    eapply Forall_impl; [exact Hnn|]. by intros r [_ ?].
Qed.

(** *** Placement of the block totals *)

Lemma to_block_end_gap l1 : ∀ z l2 acc,
  has_cap z = false →
  to_block_end acc (l1 ++ z :: l2) = to_block_end acc (l1 ++ [z]) ++ to_block_end 0%Qc l2.
Proof.
  induction l1 as [|r t IH]; intros z l2 acc Hz.
  - simpl. by rewrite Hz.
  - rewrite <- !app_comm_cons. cbn [to_block_end].
    assert (Hn : next_has (t ++ z :: l2) = next_has (t ++ [z])) by by destruct t.
    rewrite Hn.
    destruct (has_cap r); [destruct (next_has (t ++ [z]))|];
      rewrite IH by done; done.
Qed.

Lemma to_block_end_before pre l :
  closed_before pre →
  to_block_end 0%Qc (pre ++ l) = to_block_end 0%Qc pre ++ to_block_end 0%Qc l.
Proof.
  unfold closed_before. destruct (last pre) as [z|] eqn:Hlast.
  - apply last_Some in Hlast as [p ->]. intros Hz.
    rewrite <- app_assoc. simpl. by apply to_block_end_gap.
  - apply last_None in Hlast as ->. done.
Qed.

Lemma demand_block_column b : ∀ x post acc,
  Forall (λ r, has_cap r = true) (b ++ [x]) → next_has post = false →
  energy_demand_kWh <$> to_block_end acc (b ++ x :: post)
  = replicate (length b) 0%Qc
      ++ written (acc + column_sum energy_demand_kWh (b ++ [x]))
      :: (energy_demand_kWh <$> to_block_end 0%Qc post).
Proof.
  induction b as [|r b IH]; intros x post acc Hcap Hpost.
  - simpl in Hcap. rewrite Forall_singleton in Hcap. simpl. rewrite Hcap, Hpost.
    unfold column_sum. simpl. by rewrite Qcplus_0_r.
  - rewrite <- !app_comm_cons. rewrite <- app_comm_cons in Hcap.
    apply Forall_cons in Hcap as [Hr Hb].
    cbn [to_block_end]. rewrite Hr.
    assert (Hn : next_has (b ++ x :: post) = true).
    { destruct b as [|r' b]; simpl.
      - simpl in Hb. by rewrite Forall_singleton in Hb.
      - rewrite <- app_comm_cons in Hb. by apply Forall_cons in Hb as [? _]. }
    rewrite Hn, fmap_cons, IH by done. simpl.
    by rewrite column_sum_cons, Qcplus_assoc.
Qed.

Lemma run_sum_gap val l1 z l2 :
  has_cap z = false → run_sum val (l1 ++ z :: l2) = run_sum val (l1 ++ [z]).
Proof.
  intros Hz. induction l1 as [|r t IH]; simpl; [by rewrite Hz|]. by rewrite IH.
Qed.

Lemma to_block_start_gap l1 : ∀ z l2 p,
  has_cap z = false →
  to_block_start p (l1 ++ z :: l2)
  = to_block_start p (l1 ++ [z]) ++ to_block_start false l2.
Proof.
  induction l1 as [|r t IH]; intros z l2 p Hz.
  - simpl. by rewrite Hz.
  - rewrite <- !app_comm_cons. cbn [to_block_start].
    rewrite !app_comm_cons, (run_sum_gap _ (r :: t) z l2) by done.
    rewrite <- !app_comm_cons.
    destruct (has_cap r); [destruct p|]; rewrite IH by done; done.
Qed.

Lemma to_block_start_before pre l :
  closed_before pre →
  to_block_start false (pre ++ l) = to_block_start false pre ++ to_block_start false l.
Proof.
  unfold closed_before. destruct (last pre) as [z|] eqn:Hlast.
  - apply last_Some in Hlast as [p ->]. intros Hz.
    rewrite <- app_assoc. simpl. by apply to_block_start_gap.
  - apply last_None in Hlast as ->. done.
Qed.

Lemma run_sum_block val b post :
  Forall (λ r, has_cap r = true) b → next_has post = false →
  run_sum val (b ++ post) = column_sum val b.
Proof.
  intros Hb Hpost. induction Hb as [|r b Hr _ IH]; simpl.
  - by apply run_sum_no_cap.
  - by rewrite Hr, IH.
Qed.

Lemma rest_block_tail_column b post :
  Forall (λ r, has_cap r = true) b → next_has post = false →
  rest_energy_kWh <$> to_block_start true (b ++ post)
  = replicate (length b) 0%Qc ++ (rest_energy_kWh <$> to_block_start false post).
Proof.
  intros Hb Hpost. induction Hb as [|r b Hr _ IH]; simpl.
  - by rewrite to_block_start_no_cap.
  - by rewrite Hr, fmap_cons, IH.
Qed.

Lemma rest_block_column x b post :
  Forall (λ r, has_cap r = true) (x :: b) → next_has post = false →
  rest_energy_kWh <$> to_block_start false (x :: b ++ post)
  = written (column_sum rest_energy_kWh (x :: b))
      :: replicate (length b) 0%Qc ++ (rest_energy_kWh <$> to_block_start false post).
Proof.
  intros [Hx Hb]%Forall_cons Hpost. cbn [to_block_start]. rewrite Hx, fmap_cons.
  rewrite rest_block_tail_column by done.
  change (x :: b ++ post) with ((x :: b) ++ post).
  rewrite run_sum_block by (done || by constructor). done.
Qed.

Lemma to_block_end_length l : ∀ acc, length (to_block_end acc l) = length l.
Proof.
  intros acc. rewrite <- (length_fmap timestamp (to_block_end acc l)).
  fold (index (to_block_end acc l)). rewrite index_to_block_end. apply length_fmap.
Qed.

Lemma to_block_start_length l : ∀ p, length (to_block_start p l) = length l.
Proof.
  intros p. rewrite <- (length_fmap timestamp (to_block_start p l)).
  fold (index (to_block_start p l)). rewrite index_to_block_start. apply length_fmap.
Qed.

(** Rows without capacity hold no demand and no rest energy. *)
Lemma to_block_end_outside l : ∀ acc,
  Forall (λ r, has_cap r = false → energy_demand_kWh r = 0%Qc) (to_block_end acc l).
Proof.
  induction l as [|r t IH]; intros acc; [constructor|]. cbn [to_block_end].
  destruct (has_cap r) eqn:Hr; [destruct (next_has t)|]; constructor; auto;
    rewrite set_demand_has_cap; congruence.
Qed.

Lemma to_block_start_outside l : ∀ p,
  Forall (λ r, has_cap r = false → rest_energy_kWh r = 0%Qc) (to_block_start p l).
Proof.
  induction l as [|r t IH]; intros p; [constructor|]. cbn [to_block_start].
  destruct (has_cap r) eqn:Hr; [destruct p|]; constructor; auto;
    rewrite set_rest_has_cap; congruence.
Qed.

Lemma rest_to_block_end l : ∀ acc,
  rest_energy_kWh <$> to_block_end acc l = rest_energy_kWh <$> l.
Proof.
  induction l as [|r t IH]; intros acc; [done|]. cbn [to_block_end].
  destruct (has_cap r); [destruct (next_has t)|]; rewrite !fmap_cons, IH; done.
Qed.

Lemma capacity_to_block_end l : ∀ acc,
  available_capacity_kWh <$> to_block_end acc l = available_capacity_kWh <$> l.
Proof.
  induction l as [|r t IH]; intros acc; [done|]. cbn [to_block_end].
  destruct (has_cap r); [destruct (next_has t)|]; rewrite !fmap_cons, IH; done.
Qed.

Lemma capacity_to_block_start l : ∀ p,
  available_capacity_kWh <$> to_block_start p l = available_capacity_kWh <$> l.
Proof.
  induction l as [|r t IH]; intros p; [done|]. cbn [to_block_start].
  destruct (has_cap r); [destruct p|]; rewrite !fmap_cons, IH; done.
Qed.

Lemma column_sum_nonneg val l :
  Forall (λ r, (0 ≤ val r)%Qc) l → (0 ≤ column_sum val l)%Qc.
Proof.
  induction 1 as [|r t Hr _ IH]; [done|].
  rewrite column_sum_cons. by apply Qcplus_nonneg_nonneg.
Qed.

Lemma demand_consolidate df :
  ascending df →
  energy_demand_kWh <$> consolidate df = energy_demand_kWh <$> to_block_end 0%Qc df.
Proof. intros Hasc. by rewrite consolidate_spec, demand_to_block_start. Qed.

Lemma rest_consolidate df :
  ascending df →
  rest_energy_kWh <$> consolidate df = rest_energy_kWh <$> to_block_start false df.
Proof.
  intros Hasc. by rewrite consolidate_spec, <- to_block_end_start_comm, rest_to_block_end.
Qed.

Lemma demand_column_of_run pre blk post :
  maximal_run pre blk post →
  Forall (λ r, (0 ≤ energy_demand_kWh r)%Qc) blk →
  take (length blk) (drop (length pre)
    (energy_demand_kWh <$> to_block_end 0%Qc (pre ++ blk ++ post)))
  = replicate (length blk - 1) 0%Qc ++ [column_sum energy_demand_kWh blk].
Proof.
  intros (Hpre & Hne & Hcap & Hpost) Hnn.
  rewrite to_block_end_before, fmap_app by done.
  rewrite drop_app_length' by by rewrite length_fmap, to_block_end_length.
  destruct (last blk) as [x|] eqn:Hlast; [|by apply last_None in Hlast].
  apply last_Some in Hlast as [b ->].
  rewrite <- app_assoc. simpl. rewrite demand_block_column by done.
  rewrite Qcplus_0_l, written_nonneg by by apply column_sum_nonneg.
  rewrite length_app. simpl. replace (length b + 1 - 1)%nat with (length b) by lia.
  rewrite cons_middle, app_assoc.
  apply take_app_length'. rewrite length_app, length_replicate. simpl. lia.
Qed.

Lemma rest_column_of_run pre blk post :
  maximal_run pre blk post →
  Forall (λ r, (0 ≤ rest_energy_kWh r)%Qc) blk →
  take (length blk) (drop (length pre)
    (rest_energy_kWh <$> to_block_start false (pre ++ blk ++ post)))
  = column_sum rest_energy_kWh blk :: replicate (length blk - 1) 0%Qc.
Proof.
  intros (Hpre & Hne & Hcap & Hpost) Hnn.
  rewrite to_block_start_before, fmap_app by done.
  rewrite drop_app_length' by by rewrite length_fmap, to_block_start_length.
  destruct blk as [|x b]; [done|].
  rewrite <- app_comm_cons, rest_block_column by done.
  rewrite written_nonneg by by apply column_sum_nonneg.
  simpl. rewrite Nat.sub_0_r. f_equal.
  apply take_app_length'. by rewrite length_replicate.
Qed.

(** ** The deviation generator *)

Section generator_facts.
Context `{NumpyRandom}.

Lemma draws_length {A} (one : rng → A * rng) n st : length (draws one n st).1 = n.
Proof.
  revert st. induction n as [|n IH]; intros st; simpl; [done|].
  destruct (one st) as [x st1]. specialize (IH st1).
  destruct (draws one n st1) as [xs st2]. simpl in *. by rewrite IH.
Qed.

Lemma generate_time_deviations_length n config st :
  length (generate_time_deviations n config st).1 = n.
Proof.
  unfold generate_time_deviations.
  set (st0 := match seed config with Some s => np_seed s | None => st end).
  case_bool_decide.
  - pose proof (draws_length
      (np_uniform (- default (Qc_of_Z 15) (max_abweichung_minuten config))
                  (default (Qc_of_Z 15) (max_abweichung_minuten config))) n st0) as Hlen.
    destruct (draws _ n st0) as [ds st1]. simpl in *. by rewrite length_fmap.
  - pose proof (draws_length
      (np_normal 0 (default (Qc_of_Z 10) (stddev_minuten config))) n st0) as Hlen.
    destruct (draws _ n st0) as [ds st1]. simpl in *. by rewrite !length_fmap.
Qed.

(** A seeded call does not look at the state it is given. *)
Lemma generate_time_deviations_seeded n config s st :
  seed config = Some s →
  generate_time_deviations n config st = generate_time_deviations n config (np_seed s).
Proof. intros Hs. unfold generate_time_deviations. by rewrite Hs. Qed.

End generator_facts.

(** *** Clipping and rounding *)

Lemma Qc_of_Z_le a b : a ≤ b → (Qc_of_Z a ≤ Qc_of_Z b)%Qc.
Proof. intros Hab. unfold Qcle. simpl. by rewrite <- Zle_Qle. Qed.

Lemma Qc_of_Z_opp a : (- Qc_of_Z a)%Qc = Qc_of_Z (- a).
Proof. apply Qc_is_canon. simpl. rewrite Qred_correct. by rewrite inject_Z_opp. Qed.

Lemma np_clip_between lo hi x : (lo ≤ hi)%Qc → (lo ≤ np_clip lo hi x ≤ hi)%Qc.
Proof.
  intros Hlh. unfold np_clip.
  destruct (decide (x < lo)%Qc) as [Hx|Hx].
  - rewrite (bool_decide_true (x < lo)%Qc) by done.
    rewrite bool_decide_false by by apply Qcle_not_lt. done.
  - rewrite (bool_decide_false (x < lo)%Qc) by done. apply Qcnot_lt_le in Hx.
    case_bool_decide as Hy; [done|]. by apply Qcnot_lt_le in Hy.
Qed.

(** Rounding cannot leave an interval between two integers. *)
Lemma py_round_between (lo hi : Z) (x : Qc) :
  (Qc_of_Z lo ≤ x ≤ Qc_of_Z hi)%Qc → lo ≤ py_round x ≤ hi.
Proof.
  intros [Hlo Hhi]. unfold py_round.
  assert (Hf1 : lo ≤ Qfloor x).
  { rewrite <- (Qfloor_Z lo). by apply Qfloor_resp_le. }
  assert (Hf2 : Qfloor x ≤ hi).
  { rewrite <- (Qfloor_Z hi). by apply Qfloor_resp_le. }
  destruct (decide (Qfloor x = hi)) as [Heq|Hne].
  - assert (Hx : x = Qc_of_Z (Qfloor x)).
    { apply Qcle_antisym; [by rewrite Heq|]. unfold Qcle. simpl. apply Qfloor_le. }
    assert (Hfrac : (x - Qc_of_Z (Qfloor x))%Qc = 0%Qc) by (rewrite <- Hx; ring).
    rewrite Hfrac, bool_decide_true by done. lia.
  - repeat case_bool_decide; try destruct (Z.even _); lia.
Qed.

Section bounded_deviations.
Context `{NumpyRandom}.

Lemma draws_Forall {A} (P : A → Prop) (one : rng → A * rng) n st :
  (∀ st, P (one st).1) → Forall P (draws one n st).1.
Proof.
  intros Hone. revert st. induction n as [|n IH]; intros st; simpl; [constructor|].
  specialize (Hone st). destruct (one st) as [x st1]. specialize (IH st1).
  destruct (draws one n st1) as [xs st2]. simpl in *. by constructor.
Qed.

(** With a whole number of minutes as bound (the defaults 30 and 15 are of
    this kind), every deviation lies within the bound. *)
Lemma generate_time_deviations_integral_bound n config (k : Z) st :
  uniform_in_range → 0 ≤ k → max_dev_of config = Qc_of_Z k →
  Forall (λ d, - k ≤ d ≤ k) (generate_time_deviations n config st).1.
Proof.
  intros Huni Hk Hmax. unfold generate_time_deviations, max_dev_of in *.
  set (st0 := match seed config with Some s => np_seed s | None => st end).
  assert (Hlh : (- Qc_of_Z k ≤ Qc_of_Z k)%Qc).
  { rewrite Qc_of_Z_opp. apply Qc_of_Z_le. lia. }
  case_bool_decide.
  - rewrite Hmax.
    pose proof (draws_Forall (λ x, (- Qc_of_Z k ≤ x ≤ Qc_of_Z k)%Qc)
                  (np_uniform (- Qc_of_Z k) (Qc_of_Z k)) n st0
                  (λ st1, Huni _ _ st1 Hlh)) as Hall.
    destruct (draws _ n st0) as [ds st1]. simpl in *.
    apply Forall_fmap. eapply Forall_impl; [exact Hall|].
    intros x Hx. simpl. apply py_round_between. by rewrite <- Qc_of_Z_opp.
  - rewrite Hmax.
    destruct (draws _ n st0) as [ds st1]. simpl.
    rewrite <- list_fmap_compose. apply Forall_fmap, Forall_forall. intros x _. simpl.
    apply py_round_between. rewrite <- Qc_of_Z_opp. by apply np_clip_between.
Qed.

End bounded_deviations.

(** With the bound 15.6 every draw at or beyond the bound ends as 16. *)
Lemma clipped_draw_rounds_beyond (d : Qc) :
  (Q2Qc (78 # 5) ≤ d)%Qc → py_round (np_clip (- Q2Qc (78 # 5)) (Q2Qc (78 # 5)) d) = 16.
Proof.
  intros Hd. unfold np_clip.
  rewrite (bool_decide_false (d < - Q2Qc (78 # 5))%Qc).
  - case_bool_decide as Hy; [done|].
    apply Qcnot_lt_le in Hy. by rewrite (Qcle_antisym _ _ Hy Hd).
  - apply Qcle_not_lt. by trans (Q2Qc (78 # 5)).
Qed.



(** Without a seed the second call of a group-day goes on from the state the
    first call left. *)
Lemma unseeded_trip_lists_sequential `{NumpyRandom} (n : nat)
    (config : zeitverzerrung_config) (st : rng) :
  seed config = None →
  (draw_trip_deviations n config st).1.2
  = (generate_sequentially n config (generate_time_deviations n config st).2).1.
Proof.
  intros Hs. unfold draw_trip_deviations, generate_sequentially.
  destruct (generate_time_deviations n config st) as [l st1]. simpl.
  destruct config as [ty sd mx se]. simpl in Hs. subst se. simpl.
  by destruct (generate_time_deviations n _ st1).
Qed.





(** ** Clock times and the return date *)

Lemma minute_of_day_wrapped m :
  0 ≤ m < 1440 → minute_of_day (Time (m / 60) (m mod 60)) = m ∧ valid_time (Time (m / 60) (m mod 60)).
Proof.
  intros Hm. unfold minute_of_day, valid_time. simpl.
  pose proof (Z.div_mod m 60). pose proof (Z.mod_pos_bound m 60).
  assert (0 ≤ m / 60 < 24) by (split; [apply Z.div_pos | apply Z.div_lt_upper_bound]; lia).
  lia.
Qed.

Lemma apply_time_deviation_in_range today base dev :
  MINORDINAL ≤ (today * 1440 + minute_of_day base + dev) / 1440 ≤ MAXORDINAL →
  apply_time_deviation today base dev =
    Some (Time ((minute_of_day base + dev) mod 1440 / 60)
               ((minute_of_day base + dev) mod 1440 mod 60)).
Proof.
  intros Hr. unfold apply_time_deviation. rewrite bool_decide_true by done.
  replace (today * 1440 + minute_of_day base + dev)
    with (minute_of_day base + dev + today * 1440) by lia.
  by rewrite Z.mod_add by lia.
Qed.

Lemma apply_time_deviation_valid today base dev t :
  apply_time_deviation today base dev = Some t → valid_time t.
Proof.
  unfold apply_time_deviation. case_bool_decide; [|done]. intros [= <-].
  apply minute_of_day_wrapped. apply Z.mod_pos_bound. lia.
Qed.

Lemma time_gt_minutes a b :
  valid_time a → valid_time b →
  time_gt a b = bool_decide (minute_of_day b < minute_of_day a).
Proof.
  unfold valid_time, time_gt, minute_of_day. intros Ha Hb.
  repeat case_bool_decide; simpl; try done; lia.
Qed.

Lemma timestamp_date_combine day t : valid_time t → timestamp_date (combine day t) = day.
Proof.
  unfold valid_time, timestamp_date, combine, minute_of_day, NS_PER_DAY. intros Ht.
  rewrite Z.div_add_l by (unfold NS_PER_MINUTE; lia).
  rewrite Z.div_small; [lia|]. unfold NS_PER_MINUTE. lia.
Qed.

Lemma timestamp_minute_combine day t :
  valid_time t → timestamp_minute (combine day t) = minute_of_day t.
Proof.
  unfold valid_time, timestamp_minute, combine, minute_of_day, NS_PER_DAY. intros Ht.
  rewrite Z.add_comm, Z.mod_add by (unfold NS_PER_MINUTE; lia).
  rewrite Z.mod_small by (unfold NS_PER_MINUTE; lia).
  apply Z.div_mul. unfold NS_PER_MINUTE. lia.
Qed.

Lemma tour_times_resolved today day bl br dl dr al ar :
  apply_time_deviation today bl dl = Some al →
  apply_time_deviation today br dr = Some ar →
  MINORDINAL ≤ day < MAXORDINAL →
  tour_times today day bl br dl dr
  = Some (combine day al,
          combine (if bool_decide (minute_of_day al < minute_of_day ar)
                   then day else day + 1) ar).
Proof.
  intros Hl Hr Hd. unfold tour_times. rewrite Hl, Hr. simpl.
  rewrite time_gt_minutes by (eapply apply_time_deviation_valid; eauto).
  case_bool_decide; simpl; [done|].
  unfold date_add_days. by rewrite bool_decide_true by lia.
Qed.

Lemma multiday_times_offset today day bl br offset dl dr al ar :
  apply_time_deviation today bl dl = Some al →
  apply_time_deviation today br dr = Some ar →
  offset ≠ 0 → MINORDINAL ≤ day + offset ≤ MAXORDINAL →
  multiday_times today day bl br offset dl dr
  = Some (combine day al, combine (day + offset) ar).
Proof.
  intros Hl Hr Ho Hd. unfold multiday_times. rewrite Hl, Hr. simpl.
  rewrite bool_decide_true by done.
  unfold date_add_days. by rewrite bool_decide_true by lia.
Qed.

Lemma multiday_times_no_offset today day bl br dl dr :
  multiday_times today day bl br 0 dl dr = tour_times today day bl br dl dr.
Proof. done. Qed.

Lemma tour_times_departure today day bl br dl dr lt rt :
  tour_times today day bl br dl dr = Some (lt, rt) →
  ∃ al, apply_time_deviation today bl dl = Some al ∧ lt = combine day al.
Proof.
  unfold tour_times. destruct (apply_time_deviation today bl dl) as [al|]; [|done].
  destruct (apply_time_deviation today br dr) as [ar|]; [|done]. simpl.
  destruct (if time_gt ar al then Some day else date_add_days day 1); [|done].
  simpl. intros [= <- _]. eauto.
Qed.

Lemma multiday_times_departure today day bl br offset dl dr lt rt :
  multiday_times today day bl br offset dl dr = Some (lt, rt) →
  ∃ al, apply_time_deviation today bl dl = Some al ∧ lt = combine day al.
Proof.
  unfold multiday_times. destruct (apply_time_deviation today bl dl) as [al|]; [|done].
  destruct (apply_time_deviation today br dr) as [ar|]; [|done]. simpl.
  destruct (if bool_decide (offset ≠ 0) then _ else _); [|done].
  simpl. intros [= <- _]. eauto.
Qed.

(** Claim C8.  With the departure and return times a vehicle actually has
    after its deviations, a day trip returns on the day of departure when the
    return time is later than the departure time, and on the next calendar
    day otherwise; a multi-day trip returns [days_later] days after the
    departure day when [days_later] is not zero, and follows the day-trip
    rule when it is zero. *)
Theorem C8_return_date (today day : Z) (base_leave base_ret actual_leave actual_ret : time)
    (leave_deviation return_deviation : Z) :
  apply_time_deviation today base_leave leave_deviation = Some actual_leave →
  apply_time_deviation today base_ret return_deviation = Some actual_ret →
  MINORDINAL ≤ day < MAXORDINAL →
  let return_day :=
    if bool_decide (minute_of_day actual_leave < minute_of_day actual_ret)
    then day else day + 1 in
  tour_times today day base_leave base_ret leave_deviation return_deviation
  = Some (combine day actual_leave, combine return_day actual_ret) ∧
  timestamp_date (combine return_day actual_ret) = return_day ∧
  multiday_times today day base_leave base_ret 0 leave_deviation return_deviation
  = Some (combine day actual_leave, combine return_day actual_ret) ∧
  ∀ days_later, days_later ≠ 0 → MINORDINAL ≤ day + days_later ≤ MAXORDINAL →
    multiday_times today day base_leave base_ret days_later leave_deviation return_deviation
    = Some (combine day actual_leave, combine (day + days_later) actual_ret) ∧
    timestamp_date (combine (day + days_later) actual_ret) = day + days_later.
Proof.
  intros Hl Hr Hd return_day.
  pose proof (apply_time_deviation_valid _ _ _ _ Hr) as Hvalid.
  split_and!.
  - by apply tour_times_resolved.
  - by apply timestamp_date_combine.
  - rewrite multiday_times_no_offset. by apply tour_times_resolved.
  - intros days_later Hne Hrange. split.
    + by apply multiday_times_offset.
    + by apply timestamp_date_combine.
Qed.

(** The day trip of the specification: departure "23:00", return "01:00",
    no deviation.  The return lies on the following calendar day. *)
Lemma C8_return_date_witness :
  apply_time_deviation (date 2026 11 4) (Time 23 0) 0 = Some (Time 23 0) ∧
  apply_time_deviation (date 2026 11 4) (Time 1 0) 0 = Some (Time 1 0) ∧
  MINORDINAL ≤ date 2024 3 4 < MAXORDINAL ∧
  tour_times (date 2026 11 4) (date 2024 3 4) (Time 23 0) (Time 1 0) 0 0
  = Some (combine (date 2024 3 4) (Time 23 0), combine (date 2024 3 4 + 1) (Time 1 0)) ∧
  timestamp_date (combine (date 2024 3 4 + 1) (Time 1 0)) = date 2024 3 4 + 1.
Proof.
  assert (Hl : apply_time_deviation (date 2026 11 4) (Time 23 0) 0 = Some (Time 23 0))
    by reflexivity.
  assert (Hr : apply_time_deviation (date 2026 11 4) (Time 1 0) 0 = Some (Time 1 0))
    by reflexivity.
  assert (Hd : MINORDINAL ≤ date 2024 3 4 < MAXORDINAL) by (by vm_compute).
  pose proof (C8_return_date (date 2026 11 4) (date 2024 3 4) (Time 23 0) (Time 1 0)
                (Time 23 0) (Time 1 0) 0 0 Hl Hr Hd) as (H1 & H2 & _).
  split; [exact Hl|]. split; [exact Hr|]. split; [exact Hd|]. split; [exact H1|exact H2].
Defined.

(** Claim C10, as the code has it.  Whenever today's date plus the offset is
    still a calendar date (years 1 to 9999), [apply_time_deviation] returns
    the time of day equal to base plus offset modulo 24 hours and drops the
    day carry; both variants of the schedule simulator combine that time
    with the unshifted calendar day, so the departure timestamp stays on the
    plan day, at the wrapped time. *)
Theorem C10_deviation_wraps_within_day (today day : Z) (base_leave base_ret : time)
    (leave_deviation return_deviation : Z) :
  MINORDINAL ≤ (today * 1440 + minute_of_day base_leave + leave_deviation) / 1440
    ≤ MAXORDINAL →
  let wrapped := (minute_of_day base_leave + leave_deviation) mod 1440 in
  let actual_leave := Time (wrapped / 60) (wrapped mod 60) in
  apply_time_deviation today base_leave leave_deviation = Some actual_leave ∧
  minute_of_day actual_leave = wrapped ∧
  (∀ lt rt,
     tour_times today day base_leave base_ret leave_deviation return_deviation
     = Some (lt, rt) →
     lt = combine day actual_leave ∧ timestamp_date lt = day ∧ timestamp_minute lt = wrapped) ∧
  (∀ days_later lt rt,
     multiday_times today day base_leave base_ret days_later leave_deviation return_deviation
     = Some (lt, rt) →
     lt = combine day actual_leave ∧ timestamp_date lt = day ∧ timestamp_minute lt = wrapped).
Proof.
  intros Hrange wrapped actual_leave.
  pose proof (apply_time_deviation_in_range today base_leave leave_deviation Hrange) as Happly.
  fold wrapped in Happly. fold actual_leave in Happly.
  assert (Hw : 0 ≤ wrapped < 1440) by (apply Z.mod_pos_bound; lia).
  destruct (minute_of_day_wrapped wrapped Hw) as [Hm Hvalid].
  assert (Hlt : ∀ lt, lt = combine day actual_leave →
            lt = combine day actual_leave ∧ timestamp_date lt = day ∧
            timestamp_minute lt = wrapped).
  { intros lt ->. split_and!; [done| |].
    - by apply timestamp_date_combine.
    - by rewrite timestamp_minute_combine. }
  split_and!; [done|done| |].
  - intros lt rt (al & Hal & ->)%tour_times_departure. apply Hlt. congruence.
  - intros days_later lt rt (al & Hal & ->)%multiday_times_departure. apply Hlt. congruence.
Qed.

(** A base departure at 00:10 moved by -30 minutes leaves at 23:40 of the
    same calendar day. *)
Lemma C10_deviation_wraps_within_day_witness :
  MINORDINAL ≤ (date 2026 11 4 * 1440 + minute_of_day (Time 0 10) + -30) / 1440 ≤ MAXORDINAL ∧
  apply_time_deviation (date 2026 11 4) (Time 0 10) (-30) = Some (Time 23 40) ∧
  ∀ lt rt,
    tour_times (date 2026 11 4) (date 2024 3 4) (Time 0 10) (Time 17 0) (-30) 0 = Some (lt, rt) →
    lt = combine (date 2024 3 4) (Time 23 40) ∧ timestamp_date lt = date 2024 3 4 ∧
    timestamp_minute lt = 1420.
Proof.
  assert (Hr : MINORDINAL ≤ (date 2026 11 4 * 1440 + minute_of_day (Time 0 10) + -30) / 1440
               ≤ MAXORDINAL) by (by vm_compute).
  split; [exact Hr|].
  pose proof (C10_deviation_wraps_within_day (date 2026 11 4) (date 2024 3 4)
                (Time 0 10) (Time 17 0) (-30) 0 Hr) as (H1 & _ & H3 & _).
  split; [exact H1|exact H3].
Defined.

(** The claim C10 as stated fails for offsets that leave the range of
    calendar dates: ten thousand million minutes from any day of the year
    2026 lie beyond the year 9999, and the addition overflows. *)
Lemma C10_counterexample :
  apply_time_deviation (date 2026 11 4) (Time 0 10) 10000000000 = None.
Proof. reflexivity. Qed.

(** ** Invariants of the simulation *)

Lemma foldl_inv {A B} (P : A → Prop) (f : A → B → A) (l : list B) : ∀ a,
  P a → (∀ a b, b ∈ l → P a → P (f a b)) → P (foldl f a l).
Proof.
  induction l as [|x l IH]; intros a Ha Hf; [done|]. simpl.
  apply IH.
  - apply Hf; [by left|done].
  - intros a' b Hb. apply Hf. by right.
Qed.

Lemma foldl_option_inv {A B} (P : A → Prop) (f : A → B → option A) (l : list B) :
  ∀ a a',
  P a → (∀ a b a', b ∈ l → P a → f a b = Some a' → P a') →
  foldl_option f a l = Some a' → P a'.
Proof.
  induction l as [|x l IH]; intros a a' Ha Hf; simpl.
  - by intros [= <-].
  - destruct (f a x) as [a1|] eqn:E; [|done]. simpl.
    apply IH.
    + eapply Hf; [by left|done..].
    + intros a2 b a3 Hb. apply Hf. by right.
Qed.

Section fold_monad.
Context `{NumpyRandom}.

Lemma bind_Some {A B} (m : M A) (k : A → M B) st b st' :
  bind m k st = Some (b, st') ↔ ∃ a st1, m st = Some (a, st1) ∧ k a st1 = Some (b, st').
Proof.
  unfold bind. split.
  - destruct (m st) as [[a st1]|]; [|done]. eauto.
  - intros (a & st1 & -> & Hk). done.
Qed.

Lemma foldM_inv {A B} (P : A → Prop) (f : A → B → M A) (l : list B) :
  ∀ a st a' st',
  P a → (∀ a b st a' st', b ∈ l → P a → f a b st = Some (a', st') → P a') →
  foldM f a l st = Some (a', st') → P a'.
Proof.
  induction l as [|x l IH]; intros a st a' st' Ha Hf; simpl.
  - unfold ret. by intros [= <- _].
  - intros (a1 & st1 & Hx & Hl)%bind_Some.
    eapply IH; [|intros ? b ? ? ? Hb; apply Hf; by right|exact Hl].
    eapply Hf; [by left|done..].
Qed.

End fold_monad.

Section preserved.
Context `{NumpyRandom}.
Context (P : frame → Prop) (A : Qc → Prop) (today year freq_delta : Z).
Context (P_credit : ∀ day v df,
  day ∉ exclusion_days year → A v → P df →
  P (add_capacity_between (combine day time_min)
       (combine day time_min + NS_PER_DAY - freq_delta) v df)).
Context (P_sub : ∀ lo hi v df, A v → P df → P (sub_capacity_between lo hi v df)).
Context (P_demand : ∀ key v df, A v → P df → P (at_add_demand key v df)).
Context (P_rest : ∀ key v df, A v → P df → P (at_add_rest key v df)).

Lemma trip_contribution_preserved df lt rt km cap cons year_start year_end :
  A cap → A (km * cons)%Qc → A (clip_lower0 (cap - km * cons)%Qc) → P df →
  P (trip_contribution df lt rt km cap cons year_start year_end freq_delta).
Proof.
  intros Hcap Hdem Hrest Hdf. unfold trip_contribution.
  destruct (_ || _); [done|].
  repeat match goal with
         | |- context [if ?b then _ else _] => destruct b
         end; auto.
Qed.

Lemma handle_tour_preserved df day t n cap cons zc st df' st' :
  A cap → A (tour_km t * cons)%Qc → A (clip_lower0 (cap - tour_km t * cons)%Qc) → P df →
  handle_tour_sub_with_deviation today df day t n cap cons year zc freq_delta st
  = Some (df', st') →
  P df'.
Proof.
  intros Hcap Hdem Hrest Hdf. unfold handle_tour_sub_with_deviation.
  destruct (draw_trip_deviations n zc st) as [[ld rd] st1].
  destruct (foldl_option _ df (seq 0 n)) as [df1|] eqn:Hfold; [|done].
  simpl. intros [= <- _].
  eapply foldl_option_inv; [exact Hdf| |exact Hfold].
  intros a i a' _ Ha. cbn beta.
  destruct (tour_times _ _ _ _ _ _) as [[lt rt]|]; [|done]. simpl.
  intros [= <-]. by apply trip_contribution_preserved.
Qed.

Lemma handle_multiday_preserved df day t n cap cons zc st df' st' :
  A cap → A (multi_km t * cons)%Qc → A (clip_lower0 (cap - multi_km t * cons)%Qc) → P df →
  handle_multiday_sub_with_deviation today df day t n cap cons year zc freq_delta st
  = Some (df', st') →
  P df'.
Proof.
  intros Hcap Hdem Hrest Hdf. unfold handle_multiday_sub_with_deviation.
  destruct (draw_trip_deviations n zc st) as [[ld rd] st1].
  destruct (foldl_option _ df (seq 0 n)) as [df1|] eqn:Hfold; [|done].
  simpl. intros [= <- _].
  eapply foldl_option_inv; [exact Hdf| |exact Hfold].
  intros a i a' _ Ha. cbn beta.
  destruct (multiday_times _ _ _ _ _ _ _) as [[lt rt]|]; [|done]. simpl.
  intros [= <-]. by apply trip_contribution_preserved.
Qed.

Lemma plan_day_preserved g df day st df' st' :
  group_amounts A g → P df →
  plan_day today year freq_delta g df day st = Some (df', st') → P df'.
Proof.
  intros (Hcap & Hall & Hplan) Hdf. unfold plan_day.
  case_bool_decide; [unfold ret; by intros [= <- _]|].
  destruct (wochenplan g !! _) as [e|] eqn:He; simpl; [|unfold ret; by intros [= <- _]].
  specialize (Hplan _ _ He).
  destruct e as [| |t|t]; simpl in Hplan.
  - unfold ret. by intros [= <- _].
  - unfold ret. intros [= <- _]. by apply P_sub.
  - destruct Hplan. by apply handle_tour_preserved.
  - destruct Hplan. by apply handle_multiday_preserved.
Qed.

Lemma credit_days_preserved cap n df :
  A (cap * Qc_of_Z (Z.of_nat n))%Qc → P df → P (credit_days year freq_delta cap n df).
Proof.
  intros Hv Hdf. unfold credit_days. apply foldl_inv; [done|].
  intros a day _ Ha. case_bool_decide; [|done]. by apply P_credit.
Qed.

Lemma process_group_unclamped_preserved g df st df' st' :
  group_amounts A g → P df →
  process_group_unclamped today year freq_delta df g st = Some (df', st') → P df'.
Proof.
  intros Hg Hdf. unfold process_group_unclamped.
  apply foldM_inv.
  - apply credit_days_preserved; [apply Hg|done].
  - intros a day st1 a' st1' _ Ha. by apply plan_day_preserved.
Qed.

End preserved.

(** *** The index of the table *)

Lemma seq_sorted start len : StronglySorted lt (seq start len).
Proof.
  revert start. induction len as [|len IH]; intros start; simpl; constructor; [done|].
  apply Forall_seq. intros. lia.
Qed.

Lemma date_range_sorted start end_ freq_delta :
  0 < freq_delta → StronglySorted Z.lt (date_range start end_ freq_delta).
Proof.
  intros Hf. unfold date_range, seqZ. rewrite <- list_fmap_compose.
  eapply StronglySorted_fmap; [|apply seq_sorted].
  intros x y Hxy. simpl. nia.
Qed.

Lemma index_empty_table year freq_delta :
  index (empty_table year freq_delta)
  = date_range (combine (date year 1 1) time_min)
      (combine (date (year + 1) 1 1) time_min) freq_delta.
Proof.
  unfold empty_table, index. rewrite <- list_fmap_compose. apply list_fmap_id.
Qed.

Lemma ascending_empty_table year freq_delta :
  0 < freq_delta → ascending (empty_table year freq_delta).
Proof.
  intros Hf. unfold ascending. rewrite index_empty_table. by apply date_range_sorted.
Qed.

Lemma index_add_capacity_between lo hi v df : index (add_capacity_between lo hi v df) = index df.
Proof. apply index_fmap. intros r. by case_bool_decide. Qed.

Lemma index_sub_capacity_between lo hi v df : index (sub_capacity_between lo hi v df) = index df.
Proof. apply index_fmap. intros r. by case_bool_decide. Qed.

Lemma index_at_add_demand key v df : index (at_add_demand key v df) = index df.
Proof. apply index_fmap. intros r. by case_bool_decide. Qed.

Lemma index_at_add_rest key v df : index (at_add_rest key v df) = index df.
Proof. apply index_fmap. intros r. by case_bool_decide. Qed.

Lemma index_clip_capacity df : index (clip_capacity df) = index df.
Proof. by apply index_fmap. Qed.

Lemma group_amounts_True g : group_amounts (λ _, True) g.
Proof. split_and!; [done..|]. intros key e _. by destruct e. Qed.

(** *** Amounts of a validated configuration *)

Lemma clip_lower0_nonneg x : (0 ≤ clip_lower0 x)%Qc.
Proof.
  unfold clip_lower0. case_bool_decide as Hx; [done|]. by apply Qcnot_lt_le.
Qed.

Lemma Qcmult_nonneg x y : (0 ≤ x)%Qc → (0 ≤ y)%Qc → (0 ≤ x * y)%Qc.
Proof.
  intros Hx Hy. rewrite <- (Qcmult_0_l y). by apply Qcmult_le_compat_r.
Qed.

Lemma Qc_of_Z_nonneg n : 0 ≤ n → (0 ≤ Qc_of_Z n)%Qc.
Proof. intros Hn. unfold Qcle. simpl. unfold Qle. simpl. lia. Qed.

Lemma validate_vehicle_amounts g :
  validate_vehicle g = true → group_amounts (λ v, (0 ≤ v)%Qc) g.
Proof.
  unfold validate_vehicle. rewrite !andb_true_iff, !bool_decide_eq_true.
  intros ((((Hn & Hcap) & Hcons) & _) & Hplan).
  apply Qclt_le_weak in Hcap, Hcons.
  split_and!; [done|apply Qcmult_nonneg; [done|apply Qc_of_Z_nonneg; lia]|].
  intros key e He. unfold validate_weekly_plan in Hplan.
  rewrite forallb_forall in Hplan.
  apply elem_of_map_to_list, list_elem_of_In, Hplan in He.
  simpl in He. apply andb_true_iff in He as [_ He].
  destruct e as [| |t|t]; simpl in *; [done..| |].
  - unfold validate_tour_entry in He.
    rewrite !andb_true_iff, bool_decide_eq_true in He. destruct He as [[Hkm _] _].
    split; [by apply Qcmult_nonneg|apply clip_lower0_nonneg].
  - unfold validate_multiday_entry in He.
    rewrite !andb_true_iff, bool_decide_eq_true in He. destruct He as [[[Hkm _] _] _].
    split; [by apply Qcmult_nonneg|apply clip_lower0_nonneg].
Qed.

Lemma validate_cluster_config_vehicle cfg g :
  validate_cluster_config cfg = true → g ∈ fahrzeuge cfg → validate_vehicle g = true.
Proof.
  unfold validate_cluster_config. rewrite andb_true_iff, forallb_forall.
  intros [_ Hall] Hg. by apply Hall, list_elem_of_In.
Qed.

(** *** Row-wise invariants *)

Lemma Forall_rowwise (φ : row → Prop) (f : row → row) (df : frame) :
  (∀ r, φ r → φ (f r)) → Forall φ df → Forall φ (f <$> df).
Proof. intros Hf Hdf. apply Forall_fmap. eapply Forall_impl; [exact Hdf|]. done. Qed.

(** The rows a full-day update of [day] reaches carry the date [day]. *)
Lemma day_rows_date day ts freq_delta :
  0 < freq_delta →
  combine day time_min ≤ ts ≤ combine day time_min + NS_PER_DAY - freq_delta →
  timestamp_date ts = day.
Proof.
  unfold combine, timestamp_date, time_min, minute_of_day. simpl. intros Hf Hts.
  assert (Hq : day - EPOCH = ts / NS_PER_DAY).
  { apply Z.div_unique with (ts - (day - EPOCH) * NS_PER_DAY); [|lia].
    left. unfold NS_PER_DAY, NS_PER_MINUTE in *. lia. }
  lia.
Qed.

Lemma clip_lower0_nonpos x : (x ≤ 0)%Qc → clip_lower0 x = 0%Qc.
Proof.
  intros Hx. unfold clip_lower0. case_bool_decide as H; [done|].
  apply Qcnot_lt_le in H. by apply Qcle_antisym.
Qed.

Lemma Qcminus_nonpos x v : (x ≤ 0)%Qc → (0 ≤ v)%Qc → (x - v ≤ 0)%Qc.
Proof.
  intros Hx Hv. apply Qcle_minus_iff. apply Qcle_minus_iff in Hx.
  replace (0 + - (x - v))%Qc with ((0 + - x) + v)%Qc by ring.
  by apply Qcplus_nonneg_nonneg.
Qed.

Section simulation_facts.
Context `{NumpyRandom}.
Context (today year freq_delta : Z).

Lemma process_group_unfold df g :
  process_group today year freq_delta df g
  = bind (process_group_unclamped today year freq_delta df g) (λ df, ret (clip_capacity df)).
Proof. done. Qed.

Lemma process_group_inv df g st df' st' :
  process_group today year freq_delta df g st = Some (df', st') →
  ∃ df1, process_group_unclamped today year freq_delta df g st = Some (df1, st')
         ∧ df' = clip_capacity df1.
Proof.
  rewrite process_group_unfold. intros (df1 & st1 & H1 & H2)%bind_Some.
  unfold ret in H2. injection H2 as <- <-. eauto.
Qed.

Lemma process_group_index df g st df' st' :
  process_group today year freq_delta df g st = Some (df', st') → index df' = index df.
Proof.
  intros (df1 & Hun & ->)%process_group_inv. rewrite index_clip_capacity.
  revert Hun.
  apply (process_group_unclamped_preserved (λ d, index d = index df) (λ _, True));
    [intros; by rewrite ?index_add_capacity_between, ?index_sub_capacity_between,
                        ?index_at_add_demand, ?index_at_add_rest..
    |apply group_amounts_True|done].
Qed.

Lemma process_group_nonneg_metrics df g st df' st' :
  validate_vehicle g = true → nonneg_metrics df →
  process_group today year freq_delta df g st = Some (df', st') → nonneg_metrics df'.
Proof.
  intros Hg Hdf (df1 & Hun & ->)%process_group_inv.
  apply Forall_rowwise; [done|]. revert Hun.
  apply (process_group_unclamped_preserved nonneg_metrics (λ v, (0 ≤ v)%Qc));
    [..|by apply validate_vehicle_amounts|done].
  - intros day v d _ Hv Hd. apply Forall_rowwise; [|done]. intros r Hr. by case_bool_decide.
  - intros lo hi v d Hv Hd. apply Forall_rowwise; [|done]. intros r Hr. by case_bool_decide.
  - intros key v d Hv Hd. apply Forall_rowwise; [|done]. intros r [Hr1 Hr2].
    case_bool_decide; [|done]. split; [|done]. by apply Qcplus_nonneg_nonneg.
  - intros key v d Hv Hd. apply Forall_rowwise; [|done]. intros r [Hr1 Hr2].
    case_bool_decide; [|done]. split; [done|]. by apply Qcplus_nonneg_nonneg.
Qed.

Lemma process_group_boundary df g st df' st' :
  0 < freq_delta → validate_vehicle g = true → boundary_zero year df →
  process_group today year freq_delta df g st = Some (df', st') →
  boundary_zero year df' ∧ capacity_nonneg df'.
Proof.
  intros Hf Hg Hdf (df1 & Hun & ->)%process_group_inv.
  assert (H1 : boundary_nonpos year df1).
  { revert Hun.
    apply (process_group_unclamped_preserved (boundary_nonpos year) (λ v, (0 ≤ v)%Qc));
      [..|by apply validate_vehicle_amounts|].
    - intros day v d Hday Hv Hd. apply Forall_rowwise; [|done]. intros r Hr.
      case_bool_decide as Hrow; [|done]. intros Hb. exfalso. apply Hday.
      unfold boundary_row in Hb. simpl in Hb.
      by rewrite (day_rows_date day (timestamp r) freq_delta) in Hb.
    - intros lo hi v d Hv Hd. apply Forall_rowwise; [|done]. intros r Hr.
      case_bool_decide; [|done]. intros Hb. simpl. apply Qcminus_nonpos; [|done].
      by apply Hr.
    - intros key v d Hv Hd. apply Forall_rowwise; [|done]. intros r Hr.
      by case_bool_decide.
    - intros key v d Hv Hd. apply Forall_rowwise; [|done]. intros r Hr.
      by case_bool_decide.
    - eapply Forall_impl; [exact Hdf|]. intros r Hr Hb. by rewrite Hr. }
  split.
  - apply Forall_fmap. eapply Forall_impl; [exact H1|]. intros r Hr Hb. simpl.
    apply clip_lower0_nonpos. by apply Hr.
  - apply Forall_fmap, Forall_forall. intros r _. simpl. apply clip_lower0_nonneg.
Qed.

(** The table the simulation hands to the block consolidator. *)
Lemma simulate_cluster_invariants cfg st df st' :
  0 < freq_delta → validate_cluster_config cfg = true →
  simulate_cluster today cfg year freq_delta st = Some (df, st') →
  index df = index (empty_table year freq_delta) ∧ nonneg_metrics df ∧
  boundary_zero year df ∧ capacity_nonneg df.
Proof.
  intros Hf Hcfg. unfold simulate_cluster.
  apply (foldM_inv (λ d, index d = index (empty_table year freq_delta) ∧ nonneg_metrics d ∧
                         boundary_zero year d ∧ capacity_nonneg d)).
  - split_and!; [done|..]; apply Forall_fmap, Forall_forall; intros ts _; simpl; done.
  - intros d g st1 d' st1' Hg (Hi & Hn & Hb & Hc) Hstep.
    pose proof (validate_cluster_config_vehicle _ _ Hcfg Hg) as Hv.
    destruct (process_group_boundary _ _ _ _ _ Hf Hv Hb Hstep).
    split_and!; [|by eapply process_group_nonneg_metrics|done..].
    by rewrite (process_group_index _ _ _ _ _ Hstep).
Qed.

Lemma simulate_cluster_ascending cfg st df st' :
  0 < freq_delta → validate_cluster_config cfg = true →
  simulate_cluster today cfg year freq_delta st = Some (df, st') → ascending df.
Proof.
  intros Hf Hcfg Hsim.
  destruct (simulate_cluster_invariants _ _ _ _ Hf Hcfg Hsim) as (Hi & _).
  unfold ascending. rewrite Hi. by apply ascending_empty_table.
Qed.

Lemma build_cluster_timeseries_inv cfg st df st' :
  build_cluster_timeseries today cfg year freq_delta st = Some (df, st') →
  ∃ raw, simulate_cluster today cfg year freq_delta st = Some (raw, st')
         ∧ df = consolidate raw.
Proof.
  unfold build_cluster_timeseries. intros (raw & st1 & H1 & H2)%bind_Some.
  unfold ret in H2. injection H2 as <- <-. eauto.
Qed.

End simulation_facts.

(** ** The boundary days *)

Lemma stamp_capacity_to_block_end l : ∀ acc,
  (λ r, (timestamp r, available_capacity_kWh r)) <$> to_block_end acc l
  = (λ r, (timestamp r, available_capacity_kWh r)) <$> l.
Proof.
  induction l as [|r t IH]; intros acc; [done|]. cbn [to_block_end].
  destruct (has_cap r); [destruct (next_has t)|]; rewrite !fmap_cons, IH; done.
Qed.

Lemma stamp_capacity_to_block_start l : ∀ p,
  (λ r, (timestamp r, available_capacity_kWh r)) <$> to_block_start p l
  = (λ r, (timestamp r, available_capacity_kWh r)) <$> l.
Proof.
  induction l as [|r t IH]; intros p; [done|]. cbn [to_block_start].
  destruct (has_cap r); [destruct p|]; rewrite !fmap_cons, IH; done.
Qed.

Lemma stamp_capacity_consolidate df :
  ascending df →
  (λ r, (timestamp r, available_capacity_kWh r)) <$> consolidate df
  = (λ r, (timestamp r, available_capacity_kWh r)) <$> df.
Proof.
  intros Hasc.
  by rewrite consolidate_spec, stamp_capacity_to_block_start, stamp_capacity_to_block_end.
Qed.




(** ** The pass of a group adds a contribution that does not depend on the table *)

Lemma index_table_add df delta : index delta = index df → index (table_add df delta) = index df.
Proof.
  revert delta. induction df as [|r df IH]; intros [|d delta]; try done.
  rewrite !index_cons. intros [= Hd Hi]. unfold table_add in *. cbn [zip_with].
  by rewrite index_cons, IH.
Qed.

Lemma table_add_zero df : table_add df (zero_table df) = df.
Proof.
  induction df as [|r df IH]; [done|]. unfold table_add, zero_table in *.
  rewrite fmap_cons. cbn [zip_with]. rewrite IH. f_equal.
  destruct r as [ts c d e]. unfold row_add. simpl.
  by rewrite !Qcplus_0_r.
Qed.

Lemma index_zero_table df : index (zero_table df) = index df.
Proof. by apply index_fmap. Qed.

(** A row-wise update that looks at the timestamp only, and adds to the
    columns, can be made before or after the sum with another table. *)
Lemma rowwise_table_add (g : row → row) df delta :
  (∀ r d, timestamp d = timestamp r → g (row_add r d) = row_add r (g d)) →
  index delta = index df →
  g <$> table_add df delta = table_add df (g <$> delta).
Proof.
  intros Hg. revert delta. induction df as [|r df IH]; intros [|d delta]; try done.
  rewrite !index_cons. intros [= Hd Hi]. unfold table_add in *. cbn [zip_with].
  by rewrite fmap_cons, Hg, IH.
Qed.

Lemma add_capacity_between_table_add lo hi v df delta :
  index delta = index df →
  add_capacity_between lo hi v (table_add df delta)
  = table_add df (add_capacity_between lo hi v delta).
Proof.
  apply rowwise_table_add. intros r d Hd. simpl. rewrite Hd.
  case_bool_decide; [|done]. unfold row_add, set_capacity. simpl.
  by rewrite Qcplus_assoc.
Qed.

Lemma sub_capacity_between_table_add lo hi v df delta :
  index delta = index df →
  sub_capacity_between lo hi v (table_add df delta)
  = table_add df (sub_capacity_between lo hi v delta).
Proof.
  apply rowwise_table_add. intros r d Hd. simpl. rewrite Hd.
  case_bool_decide; [|done]. unfold row_add, set_capacity. simpl.
  f_equal. ring.
Qed.

Lemma at_add_demand_table_add key v df delta :
  index delta = index df →
  at_add_demand key v (table_add df delta) = table_add df (at_add_demand key v delta).
Proof.
  apply rowwise_table_add. intros r d Hd. simpl. rewrite Hd.
  case_bool_decide; [|done]. unfold row_add, set_demand. simpl.
  by rewrite Qcplus_assoc.
Qed.

Lemma at_add_rest_table_add key v df delta :
  index delta = index df →
  at_add_rest key v (table_add df delta) = table_add df (at_add_rest key v delta).
Proof.
  apply rowwise_table_add. intros r d Hd. simpl. rewrite Hd.
  case_bool_decide; [|done]. unfold row_add, set_rest. simpl.
  by rewrite Qcplus_assoc.
Qed.

Lemma index_trip_contribution df lt rt km cap cons year_start year_end freq_delta :
  index (trip_contribution df lt rt km cap cons year_start year_end freq_delta) = index df.
Proof.
  unfold trip_contribution. destruct (_ || _); [done|].
  repeat match goal with
         | |- context [if ?b then _ else _] => destruct b
         end;
    by rewrite ?index_at_add_rest, ?index_at_add_demand, ?index_sub_capacity_between.
Qed.

Lemma trip_contribution_table_add df delta lt rt km cap cons year_start year_end freq_delta :
  index delta = index df →
  trip_contribution (table_add df delta) lt rt km cap cons year_start year_end freq_delta
  = table_add df (trip_contribution delta lt rt km cap cons year_start year_end freq_delta).
Proof.
  intros Hi. unfold trip_contribution. destruct (_ || _); [done|].
  destruct (bool_decide (lt ≤ rt - freq_delta)).
  - rewrite sub_capacity_between_table_add by done.
    set (d1 := sub_capacity_between lt (rt - freq_delta) cap delta).
    assert (Hi1 : index d1 = index df) by by (unfold d1; rewrite index_sub_capacity_between).
    rewrite (index_table_add df d1), Hi1 by done.
    destruct (_ && bool_decide (_ ∈ index df)).
    + rewrite at_add_demand_table_add by done.
      set (d2 := at_add_demand _ _ d1).
      assert (Hi2 : index d2 = index df) by by (unfold d2; rewrite index_at_add_demand).
      rewrite (index_table_add df d2), Hi2 by done.
      destruct (_ && bool_decide (_ ∈ index df)); [|done].
      by rewrite at_add_rest_table_add.
    + rewrite (index_table_add df d1), Hi1 by done.
      destruct (_ && bool_decide (_ ∈ index df)); [|done].
      by rewrite at_add_rest_table_add.
  - rewrite (index_table_add df delta), Hi by done.
    destruct (_ && bool_decide (_ ∈ index df)).
    + rewrite at_add_demand_table_add by done.
      set (d2 := at_add_demand _ _ delta).
      assert (Hi2 : index d2 = index df) by by (unfold d2; rewrite index_at_add_demand).
      rewrite (index_table_add df d2), Hi2 by done.
      destruct (_ && bool_decide (_ ∈ index df)); [|done].
      by rewrite at_add_rest_table_add.
    + rewrite (index_table_add df delta), Hi by done.
      destruct (_ && bool_decide (_ ∈ index df)); [|done].
      by rewrite at_add_rest_table_add.
Qed.

Lemma foldl_table_add {B} (f : frame → B → frame) df (l : list B) :
  (∀ d b, index d = index df → f (table_add df d) b = table_add df (f d b)) →
  (∀ d b, index (f d b) = index d) →
  ∀ delta, index delta = index df →
  foldl f (table_add df delta) l = table_add df (foldl f delta l).
Proof.
  intros Hf Hi. induction l as [|b l IH]; intros delta Hd; [done|]. simpl.
  rewrite Hf by done. apply IH. by rewrite Hi.
Qed.

Lemma foldl_option_table_add {B} (f : frame → B → option frame) df (l : list B) :
  (∀ d b, index d = index df → f (table_add df d) b = table_add df <$> f d b) →
  (∀ d b d', f d b = Some d' → index d' = index d) →
  ∀ delta, index delta = index df →
  foldl_option f (table_add df delta) l = table_add df <$> foldl_option f delta l.
Proof.
  intros Hf Hi. induction l as [|b l IH]; intros delta Hd; [done|]. simpl.
  rewrite Hf by done. destruct (f delta b) as [d1|] eqn:E; [|done]. simpl.
  apply IH. by rewrite (Hi _ _ _ E).
Qed.

Section additive.
Context `{NumpyRandom}.
Context (today year freq_delta : Z).

Lemma foldM_table_add {B} (f : frame → B → M frame) df (l : list B) :
  (∀ d b st, index d = index df →
     f (table_add df d) b st = prod_map (table_add df) id <$> f d b st) →
  (∀ d b st d' st', f d b st = Some (d', st') → index d' = index d) →
  ∀ delta st, index delta = index df →
  foldM f (table_add df delta) l st = prod_map (table_add df) id <$> foldM f delta l st.
Proof.
  intros Hf Hi. induction l as [|b l IH]; intros delta st Hd; [done|].
  simpl. unfold bind. rewrite Hf by done.
  destruct (f delta b st) as [[d1 st1]|] eqn:E; [|done]. simpl.
  apply IH. by rewrite (Hi _ _ _ _ _ E).
Qed.

Lemma handle_tour_table_add df delta day t n cap cons zc st :
  index delta = index df →
  handle_tour_sub_with_deviation today (table_add df delta) day t n cap cons year zc
    freq_delta st
  = prod_map (table_add df) id
      <$> handle_tour_sub_with_deviation today delta day t n cap cons year zc freq_delta st.
Proof.
  intros Hd. unfold handle_tour_sub_with_deviation.
  destruct (draw_trip_deviations n zc st) as [[ld rd] st1].
  rewrite foldl_option_table_add; [by destruct (foldl_option _ delta _)| | |done].
  - intros d i Hi. cbn beta. destruct (tour_times _ _ _ _ _ _) as [[lt rt]|]; [|done].
    simpl. by rewrite trip_contribution_table_add.
  - intros d i d'. cbn beta. destruct (tour_times _ _ _ _ _ _) as [[lt rt]|]; [|done].
    simpl. intros [= <-]. apply index_trip_contribution.
Qed.

Lemma handle_multiday_table_add df delta day t n cap cons zc st :
  index delta = index df →
  handle_multiday_sub_with_deviation today (table_add df delta) day t n cap cons year zc
    freq_delta st
  = prod_map (table_add df) id
      <$> handle_multiday_sub_with_deviation today delta day t n cap cons year zc
            freq_delta st.
Proof.
  intros Hd. unfold handle_multiday_sub_with_deviation.
  destruct (draw_trip_deviations n zc st) as [[ld rd] st1].
  rewrite foldl_option_table_add; [by destruct (foldl_option _ delta _)| | |done].
  - intros d i Hi. cbn beta. destruct (multiday_times _ _ _ _ _ _ _) as [[lt rt]|]; [|done].
    simpl. by rewrite trip_contribution_table_add.
  - intros d i d'. cbn beta. destruct (multiday_times _ _ _ _ _ _ _) as [[lt rt]|]; [|done].
    simpl. intros [= <-]. apply index_trip_contribution.
Qed.

Lemma plan_day_table_add g df delta day st :
  index delta = index df →
  plan_day today year freq_delta g (table_add df delta) day st
  = prod_map (table_add df) id <$> plan_day today year freq_delta g delta day st.
Proof.
  intros Hd. unfold plan_day. case_bool_decide; [done|].
  destruct (default Steht _) as [| |t|t].
  - done.
  - unfold ret. simpl. by rewrite sub_capacity_between_table_add.
  - by apply handle_tour_table_add.
  - by apply handle_multiday_table_add.
Qed.

Lemma plan_day_index g d day st d' st' :
  plan_day today year freq_delta g d day st = Some (d', st') → index d' = index d.
Proof.
  apply (plan_day_preserved (λ x, index x = index d) (λ _, True));
    [intros; by rewrite ?index_sub_capacity_between, ?index_at_add_demand,
                        ?index_at_add_rest..
    |apply group_amounts_True|done].
Qed.

Lemma credit_days_index cap n d : index (credit_days year freq_delta cap n d) = index d.
Proof.
  unfold credit_days. apply (foldl_inv (λ x, index x = index d)); [done|].
  intros a day _ Ha. case_bool_decide; [|done]. by rewrite index_add_capacity_between.
Qed.

Lemma credit_days_table_add cap n df delta :
  index delta = index df →
  credit_days year freq_delta cap n (table_add df delta)
  = table_add df (credit_days year freq_delta cap n delta).
Proof.
  intros Hd. unfold credit_days. apply foldl_table_add; [| |done].
  - intros d day Hi. case_bool_decide; [|done]. by apply add_capacity_between_table_add.
  - intros d day. case_bool_decide; [|done]. apply index_add_capacity_between.
Qed.

Lemma process_group_unclamped_table_add g df delta st :
  index delta = index df →
  process_group_unclamped today year freq_delta (table_add df delta) g st
  = prod_map (table_add df) id <$> process_group_unclamped today year freq_delta delta g st.
Proof.
  intros Hd. unfold process_group_unclamped.
  rewrite credit_days_table_add by done.
  apply foldM_table_add.
  - intros d day st1 Hi. by apply plan_day_table_add.
  - intros d day st1 d' st1'. apply plan_day_index.
  - by rewrite credit_days_index.
Qed.

(** The pass of a group over a table is the sum of the table and of the
    group's own contribution. *)
Lemma process_group_unclamped_additive g df st :
  process_group_unclamped today year freq_delta df g st
  = prod_map (table_add df) id <$> group_contribution today year freq_delta df g st.
Proof.
  unfold group_contribution.
  rewrite <- process_group_unclamped_table_add by apply index_zero_table.
  by rewrite table_add_zero.
Qed.

Lemma process_group_additive g df st :
  process_group today year freq_delta df g st
  = prod_map (λ delta, clip_capacity (table_add df delta)) id
      <$> group_contribution today year freq_delta df g st.
Proof.
  rewrite process_group_unfold. unfold bind.
  rewrite process_group_unclamped_additive.
  by destruct (group_contribution _ _ _ _ _ _) as [[d st1]|].
Qed.

Lemma build_single_group g st :
  build_cluster_timeseries today {| fahrzeuge := [g] |} year freq_delta st
  = build_clamped_once today {| fahrzeuge := [g] |} year freq_delta st.
Proof.
  unfold build_cluster_timeseries, build_clamped_once, simulate_cluster. simpl.
  rewrite process_group_unfold. unfold bind, ret.
  by destruct (process_group_unclamped _ _ _ _ _ _) as [[d st1]|].
Qed.

End additive.

(** ** The claims on the clamping and on the block consolidator *)

(** Claim C3, as the code has it.  The clipping is the last step of the
    pass of every vehicle group: a pass adds the group's own additions and
    subtractions, which do not depend on the table, to the running table and
    floors every row at 0, whereas the unclamped pass of the specification
    only adds them.  For a cluster of a single group the two builders
    agree. *)
Theorem C3_clamp_after_each_group `{NumpyRandom} (today year freq_delta : Z) :
  (∀ df g st,
     process_group today year freq_delta df g st
     = prod_map (λ delta, clip_capacity (table_add df delta)) id
         <$> group_contribution today year freq_delta df g st) ∧
  (∀ df g st,
     process_group_unclamped today year freq_delta df g st
     = prod_map (table_add df) id <$> group_contribution today year freq_delta df g st) ∧
  (∀ g st,
     build_cluster_timeseries today {| fahrzeuge := [g] |} year freq_delta st
     = build_clamped_once today {| fahrzeuge := [g] |} year freq_delta st).
Proof.
  split_and!.
  - intros. apply process_group_additive.
  - intros. apply process_group_unclamped_additive.
  - intros. apply build_single_group.
Qed.

(** The claim C3 as stated fails with two groups: on Tuesday 2024-01-09 at
    00:00 the first group is at -50 kWh before its clipping, so [build] ends
    with the 30 kWh of the second group, where a single clipping at the end
    gives 0. *)
Lemma C3_counterexample :
  ∃ df st' once st'',
    build_cluster_timeseries (H := lcg_random) sample_today two_group_cluster 2024 half_day 0
    = Some (df, st') ∧
    build_clamped_once (H := lcg_random) sample_today two_group_cluster 2024 half_day 0
    = Some (once, st'') ∧
    timestamp <$> df !! 16%nat = Some (combine (date 2024 1 9) time_min) ∧
    available_capacity_kWh <$> df !! 16%nat = Some (Qc_of_Z 30) ∧
    available_capacity_kWh <$> once !! 16%nat = Some 0%Qc.
Proof.
  assert (H1 : (λ o : option (frame * Z),
                  match o with
                  | Some (df, _) =>
                      bool_decide (timestamp <$> df !! 16%nat
                                   = Some (combine (date 2024 1 9) time_min) ∧
                                   available_capacity_kWh <$> df !! 16%nat
                                   = Some (Qc_of_Z 30))
                  | None => false
                  end)
               (build_cluster_timeseries (H := lcg_random) sample_today two_group_cluster
                  2024 half_day 0) = true) by (vm_compute; reflexivity).
  assert (H2 : (λ o : option (frame * Z),
                  match o with
                  | Some (df, _) =>
                      bool_decide (available_capacity_kWh <$> df !! 16%nat = Some 0%Qc)
                  | None => false
                  end)
               (build_clamped_once (H := lcg_random) sample_today two_group_cluster
                  2024 half_day 0) = true) by (vm_compute; reflexivity).
  destruct (build_cluster_timeseries _ _ _ _ _) as [[df st1]|]; [|discriminate H1].
  destruct (build_clamped_once _ _ _ _ _) as [[once st2]|]; [|discriminate H2].
  apply bool_decide_eq_true in H1 as [Hts Hcap]. apply bool_decide_eq_true in H2.
  by exists df, st1, once, st2.
Qed.

Lemma sum_outside_blocks_cons val r t :
  sum_outside_blocks val (r :: t) =
    ((if has_cap r then 0 else val r) + sum_outside_blocks val t)%Qc.
Proof.
  unfold sum_outside_blocks. rewrite filter_cons.
  case_decide as H; rewrite H || (apply not_false_is_true in H; rewrite H).
  - done.
  - by rewrite Qcplus_0_l.
Qed.

(** A column splits into its part inside the blocks and its part outside. *)
Lemma column_sum_split val df :
  column_sum val df = (sum_in_blocks val df + sum_outside_blocks val df)%Qc.
Proof.
  induction df as [|r t IH].
  - unfold column_sum, sum_in_blocks, sum_outside_blocks. simpl. ring.
  - rewrite column_sum_cons, sum_in_blocks_cons, sum_outside_blocks_cons, IH.
    destruct (has_cap r); ring.
Qed.

(** What the consolidation conserves.  For the table [build] returns for a
    validated configuration, the sum of each metric column after the block
    consolidation is the sum of the raw samples that the simulation recorded
    on rows with capacity: nothing is created and values move inside their
    block, but the raw samples on rows outside of every block are missing
    from the result. *)
Lemma build_conservation_inside_blocks `{NumpyRandom} (today : Z) (cfg : cluster)
    (year freq_delta : Z) (st : rng) (df : frame) (st' : rng) :
  0 < freq_delta →
  validate_cluster_config cfg = true →
  build_cluster_timeseries today cfg year freq_delta st = Some (df, st') →
  ∃ raw,
    simulate_cluster today cfg year freq_delta st = Some (raw, st') ∧
    df = consolidate raw ∧
    column_sum energy_demand_kWh df = sum_in_blocks energy_demand_kWh raw ∧
    column_sum rest_energy_kWh df = sum_in_blocks rest_energy_kWh raw ∧
    column_sum energy_demand_kWh raw
    = (column_sum energy_demand_kWh df + sum_outside_blocks energy_demand_kWh raw)%Qc ∧
    column_sum rest_energy_kWh raw
    = (column_sum rest_energy_kWh df + sum_outside_blocks rest_energy_kWh raw)%Qc.
Proof.
  intros Hf Hcfg (raw & Hsim & ->)%build_cluster_timeseries_inv.
  pose proof (simulate_cluster_ascending _ _ _ _ _ _ _ Hf Hcfg Hsim) as Hasc.
  destruct (simulate_cluster_invariants _ _ _ _ _ _ _ Hf Hcfg Hsim) as (_ & Hnn & _).
  destruct (consolidate_conservation raw Hasc Hnn) as [Hd Hr].
  exists raw. split_and!; [done..| |].
  - by rewrite Hd, column_sum_split.
  - by rewrite Hr, column_sum_split.
Qed.

(** Claim C1 at the failing input.  One vehicle, unavailable on Mondays and
    leaving on Tuesdays at 00:30, in the year 2024 at a resolution of twelve
    hours: every Tuesday trip records its demand of 20 kWh on Monday 12:00,
    a row without capacity.  The simulation records 1020 kWh of demand, and
    the consolidated table holds none of it: the samples are not folded
    into a block. *)
Theorem C1_demand_dropped_outside_blocks :
  ∃ raw st',
    simulate_cluster (H := lcg_random) sample_today early_cluster 2024 half_day 0
    = Some (raw, st') ∧
    build_cluster_timeseries (H := lcg_random) sample_today early_cluster 2024 half_day 0
    = Some (consolidate raw, st') ∧
    column_sum energy_demand_kWh raw = Qc_of_Z 1020 ∧
    column_sum energy_demand_kWh (consolidate raw) = 0%Qc.
Proof.
  assert (H1 : (λ o : option (frame * Z),
                  match o with
                  | Some (raw, _) =>
                      bool_decide (column_sum energy_demand_kWh raw = Qc_of_Z 1020 ∧
                                   column_sum energy_demand_kWh (consolidate raw) = 0%Qc)
                  | None => false
                  end)
               (simulate_cluster (H := lcg_random) sample_today early_cluster 2024
                  half_day 0) = true) by (vm_compute; reflexivity).
  unfold build_cluster_timeseries, bind.
  destruct (simulate_cluster _ _ _ _ _) as [[raw st1]|]; [|discriminate H1].
  apply bool_decide_eq_true in H1 as [Hraw Hout].
  by exists raw, st1.
Qed.

(** Claim C4.  In a table with an ascending index and non-negative raw
    values, for every maximal run [blk] of rows with capacity, the
    consolidated demand column holds 0 on all rows of the run but the last,
    which holds the sum of the raw demand of the run, and the consolidated
    rest-energy column holds the sum of the raw rest energy of the run on its
    first row and 0 on the others; rows without capacity hold 0 in both
    columns, and the index and the capacity column are as before. *)
Theorem C4_block_placement (pre blk post : frame) :
  ascending (pre ++ blk ++ post) →
  nonneg_metrics (pre ++ blk ++ post) →
  maximal_run pre blk post →
  let out := consolidate (pre ++ blk ++ post) in
  let run := take (length blk) (drop (length pre) out) in
  energy_demand_kWh <$> run
  = replicate (length blk - 1) 0%Qc ++ [column_sum energy_demand_kWh blk] ∧
  rest_energy_kWh <$> run
  = column_sum rest_energy_kWh blk :: replicate (length blk - 1) 0%Qc ∧
  Forall (λ r, has_cap r = false →
               energy_demand_kWh r = 0%Qc ∧ rest_energy_kWh r = 0%Qc) out ∧
  (λ r, (timestamp r, available_capacity_kWh r)) <$> out
  = (λ r, (timestamp r, available_capacity_kWh r)) <$> (pre ++ blk ++ post).
Proof.
  intros Hasc Hnn Hrun out run.
  assert (Hblk : Forall (λ r, (0 ≤ energy_demand_kWh r)%Qc ∧ (0 ≤ rest_energy_kWh r)%Qc) blk).
  { unfold nonneg_metrics in Hnn. rewrite !Forall_app in Hnn. tauto. }
  split_and!.
  - unfold run, out. rewrite fmap_take, fmap_drop, demand_consolidate by done.
    apply demand_column_of_run; [done|].
    eapply Forall_impl; [exact Hblk|]. by intros r [? _].
  - unfold run, out. rewrite fmap_take, fmap_drop, rest_consolidate by done.
    apply rest_column_of_run; [done|].
    eapply Forall_impl; [exact Hblk|]. by intros r [_ ?].
  - unfold out. apply Forall_forall. intros r Hr Hno. split.
    + rewrite consolidate_spec, <- to_block_end_start_comm in Hr by done.
      pose proof (to_block_end_outside (to_block_start false (pre ++ blk ++ post)) 0%Qc) as Hall.
      rewrite Forall_forall in Hall. by apply Hall.
    + rewrite consolidate_spec in Hr by done.
      pose proof (to_block_start_outside (to_block_end 0%Qc (pre ++ blk ++ post)) false) as Hall.
      rewrite Forall_forall in Hall. by apply Hall.
  - by apply stamp_capacity_consolidate.
Qed.

Lemma C4_block_placement_witness :
  ascending (sample_gap ++ sample_block ++ sample_rest) ∧
  nonneg_metrics (sample_gap ++ sample_block ++ sample_rest) ∧
  maximal_run sample_gap sample_block sample_rest ∧
  energy_demand_kWh <$> take 3 (drop 1 (consolidate sample_table))
  = [0%Qc; 0%Qc; column_sum energy_demand_kWh sample_block] ∧
  rest_energy_kWh <$> take 3 (drop 1 (consolidate sample_table))
  = [column_sum rest_energy_kWh sample_block; 0%Qc; 0%Qc].
Proof.
  assert (Hasc : ascending (sample_gap ++ sample_block ++ sample_rest)).
  { unfold ascending. apply (bool_decide_unpack _). vm_compute. exact I. }
  assert (Hnn : nonneg_metrics (sample_gap ++ sample_block ++ sample_rest)).
  { unfold nonneg_metrics. simpl. repeat constructor; by vm_compute. }
  assert (Hrun : maximal_run sample_gap sample_block sample_rest).
  { unfold maximal_run, closed_before. simpl. split_and!; [done..| |done].
    repeat constructor. }
  split; [exact Hasc|]. split; [exact Hnn|]. split; [exact Hrun|].
  destruct (C4_block_placement sample_gap sample_block sample_rest Hasc Hnn Hrun)
    as (Hd & Hr & _).
  split; [exact Hd|exact Hr].
Defined.

(** Claim C5.  On a table with an ascending index, running the block
    consolidator a second time changes nothing; this holds for the two
    passes together and for each pass alone. *)
Theorem C5_consolidation_idempotent (df : frame) :
  ascending df →
  consolidate (consolidate df) = consolidate df ∧
  set_energy_demand_at_block_end (set_energy_demand_at_block_end df)
  = set_energy_demand_at_block_end df ∧
  set_rest_energy_at_block_start (set_rest_energy_at_block_start df)
  = set_rest_energy_at_block_start df.
Proof.
  intros Hasc. split_and!.
  - rewrite (consolidate_spec (consolidate df)) by by apply ascending_consolidate.
    rewrite consolidate_spec by done.
    rewrite to_block_end_start_comm, to_block_end_idem.
    by rewrite to_block_start_idem.
  - rewrite (set_energy_demand_at_block_end_spec df) by done.
    rewrite set_energy_demand_at_block_end_spec by by apply ascending_to_block_end.
    apply to_block_end_idem.
  - rewrite (set_rest_energy_at_block_start_spec df) by done.
    rewrite set_rest_energy_at_block_start_spec by by apply ascending_to_block_start.
    apply to_block_start_idem.
Qed.

Lemma C5_consolidation_idempotent_witness :
  ascending sample_table ∧ consolidate (consolidate sample_table) = consolidate sample_table.
Proof.
  assert (Hasc : ascending sample_table).
  { unfold ascending. apply (bool_decide_unpack _). vm_compute. exact I. }
  split; [exact Hasc|].
  exact (proj1 (C5_consolidation_idempotent sample_table Hasc)).
Defined.

(** * Further properties of the code *)

(** ** The calendar *)

Lemma date_year_ord2year n : date_year n = ord2year n.
Proof.
  unfold date_year, ord2ymd, ord2year. cbv zeta.
  destruct (bool_decide _ || bool_decide _); [done|].
  by destruct (bool_decide (_ < _)).
Qed.

Lemma year_decomp y :
  ∃ a b c e, y - 1 = 400 * a + 100 * b + 4 * c + e ∧
    0 ≤ b ≤ 3 ∧ 0 ≤ c ≤ 24 ∧ 0 ≤ e ≤ 3 ∧
    days_before_year y = 146097 * a + 36524 * b + 1461 * c + 365 * e.
Proof.
  unfold days_before_year. cbv zeta. set (w := y - 1).
  set (a := w / 400). set (r := w mod 400).
  set (b := r / 100). set (s := r mod 100).
  set (c := s / 4). set (e := s mod 4).
  assert (Hw : w = 400 * a + r ∧ 0 ≤ r < 400) by (unfold a, r; Z.div_mod_to_equations; lia).
  assert (Hr : r = 100 * b + s ∧ 0 ≤ s < 100) by (unfold b, s; Z.div_mod_to_equations; lia).
  assert (Hs : s = 4 * c + e ∧ 0 ≤ e < 4) by (unfold c, e; Z.div_mod_to_equations; lia).
  exists a, b, c, e.
  assert (H4 : w / 4 = 100 * a + 25 * b + c).
  { symmetry. apply (Z.div_unique w 4 _ e); lia. }
  assert (H100 : w / 100 = 4 * a + b).
  { symmetry. apply (Z.div_unique w 100 _ s); lia. }
  rewrite H4, H100. fold a. lia.
Qed.

Lemma is_leap_decomp y a b c e :
  y - 1 = 400 * a + 100 * b + 4 * c + e →
  0 ≤ b ≤ 3 → 0 ≤ c ≤ 24 → 0 ≤ e ≤ 3 →
  is_leap y = bool_decide (e = 3) && (negb (bool_decide (c = 24)) || bool_decide (b = 3)).
Proof.
  intros Hy Hb Hc He. unfold is_leap.
  assert (H4 : y mod 4 = (e + 1) mod 4).
  { replace y with (e + 1 + (100 * a + 25 * b + c) * 4) by lia. apply Z.mod_add. lia. }
  assert (H100 : y mod 100 = (4 * c + e + 1) mod 100).
  { replace y with (4 * c + e + 1 + (4 * a + b) * 100) by lia. apply Z.mod_add. lia. }
  assert (H400 : y mod 400 = (100 * b + 4 * c + e + 1) mod 400).
  { replace y with (100 * b + 4 * c + e + 1 + a * 400) by lia. apply Z.mod_add. lia. }
  rewrite H4, H100, H400.
  repeat case_bool_decide; simpl; try done; Z.div_mod_to_equations; lia.
Qed.

Lemma ord2year_spec y k :
  0 ≤ k < days_in_year y → ord2year (days_before_year y + 1 + k) = y.
Proof.
  intros Hk.
  destruct (year_decomp y) as (a & b & c & e & Hy & Hb & Hc & He & Hdays).
  pose proof (is_leap_decomp y a b c e Hy Hb Hc He) as Hleap.
  unfold days_in_year in Hk. rewrite Hleap in Hk.
  assert (Hk' : 0 ≤ k < 365 ∨ (k = 365 ∧ e = 3 ∧ (c ≠ 24 ∨ b = 3))).
  { repeat case_bool_decide; simpl in Hk; lia. }
  clear Hk Hleap.
  unfold ord2year, DI400Y, DI100Y, DI4Y. cbv zeta.
  rewrite Hdays.
  replace (146097 * a + 36524 * b + 1461 * c + 365 * e + 1 + k - 1)
    with (36524 * b + 1461 * c + 365 * e + k + a * 146097) by lia.
  assert (Hlt : 0 ≤ 36524 * b + 1461 * c + 365 * e + k < 146097) by lia.
  rewrite Z.div_add, Z.mod_add by lia.
  rewrite (Z.div_small _ 146097), (Z.mod_small _ 146097) by lia.
  set (n := 36524 * b + 1461 * c + 365 * e + k) in *.
  destruct (decide (n = 146096)) as [Hlast|Hlast].
  - (* the last day of a 400-year cycle *)
    rewrite Hlast. unfold n in Hlast.
    assert (b = 3 ∧ c = 24 ∧ e = 3 ∧ k = 365) as (-> & -> & -> & ->) by lia.
    change (146096 / 36524) with 4. change (146096 mod 36524) with 0.
    change (0 mod 1461) with 0. change (0 / 1461) with 0. change (0 / 365) with 0.
    rewrite (bool_decide_true (4 = 4)) by done. rewrite orb_true_r. lia.
  - assert (Hb' : n / 36524 = b ∧ n mod 36524 = 1461 * c + 365 * e + k).
    { split; [symmetry; apply (Z.div_unique n 36524 b (1461 * c + 365 * e + k))
             |symmetry; apply (Z.mod_unique n 36524 b (1461 * c + 365 * e + k))];
        unfold n in *; lia. }
    destruct Hb' as [-> ->].
    rewrite (bool_decide_false (b = 4)) by lia. rewrite orb_false_r.
    set (m := 1461 * c + 365 * e + k) in *.
    assert (Hc' : m / 1461 = c ∧ m mod 1461 = 365 * e + k).
    { split; [symmetry; apply (Z.div_unique m 1461 c (365 * e + k))
             |symmetry; apply (Z.mod_unique m 1461 c (365 * e + k))];
        unfold m, n in *; lia. }
    destruct Hc' as [-> ->].
    destruct (decide (e = 3 ∧ k = 365)) as [[-> ->]|Hne].
    + change ((365 * 3 + 365) / 365) with 4. simpl. lia.
    + assert (He' : (365 * e + k) / 365 = e).
      { symmetry. apply (Z.div_unique _ 365 e k); lia. }
      rewrite He'. rewrite (bool_decide_false (e = 4)) by lia. lia.
Qed.

Lemma days_before_year_succ y : days_before_year (y + 1) = days_before_year y + days_in_year y.
Proof.
  destruct (year_decomp y) as (a & b & c & e & Hy & Hb & Hc & He & Hdays).
  assert (H4 : y / 4 = 100 * a + 25 * b + c + (if bool_decide (e = 3) then 1 else 0)).
  { symmetry. case_bool_decide.
    - apply (Z.div_unique y 4 _ 0); lia.
    - apply (Z.div_unique y 4 _ (e + 1)); lia. }
  assert (H100 : y / 100 = 4 * a + b + (if bool_decide (e = 3 ∧ c = 24) then 1 else 0)).
  { clear H4. symmetry. case_bool_decide.
    - apply (Z.div_unique y 100 _ 0); lia.
    - apply (Z.div_unique y 100 _ (4 * c + e + 1)); lia. }
  assert (H400 : y / 400 = a + (if bool_decide (e = 3 ∧ c = 24 ∧ b = 3) then 1 else 0)).
  { clear H4 H100. symmetry. case_bool_decide.
    - apply (Z.div_unique y 400 _ 0); lia.
    - apply (Z.div_unique y 400 _ (100 * b + 4 * c + e + 1)); lia. }
  pose proof (is_leap_decomp y a b c e Hy Hb Hc He) as Hleap.
  unfold days_in_year. rewrite Hleap. rewrite Hdays.
  unfold days_before_year. cbv zeta. replace (y + 1 - 1) with y by lia.
  rewrite H4, H100, H400. clear H4 H100 H400 Hleap.
  repeat case_bool_decide; simpl; lia.
Qed.

Lemma date_january_first y : date y 1 1 = days_before_year y + 1.
Proof. unfold date, days_before_month. simpl. lia. Qed.

Lemma date_next_january y : date (y + 1) 1 1 = date y 1 1 + days_in_year y.
Proof. rewrite !date_january_first, days_before_year_succ. lia. Qed.

Lemma date_year_in_year y k :
  0 ≤ k < days_in_year y → date_year (date y 1 1 + k) = y.
Proof.
  intros Hk. rewrite date_year_ord2year, date_january_first. by apply ord2year_spec.
Qed.

Lemma days_in_year_pos y : 365 ≤ days_in_year y ≤ 366.
Proof. unfold days_in_year. destruct (is_leap y); lia. Qed.

Lemma date_year_next_january y : date_year (date y 1 1 + days_in_year y) = y + 1.
Proof.
  rewrite <- date_next_january.
  replace (date (y + 1) 1 1) with (date (y + 1) 1 1 + 0) by lia.
  apply date_year_in_year. pose proof (days_in_year_pos (y + 1)). lia.
Qed.

Lemma days_before_year_mono y : 1 ≤ y → 365 * (y - 1) ≤ days_before_year y ≤ 366 * (y - 1).
Proof.
  intros Hy. unfold days_before_year. cbv zeta. Z.div_mod_to_equations. lia.
Qed.

Lemma MAXORDINAL_spec : date 9999 1 1 + days_in_year 9999 = MAXORDINAL + 1.
Proof. reflexivity. Qed.

Lemma days_before_year_le y z : y ≤ z → days_before_year y ≤ days_before_year z.
Proof.
  intros Hyz. unfold days_before_year. cbv zeta. Z.div_mod_to_equations. lia.
Qed.

(** The loop from the [k]-th day of the year on. *)
Lemma days_of_year_from_spec year (rest : nat) : ∀ (fuel : nat) k,
  1 ≤ year ≤ 9998 → 0 ≤ k → k + Z.of_nat rest = days_in_year year →
  (rest < fuel)%nat →
  days_of_year_from fuel year (date year 1 1 + k)
  = ((λ j, date year 1 1 + j) <$> seqZ k (Z.of_nat rest), StopIteration).
Proof.
  induction rest as [|rest IH]; intros fuel k Hy Hk Hsum Hfuel.
  - destruct fuel as [|fuel]; [lia|]. cbn [days_of_year_from].
    replace k with (days_in_year year) by lia.
    rewrite date_year_next_january. rewrite bool_decide_false by lia. done.
  - destruct fuel as [|fuel]; [lia|]. cbn [days_of_year_from].
    rewrite date_year_in_year by lia. rewrite bool_decide_true by done.
    unfold date_add_days. cbv zeta.
    rewrite bool_decide_true.
    + replace (date year 1 1 + k + 1) with (date year 1 1 + (k + 1)) by lia.
      rewrite IH by lia.
      rewrite (seqZ_cons k) by lia. rewrite fmap_cons.
      replace (Z.succ k) with (k + 1) by lia.
      replace (Z.pred (Z.of_nat (S rest))) with (Z.of_nat rest) by lia. done.
    + rewrite date_january_first. unfold MINORDINAL, MAXORDINAL.
      pose proof (days_before_year_mono year ltac:(lia)).
      pose proof (days_before_year_le (year + 1) 9999 ltac:(lia)) as Hle.
      rewrite days_before_year_succ in Hle.
      change (days_before_year 9999) with 3651694 in Hle. lia.
Qed.

(** Property X1.  For a year from 1 to 9998 the generator [days_of_year]
    yields every day of the year once, in ascending order from January 1 to
    December 31, and then ends normally: the loop of the source produces the
    list [days_of_year] that the simulation uses. *)
Theorem days_of_year_gen_spec (fuel : nat) (year : Z) :
  1 ≤ year ≤ 9998 → (366 < fuel)%nat →
  days_of_year_gen fuel year = (days_of_year year, StopIteration).
Proof.
  intros Hy Hfuel. unfold days_of_year_gen. rewrite bool_decide_true by lia.
  pose proof (days_in_year_pos year) as Hd.
  replace (date year 1 1) with (date year 1 1 + 0) at 1 by lia.
  rewrite (days_of_year_from_spec year (Z.to_nat (days_in_year year))) by lia.
  unfold days_of_year. by rewrite Z2Nat.id by lia.
Qed.

(** In the last year of [datetime.date] the loop yields December 31 and then
    fails in [d += td(days=1)]. *)
Lemma days_of_year_from_last (rest : nat) : ∀ (fuel : nat) k,
  0 ≤ k → k + Z.of_nat rest + 1 = 365 → (rest < fuel)%nat →
  days_of_year_from fuel 9999 (date 9999 1 1 + k)
  = ((λ j, date 9999 1 1 + j) <$> seqZ k (Z.of_nat rest + 1), Raised OverflowError).
Proof.
  induction rest as [|rest IH]; intros fuel k Hk Hsum Hfuel.
  - destruct fuel as [|fuel]; [lia|]. cbn [days_of_year_from].
    rewrite date_year_in_year by (change (days_in_year 9999) with 365; lia).
    rewrite bool_decide_true by done.
    replace k with 364 by lia. done.
  - destruct fuel as [|fuel]; [lia|]. cbn [days_of_year_from].
    rewrite date_year_in_year by (change (days_in_year 9999) with 365; lia).
    rewrite bool_decide_true by done.
    unfold date_add_days. cbv zeta.
    rewrite bool_decide_true.
    + replace (date 9999 1 1 + k + 1) with (date 9999 1 1 + (k + 1)) by lia.
      rewrite IH by lia.
      rewrite (seqZ_cons k) by lia. rewrite fmap_cons.
      replace (Z.succ k) with (k + 1) by lia.
      replace (Z.pred (Z.of_nat (S rest) + 1)) with (Z.of_nat rest + 1) by lia. done.
    + change (date 9999 1 1) with 3651695. unfold MINORDINAL, MAXORDINAL. lia.
Qed.

(** Property X2.  For the year 9999, the last one of [datetime.date], the
    generator [days_of_year] yields all 365 days and then raises
    [OverflowError] instead of ending: the step past December 31 leaves the
    range of [date]. *)
Theorem days_of_year_gen_last_year (fuel : nat) :
  (365 ≤ fuel)%nat →
  days_of_year_gen fuel 9999 = (days_of_year 9999, Raised OverflowError).
Proof.
  intros Hfuel. unfold days_of_year_gen. rewrite bool_decide_true by lia.
  replace (date 9999 1 1) with (date 9999 1 1 + 0) at 1 by lia.
  by rewrite (days_of_year_from_last 364) by lia.
Qed.

(** ** Clock times as text *)

Lemma is_digit_spec c :
  is_digit c = true → 0 ≤ code c - code "0"%char ≤ 9 ∧ c = digit_char (code c - code "0"%char).
Proof.
  destruct c as [[] [] [] [] [] [] [] []]; vm_compute; intros H; try discriminate;
    split; ((split; [discriminate|discriminate]) || reflexivity).
Qed.

Lemma code_digit_char d : 0 ≤ d ≤ 9 → code (digit_char d) = code "0"%char + d.
Proof.
  intros Hd. assert (d ∈ seqZ 0 10) as Hin by (apply elem_of_seqZ; lia).
  vm_compute in Hin. repeat (apply elem_of_cons in Hin as [->|Hin]; [done|]).
  by apply elem_of_nil in Hin.
Qed.

Lemma in_class_digit (hi c : ascii) :
  in_class "0" hi c = true → code hi ≤ code "9"%char →
  ∃ d, 0 ≤ d ≤ code hi - code "0"%char ∧ d ≤ 9 ∧ c = digit_char d
       ∧ code c - code "0"%char = d.
Proof.
  intros Hc Hhi. unfold in_class in Hc. apply bool_decide_eq_true in Hc.
  destruct (is_digit_spec c) as [Hd Heq].
  { unfold is_digit, in_class. apply bool_decide_eq_true. lia. }
  exists (code c - code "0"%char). split_and!; [lia..|done|done].
Qed.

Lemma two_digits_spec d1 d2 :
  0 ≤ d1 ≤ 9 → 0 ≤ d2 ≤ 9 →
  two_digits (10 * d1 + d2) = String (digit_char d1) (String (digit_char d2) EmptyString).
Proof.
  intros H1 H2. unfold two_digits.
  replace ((10 * d1 + d2) / 10) with d1 by (Z.div_mod_to_equations; lia).
  replace ((10 * d1 + d2) mod 10) with d2 by (Z.div_mod_to_equations; lia). done.
Qed.

Lemma spellings_two n : two_digits n ∈ spellings n.
Proof. unfold spellings. by left. Qed.

Lemma spellings_one n : n < 10 → one_digit n ∈ spellings n.
Proof. intros Hn. unfold spellings. rewrite bool_decide_true by done. right. by left. Qed.

Lemma directive_H_spec s h rest :
  (h, rest) ∈ directive_H s →
  0 ≤ h < 24 ∧ ∃ hs, hs ∈ spellings h ∧ s = hs +:+ rest.
Proof.
  unfold directive_H. rewrite !elem_of_app. intros [Hin|[Hin|Hin]].
  - destruct s as [|c1 [|c2 r]]; try by apply elem_of_nil in Hin.
    destruct (bool_decide (c1 = "2"%char)) eqn:H1; simpl in Hin;
      [|by apply elem_of_nil in Hin].
    destruct (in_class "0" "3" c2) eqn:H2; [|by apply elem_of_nil in Hin].
    apply list_elem_of_singleton in Hin. injection Hin as -> ->.
    apply bool_decide_eq_true in H1 as ->.
    apply in_class_digit in H2 as (d & Hd & Hd9 & -> & Hcode); [|done].
    unfold int_of_digits. cbn [foldl]. rewrite Hcode.
    change (code "2" - code "0") with 2. change (code "3" - code "0") with 3 in Hd.
    split; [lia|]. exists (two_digits (10 * 2 + d)). split; [apply spellings_two|].
    rewrite two_digits_spec by lia. done.
  - destruct s as [|c1 [|c2 r]]; try by apply elem_of_nil in Hin.
    destruct (in_class "0" "1" c1) eqn:H1; simpl in Hin; [|by apply elem_of_nil in Hin].
    destruct (is_digit c2) eqn:H2; [|by apply elem_of_nil in Hin].
    apply list_elem_of_singleton in Hin. injection Hin as -> ->.
    apply in_class_digit in H1 as (d1 & Hd1 & _ & -> & Hcode1); [|done].
    apply in_class_digit in H2 as (d2 & Hd2 & _ & -> & Hcode2); [|done].
    unfold int_of_digits. cbn [foldl]. rewrite Hcode1, Hcode2.
    change (code "1" - code "0") with 1 in Hd1. change (code "9" - code "0") with 9 in Hd2.
    split; [lia|]. exists (two_digits (10 * d1 + d2)).
    replace (10 * (10 * 0 + d1) + d2) with (10 * d1 + d2) by lia.
    split; [apply spellings_two|]. rewrite two_digits_spec by lia. done.
  - destruct s as [|c1 r]; try by apply elem_of_nil in Hin.
    destruct (is_digit c1) eqn:H1; [|by apply elem_of_nil in Hin].
    apply list_elem_of_singleton in Hin. injection Hin as -> ->.
    apply in_class_digit in H1 as (d1 & Hd1 & _ & -> & Hcode1); [|done].
    unfold int_of_digits. cbn [foldl]. rewrite Hcode1.
    change (code "9" - code "0") with 9 in Hd1.
    replace (10 * 0 + d1) with d1 by lia.
    split; [lia|]. exists (one_digit d1). split; [apply spellings_one; lia|done].
Qed.

Lemma directive_M_spec s m rest :
  (m, rest) ∈ directive_M s →
  0 ≤ m < 60 ∧ ∃ ms, ms ∈ spellings m ∧ s = ms +:+ rest.
Proof.
  unfold directive_M. rewrite !elem_of_app. intros [Hin|Hin].
  - destruct s as [|c1 [|c2 r]]; try by apply elem_of_nil in Hin.
    destruct (in_class "0" "5" c1) eqn:H1; simpl in Hin; [|by apply elem_of_nil in Hin].
    destruct (is_digit c2) eqn:H2; [|by apply elem_of_nil in Hin].
    apply list_elem_of_singleton in Hin. injection Hin as -> ->.
    apply in_class_digit in H1 as (d1 & Hd1 & _ & -> & Hcode1); [|done].
    apply in_class_digit in H2 as (d2 & Hd2 & _ & -> & Hcode2); [|done].
    unfold int_of_digits. cbn [foldl]. rewrite Hcode1, Hcode2.
    change (code "5" - code "0") with 5 in Hd1. change (code "9" - code "0") with 9 in Hd2.
    split; [lia|]. exists (two_digits (10 * d1 + d2)).
    replace (10 * (10 * 0 + d1) + d2) with (10 * d1 + d2) by lia.
    split; [apply spellings_two|]. rewrite two_digits_spec by lia. done.
  - destruct s as [|c1 r]; try by apply elem_of_nil in Hin.
    destruct (is_digit c1) eqn:H1; [|by apply elem_of_nil in Hin].
    apply list_elem_of_singleton in Hin. injection Hin as -> ->.
    apply in_class_digit in H1 as (d1 & Hd1 & _ & -> & Hcode1); [|done].
    unfold int_of_digits. cbn [foldl]. rewrite Hcode1.
    change (code "9" - code "0") with 9 in Hd1.
    replace (10 * 0 + d1) with d1 by lia.
    split; [lia|]. exists (one_digit d1). split; [apply spellings_one; lia|done].
Qed.

Lemma append_empty_r (s : string) : s +:+ EmptyString = s.
Proof.
  induction s as [|c s IH]; [done|].
  change (String c s +:+ EmptyString) with (String c (s +:+ EmptyString)). by rewrite IH.
Qed.

Lemma hhmm_accepts_only txt t :
  hhmm txt = Some t → valid_time t ∧ txt ∈ time_spellings t.
Proof.
  unfold hhmm. destruct (pattern_HM txt) as [|[[h m] rest] l] eqn:Hpat; [done|].
  case_bool_decide as Hrest; [|done]. intros [= <-]. subst rest.
  assert (Hin : (h, m, EmptyString) ∈ pattern_HM txt) by (rewrite Hpat; by left).
  unfold pattern_HM in Hin. apply list_elem_of_bind in Hin as ([h' r1] & Hin & HH).
  destruct r1 as [|c r2]; [by apply elem_of_nil in Hin|].
  case_bool_decide as Hc; [subst c|by apply elem_of_nil in Hin].
  - apply list_elem_of_bind in Hin as ([m' r3] & Hin & HM).
    apply list_elem_of_singleton in Hin. injection Hin as <- <- <-.
    apply directive_H_spec in HH as (Hh & hs & Hhs & ->).
    apply directive_M_spec in HM as (Hm & ms & Hms & ->).
    split; [done|]. unfold time_spellings. cbn [hour minute].
    apply list_elem_of_bind. exists hs. split; [|done].
    apply list_elem_of_bind. exists ms. split; [|done].
    apply list_elem_of_singleton. by rewrite append_empty_r.
Qed.

Lemma hhmm_spellings_checked :
  forallb (λ h, forallb (λ m,
    forallb (λ s, match hhmm s with
                  | Some t => bool_decide (hour t = h) && bool_decide (minute t = m)
                  | None => false
                  end)
      (time_spellings (Time h m))) (seqZ 0 60)) (seqZ 0 24) = true.
Proof. vm_compute. reflexivity. Qed.

Lemma forallb_elem_of {A} (f : A → bool) (l : list A) x :
  forallb f l = true → x ∈ l → f x = true.
Proof.
  intros Hall Hx. induction Hx as [x l|x y l _ IH]; simpl in Hall;
    apply andb_true_iff in Hall as [H1 H2]; auto.
Qed.

Lemma hhmm_accepts txt t :
  valid_time t → txt ∈ time_spellings t → hhmm txt = Some t.
Proof.
  intros [Hh Hm] Hin. destruct t as [h m]. cbn [hour minute] in *.
  pose proof hhmm_spellings_checked as Hall.
  apply (forallb_elem_of _ _ h) in Hall; [|apply elem_of_seqZ; lia].
  apply (forallb_elem_of _ _ m) in Hall; [|apply elem_of_seqZ; lia].
  apply (forallb_elem_of _ _ txt) in Hall; [|done]. cbv beta in Hall.
  destruct (hhmm txt) as [[h' m']|]; [|done].
  apply andb_true_iff in Hall as [H1 H2].
  apply bool_decide_eq_true in H1, H2. cbn in H1, H2. by subst.
Qed.

(** Property X3.  [hhmm] accepts a text exactly when it is an hour from 0 to
    23 and a minute from 0 to 59 joined by a colon, each written with one or
    two digits (a number below 10 with or without a leading zero), and it
    returns that time; any other text raises [ValueError]. *)
Theorem hhmm_spec (txt : string) (t : time) :
  hhmm txt = Some t ↔ valid_time t ∧ txt ∈ time_spellings t.
Proof.
  split; [apply hhmm_accepts_only|]. intros [Hv Hin]. by apply hhmm_accepts.
Qed.

Lemma hhmm_strftime t : valid_time t → hhmm (strftime_HM t) = Some t.
Proof.
  intros Hv. apply hhmm_accepts; [done|]. unfold time_spellings, strftime_HM.
  apply list_elem_of_bind. exists (two_digits (hour t)). split; [|apply spellings_two].
  apply list_elem_of_bind. exists (two_digits (minute t)). split; [|apply spellings_two].
  by apply list_elem_of_singleton.
Qed.

Lemma timestamp_time_valid ts : valid_time (timestamp_time ts).
Proof.
  unfold valid_time, timestamp_time, timestamp_minute, NS_PER_DAY, NS_PER_MINUTE.
  cbn [hour minute]. Z.div_mod_to_equations. lia.
Qed.

(** Property X4.  The text of the [Zeit] column of the output table is parsed
    back by [hhmm] to the hour and minute of the row's timestamp. *)
Theorem Zeit_parses_back (ts : Z) : hhmm (Zeit ts) = Some (timestamp_time ts).
Proof. apply hhmm_strftime, timestamp_time_valid. Qed.

(** ** The table of the builder and its consolidation *)

(** Property X8.  On a table with an ascending index the two consolidation
    passes commute: moving the demand to the block ends and then the rest
    energy to the block starts gives the same table as the passes in the
    other order. *)
Theorem consolidation_passes_commute (df : frame) :
  ascending df →
  set_rest_energy_at_block_start (set_energy_demand_at_block_end df)
  = set_energy_demand_at_block_end (set_rest_energy_at_block_start df).
Proof.
  intros Hasc.
  rewrite (set_energy_demand_at_block_end_spec df) by done.
  rewrite (set_rest_energy_at_block_start_spec df) by done.
  rewrite set_rest_energy_at_block_start_spec by by apply ascending_to_block_end.
  rewrite set_energy_demand_at_block_end_spec by by apply ascending_to_block_start.
  by rewrite to_block_end_start_comm.
Qed.

(** ** Row-wise facts on the one-pass consolidation *)

Lemma written_ge0 x : (0 ≤ written x)%Qc.
Proof. unfold written. case_bool_decide; [by apply Qclt_le_weak|done]. Qed.

Lemma to_block_end_rows (φ : row → Prop) l : ∀ acc,
  (∀ v r, φ r → φ (set_demand v r)) → Forall φ l → Forall φ (to_block_end acc l).
Proof.
  induction l as [|r t IH]; intros acc Hφ Hl; [constructor|].
  apply Forall_cons in Hl as [Hr Ht]. cbn [to_block_end].
  destruct (has_cap r); [destruct (next_has t)|]; constructor; auto.
Qed.

Lemma to_block_start_rows (φ : row → Prop) l : ∀ p,
  (∀ v r, φ r → φ (set_rest v r)) → Forall φ l → Forall φ (to_block_start p l).
Proof.
  induction l as [|r t IH]; intros p Hφ Hl; [constructor|].
  apply Forall_cons in Hl as [Hr Ht]. cbn [to_block_start].
  destruct (has_cap r); [destruct p|]; constructor; auto.
Qed.

Lemma to_block_end_demand_nonneg l : ∀ acc,
  Forall (λ r, (0 ≤ energy_demand_kWh r)%Qc) (to_block_end acc l).
Proof.
  induction l as [|r t IH]; intros acc; [constructor|]. cbn [to_block_end].
  destruct (has_cap r); [destruct (next_has t)|]; (constructor; [|apply IH]);
    cbn [set_demand energy_demand_kWh]; first [done | apply written_ge0].
Qed.

Lemma to_block_start_rest_nonneg l : ∀ p,
  Forall (λ r, (0 ≤ rest_energy_kWh r)%Qc) (to_block_start p l).
Proof.
  induction l as [|r t IH]; intros p; [constructor|]. cbn [to_block_start].
  destruct (has_cap r); [destruct p|]; (constructor; [|apply IH]);
    cbn [set_rest rest_energy_kWh]; first [done | apply written_ge0].
Qed.

(** Property X10.  In the table the builder returns for a validated
    configuration and a positive resolution the three metric columns are never negative, and a row
    without available capacity has neither energy demand nor rest energy. *)
Theorem build_output_nonnegative `{NumpyRandom} (today : Z) (cfg : cluster)
    (year freq_delta : Z) (st : rng) (df : frame) (st' : rng) :
  0 < freq_delta →
  validate_cluster_config cfg = true →
  build_cluster_timeseries today cfg year freq_delta st = Some (df, st') →
  ∀ r, r ∈ df →
    (0 ≤ available_capacity_kWh r)%Qc ∧
    (0 ≤ energy_demand_kWh r)%Qc ∧
    (0 ≤ rest_energy_kWh r)%Qc ∧
    (available_capacity_kWh r = 0%Qc →
     energy_demand_kWh r = 0%Qc ∧ rest_energy_kWh r = 0%Qc).
Proof.
  intros Hfreq Hval Hbuild.
  apply build_cluster_timeseries_inv in Hbuild as (raw & Hsim & ->).
  pose proof (simulate_cluster_ascending _ _ _ _ _ _ _ Hfreq Hval Hsim) as Hasc.
  apply simulate_cluster_invariants in Hsim as (_ & _ & _ & Hcap); [|done..].
  rewrite consolidate_spec by done.
  set (φ := λ r : row,
    (0 ≤ available_capacity_kWh r)%Qc ∧ (0 ≤ energy_demand_kWh r)%Qc ∧
    (has_cap r = false → energy_demand_kWh r = 0%Qc)).
  assert (Hend : Forall φ (to_block_end 0%Qc raw)).
  { unfold φ. rewrite !Forall_and. split_and!.
    - apply to_block_end_rows; [done|exact Hcap].
    - apply to_block_end_demand_nonneg.
    - apply to_block_end_outside. }
  assert (Hstart : Forall φ (to_block_start false (to_block_end 0%Qc raw))).
  { apply to_block_start_rows; [by intros v [] | done]. }
  pose proof (to_block_start_rest_nonneg (to_block_end 0%Qc raw) false) as Hrest.
  pose proof (to_block_start_outside (to_block_end 0%Qc raw) false) as Hout.
  rewrite Forall_forall in Hstart, Hrest, Hout.
  intros r Hr. destruct (Hstart r Hr) as (H1 & H2 & H3).
  split_and!; [done|done|by apply Hrest|].
  intros H0. assert (has_cap r = false) as Hno.
  { unfold has_cap. rewrite H0. done. }
  split; [by apply H3|by apply Hout].
Qed.

(** ** The shape of the table *)

Lemma year_length year :
  combine (date (year + 1) 1 1) time_min
  = combine (date year 1 1) time_min + days_in_year year * NS_PER_DAY.
Proof. rewrite date_next_january. unfold combine. lia. Qed.

Lemma simulate_cluster_index `{NumpyRandom} today cfg year freq_delta st df st' :
  simulate_cluster today cfg year freq_delta st = Some (df, st') →
  index df = index (empty_table year freq_delta).
Proof.
  unfold simulate_cluster.
  apply (foldM_inv (λ d, index d = index (empty_table year freq_delta))); [done|].
  intros d g st0 d' st0' _ Hd Hg. apply process_group_index in Hg. congruence.
Qed.

Lemma index_consolidate df : ascending df → index (consolidate df) = index df.
Proof.
  intros Hasc. rewrite consolidate_spec by done.
  by rewrite index_to_block_start, index_to_block_end.
Qed.


(** ** The capacity never exceeds the capacity of the fleet *)

Lemma foldl_fmap_rows {B} (g : B → row → row) (l : list B) : ∀ df : frame,
  foldl (λ df b, g b <$> df) df l = (λ r, foldl (λ r b, g b r) r l) <$> df.
Proof.
  induction l as [|b l IH]; intros df; cbn [foldl].
  - by rewrite list_fmap_id.
  - rewrite IH, <- list_fmap_compose. done.
Qed.

Lemma credit_days_rows year freq_delta cap n df :
  credit_days year freq_delta cap n df
  = (λ r, foldl (credit_row year freq_delta (cap * Qc_of_Z (Z.of_nat n))%Qc) r
            (days_of_year year)) <$> df.
Proof.
  unfold credit_days.
  rewrite <- (foldl_fmap_rows (λ day r, credit_row year freq_delta _ r day)).
  apply foldl_pointwise. intros d day. unfold credit_row, add_capacity_between.
  case_bool_decide; [done|]. by rewrite list_fmap_id.
Qed.

Lemma credit_row_bound year freq_delta v days : ∀ r B,
  0 < freq_delta → (0 ≤ v)%Qc → NoDup days → (available_capacity_kWh r ≤ B)%Qc →
  let r' := foldl (credit_row year freq_delta v) r days in
  timestamp r' = timestamp r ∧
  (available_capacity_kWh r' ≤ B + v)%Qc ∧
  (timestamp_date (timestamp r) ∉ days → (available_capacity_kWh r' ≤ B)%Qc).
Proof.
  induction days as [|d days IH]; intros r B Hfreq Hv Hnd Hr; cbn [foldl].
  - split_and!; [done| |done].
    rewrite <- (Qcplus_0_r (available_capacity_kWh r)). by apply Qcplus_le_compat.
  - apply NoDup_cons in Hnd as [Hd Hnd].
    unfold credit_row at 2 4 6.
    destruct (bool_decide (d ∉ exclusion_days year)); [case_bool_decide as Hhit|].
    + apply day_rows_date in Hhit; [|done]. subst d.
      destruct (IH (set_capacity (available_capacity_kWh r + v)%Qc r) (B + v)%Qc)
        as (Hts & _ & Hle); [done|done|done| |].
      { cbn. by apply Qcplus_le_compat. }
      cbn [timestamp set_capacity] in Hts, Hle.
      split_and!; [done|by apply Hle|].
      intros Hnot. exfalso. apply Hnot. by left.
    + destruct (IH r B) as (Hts & Hle & Hle'); [done..|].
      split_and!; [done|done|]. intros Hnot. apply Hle'. intros Hin. apply Hnot. by right.
    + destruct (IH r B) as (Hts & Hle & Hle'); [done..|].
      split_and!; [done|done|]. intros Hnot. apply Hle'. intros Hin. apply Hnot. by right.
Qed.

Lemma days_of_year_NoDup year : NoDup (days_of_year year).
Proof.
  unfold days_of_year. apply NoDup_fmap_2; [|apply NoDup_seqZ].
  intros x y Hxy. lia.
Qed.

Lemma credit_days_at_most year freq_delta cap n B df :
  0 < freq_delta → (0 ≤ cap * Qc_of_Z (Z.of_nat n))%Qc →
  capacity_at_most B df →
  capacity_at_most (B + cap * Qc_of_Z (Z.of_nat n)) (credit_days year freq_delta cap n df).
Proof.
  intros Hfreq Hv Hdf. rewrite credit_days_rows. unfold capacity_at_most.
  apply Forall_fmap. eapply Forall_impl; [exact Hdf|]. intros r Hr. cbn.
  destruct (credit_row_bound year freq_delta _ (days_of_year year) r B
              Hfreq Hv (days_of_year_NoDup year) Hr) as (_ & Hle & _).
  exact Hle.
Qed.

Lemma clip_lower0_le x B : (0 ≤ B)%Qc → (x ≤ B)%Qc → (clip_lower0 x ≤ B)%Qc.
Proof. intros HB Hx. unfold clip_lower0. by case_bool_decide. Qed.

Lemma Qc_le_minus_nonneg x v B : (0 ≤ v)%Qc → (x ≤ B)%Qc → (x - v ≤ B)%Qc.
Proof.
  intros Hv Hx. apply Qcle_trans with (x - 0)%Qc.
  - unfold Qcminus. apply Qcplus_le_compat; [apply Qcle_refl|]. by apply Qcopp_le_compat.
  - by replace (x - 0)%Qc with x by ring.
Qed.

Section capacity_bound.
Context `{NumpyRandom}.
Context (today year freq_delta : Z).

Lemma process_group_at_most g B df st df' st' :
  0 < freq_delta → validate_vehicle g = true → (0 ≤ B)%Qc →
  capacity_at_most B df →
  process_group today year freq_delta df g st = Some (df', st') →
  capacity_at_most (B + akku_kapazitaet_kwh g * Qc_of_Z (Z.of_nat (anzahl g))) df'.
Proof.
  intros Hfreq Hval HB Hdf Hg.
  pose proof (validate_vehicle_amounts g Hval) as Hamounts.
  destruct Hamounts as (Hcap & Hcapn & Hentries).
  apply process_group_inv in Hg as (df1 & Hg & ->).
  unfold process_group_unclamped in Hg.
  set (B' := (B + akku_kapazitaet_kwh g * Qc_of_Z (Z.of_nat (anzahl g)))%Qc).
  assert (HB' : (0 ≤ B')%Qc).
  { unfold B'. rewrite <- (Qcplus_0_r 0). by apply Qcplus_le_compat. }
  assert (H1 : capacity_at_most B' df1).
  { revert Hg. apply (foldM_inv (capacity_at_most B')).
    - by apply credit_days_at_most.
    - intros d day st0 d' st0' _ Hd Hday.
      revert Hday. apply (plan_day_preserved (capacity_at_most B') (λ v, (0 ≤ v)%Qc)).
      + intros lo hi v d0 Hv Hd0. unfold sub_capacity_between, capacity_at_most.
        apply Forall_fmap. eapply Forall_impl; [exact Hd0|]. intros r Hr. cbn.
        case_bool_decide; [|done]. cbn. by apply Qc_le_minus_nonneg.
      + intros key v d0 Hv Hd0. unfold at_add_demand, capacity_at_most.
        apply Forall_fmap. eapply Forall_impl; [exact Hd0|]. intros r Hr. cbn.
        by case_bool_decide.
      + intros key v d0 Hv Hd0. unfold at_add_rest, capacity_at_most.
        apply Forall_fmap. eapply Forall_impl; [exact Hd0|]. intros r Hr. cbn.
        by case_bool_decide.
      + by split_and!.
      + done. }
  unfold clip_capacity, capacity_at_most. apply Forall_fmap.
  eapply Forall_impl; [exact H1|]. intros r Hr. cbn. by apply clip_lower0_le.
Qed.

Lemma foldM_process_group_at_most groups : ∀ B df st df' st',
  0 < freq_delta → Forall (λ g, validate_vehicle g = true) groups → (0 ≤ B)%Qc →
  capacity_at_most B df →
  foldM (process_group today year freq_delta) df groups st = Some (df', st') →
  capacity_at_most
    (B + Qc_sum ((λ g, akku_kapazitaet_kwh g * Qc_of_Z (Z.of_nat (anzahl g)))%Qc <$> groups))
    df'.
Proof.
  induction groups as [|g groups IH]; intros B df st df' st' Hfreq Hval HB Hdf Hrun.
  - cbn in Hrun. injection Hrun as <- <-. cbn. by rewrite Qcplus_0_r.
  - apply Forall_cons in Hval as [Hg Hval]. cbn [foldM] in Hrun.
    apply bind_Some in Hrun as (df1 & st1 & H1 & Hrest).
    pose proof (process_group_at_most g B df st df1 st1 Hfreq Hg HB Hdf H1) as Hdf1.
    pose proof (validate_vehicle_amounts g Hg) as (_ & Hcapn & _).
    apply (IH (B + akku_kapazitaet_kwh g * Qc_of_Z (Z.of_nat (anzahl g)))%Qc)
      in Hrest; [|done|done| |done].
    + rewrite fmap_cons, Qc_sum_cons. by rewrite Qcplus_assoc.
    + rewrite <- (Qcplus_0_r 0). by apply Qcplus_le_compat.
Qed.

End capacity_bound.

(** Property X12.  In the table the builder returns for a validated
    configuration and a positive resolution the available capacity of a row lies between zero and the
    capacity of the whole fleet, the sum over the groups of battery capacity
    times number of vehicles. *)
Theorem capacity_within_fleet `{NumpyRandom} (today : Z) (cfg : cluster)
    (year freq_delta : Z) (st : rng) (df : frame) (st' : rng) :
  0 < freq_delta →
  validate_cluster_config cfg = true →
  build_cluster_timeseries today cfg year freq_delta st = Some (df, st') →
  ∀ r, r ∈ df → (0 ≤ available_capacity_kWh r ≤ fleet_capacity cfg)%Qc.
Proof.
  intros Hfreq Hval Hbuild.
  apply build_cluster_timeseries_inv in Hbuild as (raw & Hsim & ->).
  pose proof (simulate_cluster_ascending _ _ _ _ _ _ _ Hfreq Hval Hsim) as Hasc.
  pose proof (simulate_cluster_invariants _ _ _ _ _ _ _ Hfreq Hval Hsim)
    as (_ & _ & _ & Hnonneg).
  assert (Hmost : capacity_at_most (fleet_capacity cfg) raw).
  { unfold simulate_cluster in Hsim.
    apply (foldM_process_group_at_most today year freq_delta _ 0%Qc) in Hsim.
    - by rewrite Qcplus_0_l in Hsim.
    - done.
    - apply Forall_forall. intros g Hg. by eapply validate_cluster_config_vehicle.
    - done.
    - unfold empty_table, capacity_at_most. apply Forall_fmap, Forall_forall.
      intros ts _. done. }
  rewrite consolidate_spec by done.
  assert (Hall : Forall (λ r, (0 ≤ available_capacity_kWh r ≤ fleet_capacity cfg)%Qc)
                   (to_block_start false (to_block_end 0%Qc raw))).
  { apply to_block_start_rows; [done|]. apply to_block_end_rows; [done|].
    rewrite Forall_and. split; [exact Hnonneg|exact Hmost]. }
  rewrite Forall_forall in Hall. exact Hall.
Qed.

(** ** A trip is recorded once *)

Lemma column_sum_fmap_same (val : row → Qc) (f : row → row) df :
  (∀ r, val (f r) = val r) → column_sum val (f <$> df) = column_sum val df.
Proof.
  intros Hf. unfold column_sum. rewrite <- list_fmap_compose. f_equal.
  apply list_fmap_ext. intros i r _. apply Hf.
Qed.

Lemma sub_capacity_between_metrics val lo hi v df :
  (∀ c r, val (set_capacity c r) = val r) →
  column_sum val (sub_capacity_between lo hi v df) = column_sum val df.
Proof.
  intros Hval. apply column_sum_fmap_same. intros r. by case_bool_decide.
Qed.

Lemma at_add_demand_sum key v df :
  ascending df →
  column_sum energy_demand_kWh (at_add_demand key v df)
  = (column_sum energy_demand_kWh df + (if bool_decide (key ∈ index df) then v else 0))%Qc.
Proof.
  induction df as [|r t IH]; intros Hasc.
  - cbn. rewrite bool_decide_false by apply not_elem_of_nil. ring.
  - apply ascending_cons in Hasc as [Hlt Hasc]. specialize (IH Hasc).
    unfold at_add_demand in *. rewrite fmap_cons, !column_sum_cons, IH, index_cons.
    destruct (decide (timestamp r = key)) as [Heq|Hne].
    + rewrite (bool_decide_true (timestamp r = key)) by done.
      rewrite (bool_decide_true (key ∈ timestamp r :: index t)) by (subst; by left).
      rewrite bool_decide_false.
      * cbn. ring.
      * intros Hin. rewrite Forall_forall in Hlt. apply Hlt in Hin. lia.
    + rewrite (bool_decide_false (timestamp r = key)) by done.
      rewrite (bool_decide_ext (key ∈ timestamp r :: index t) (key ∈ index t)).
      * ring.
      * rewrite elem_of_cons. split; [intros [Heq|Hin]; [by subst|done] | by right].
Qed.

Lemma at_add_rest_sum key v df :
  ascending df →
  column_sum rest_energy_kWh (at_add_rest key v df)
  = (column_sum rest_energy_kWh df + (if bool_decide (key ∈ index df) then v else 0))%Qc.
Proof.
  induction df as [|r t IH]; intros Hasc.
  - cbn. rewrite bool_decide_false by apply not_elem_of_nil. ring.
  - apply ascending_cons in Hasc as [Hlt Hasc]. specialize (IH Hasc).
    unfold at_add_rest in *. rewrite fmap_cons, !column_sum_cons, IH, index_cons.
    destruct (decide (timestamp r = key)) as [Heq|Hne].
    + rewrite (bool_decide_true (timestamp r = key)) by done.
      rewrite (bool_decide_true (key ∈ timestamp r :: index t)) by (subst; by left).
      rewrite bool_decide_false.
      * cbn. ring.
      * intros Hin. rewrite Forall_forall in Hlt. apply Hlt in Hin. lia.
    + rewrite (bool_decide_false (timestamp r = key)) by done.
      rewrite (bool_decide_ext (key ∈ timestamp r :: index t) (key ∈ index t)).
      * ring.
      * rewrite elem_of_cons. split; [intros [Heq|Hin]; [by subst|done] | by right].
Qed.

Lemma ascending_fmap (f : row → row) df :
  (∀ r, timestamp (f r) = timestamp r) → ascending df → ascending (f <$> df).
Proof. intros Hf. unfold ascending. by rewrite index_fmap. Qed.

(** What one trip adds to the sums of the two sample columns. *)
Lemma trip_contribution_sums (df : frame) (lt rt : Z) (km cap cons : Qc)
    (year_start year_end freq_delta : Z) :
  ascending df →
  let df' := trip_contribution df lt rt km cap cons year_start year_end freq_delta in
  let processed := bool_decide (year_start ≤ lt) && bool_decide (rt ≤ year_end) in
  let ts_req := floor_ts lt freq_delta - freq_delta in
  let rt_floor := floor_ts rt freq_delta in
  let demand_recorded :=
    processed && bool_decide (year_start ≤ ts_req) && bool_decide (ts_req ∈ index df) in
  let rest_recorded :=
    processed && bool_decide (rt_floor ≤ year_end) && bool_decide (rt_floor ∈ index df) in
  column_sum energy_demand_kWh df'
  = (column_sum energy_demand_kWh df + (if demand_recorded then km * cons else 0))%Qc ∧
  column_sum rest_energy_kWh df'
  = (column_sum rest_energy_kWh df
     + (if rest_recorded then clip_lower0 (cap - km * cons) else 0))%Qc.
Proof.
  intros Hasc. cbv zeta. unfold trip_contribution.
  destruct (decide (lt < year_start)) as [Hlt|Hlt].
  { rewrite (bool_decide_true (lt < year_start)) by done.
    rewrite (bool_decide_false (year_start ≤ lt)) by lia. cbn [orb andb].
    by rewrite !Qcplus_0_r. }
  rewrite (bool_decide_false (lt < year_start)) by done.
  rewrite (bool_decide_true (year_start ≤ lt)) by lia.
  destruct (decide (year_end < rt)) as [Hrt|Hrt].
  { rewrite (bool_decide_true (year_end < rt)) by done.
    rewrite (bool_decide_false (rt ≤ year_end)) by lia. cbn [orb andb].
    by rewrite !Qcplus_0_r. }
  rewrite (bool_decide_false (year_end < rt)) by done.
  rewrite (bool_decide_true (rt ≤ year_end)) by lia.
  cbn [orb andb].
  set (df1 := if bool_decide (lt ≤ rt - freq_delta)
              then sub_capacity_between lt (rt - freq_delta) cap df else df).
  assert (Hidx1 : index df1 = index df).
  { unfold df1. case_bool_decide; [apply index_sub_capacity_between|done]. }
  assert (Hasc1 : ascending df1) by (unfold ascending; by rewrite Hidx1).
  assert (Hdem1 : column_sum energy_demand_kWh df1 = column_sum energy_demand_kWh df).
  { unfold df1. case_bool_decide; [by apply sub_capacity_between_metrics|done]. }
  assert (Hrest1 : column_sum rest_energy_kWh df1 = column_sum rest_energy_kWh df).
  { unfold df1. case_bool_decide; [by apply sub_capacity_between_metrics|done]. }
  set (ts_req := floor_ts lt freq_delta - freq_delta).
  set (df2 := if bool_decide (year_start ≤ ts_req) && bool_decide (ts_req ∈ index df1)
              then at_add_demand ts_req (km * cons)%Qc df1 else df1).
  assert (Hidx2 : index df2 = index df).
  { unfold df2. destruct (_ && _); [by rewrite index_at_add_demand|done]. }
  assert (Hasc2 : ascending df2) by (unfold ascending; by rewrite Hidx2).
  set (found := bool_decide (year_start ≤ ts_req) && bool_decide (ts_req ∈ index df)).
  assert (Hdem2 : column_sum energy_demand_kWh df2
                  = (column_sum energy_demand_kWh df + (if found then km * cons else 0))%Qc).
  { unfold df2, found. rewrite Hidx1.
    destruct (bool_decide (year_start ≤ ts_req)); cbn [andb]; [|rewrite Hdem1; ring].
    case_bool_decide as Hin; [|rewrite Hdem1; ring].
    rewrite at_add_demand_sum by done. rewrite Hidx1, bool_decide_true by done.
    by rewrite Hdem1. }
  assert (Hrest2 : column_sum rest_energy_kWh df2 = column_sum rest_energy_kWh df).
  { unfold df2. destruct (_ && _); [|done]. rewrite <- Hrest1.
    apply column_sum_fmap_same. intros r. by case_bool_decide. }
  set (rt_floor := floor_ts rt freq_delta).
  rewrite Hidx2. split.
  - destruct (_ && bool_decide (rt_floor ∈ index df)); [|done]. rewrite <- Hdem2.
    apply column_sum_fmap_same. intros r. by case_bool_decide.
  - destruct (bool_decide (rt_floor ≤ year_end)); cbn [andb]; [|rewrite Hrest2; ring].
    case_bool_decide as Hin; [|rewrite Hrest2; ring].
    rewrite at_add_rest_sum by done. rewrite Hidx2, bool_decide_true by done.
    by rewrite Hrest2.
Qed.

(** Property X13.  One trip adds to the column sums at most its two samples.
    A trip that leaves before the start of the year or returns after its end
    adds nothing.  Otherwise the demand grows by distance times consumption
    when the step before the departure is a row of the table, and the rest
    energy grows by the battery capacity minus that demand, not below zero,
    when the step of the return is a row of the table. *)
Theorem trip_recorded_once (df : frame) (lt rt : Z) (km cap cons : Qc)
    (year_start year_end freq_delta : Z) :
  ascending df →
  let df' := trip_contribution df lt rt km cap cons year_start year_end freq_delta in
  let processed := bool_decide (year_start ≤ lt) && bool_decide (rt ≤ year_end) in
  let ts_req := floor_ts lt freq_delta - freq_delta in
  let rt_floor := floor_ts rt freq_delta in
  let demand_recorded :=
    processed && bool_decide (year_start ≤ ts_req) && bool_decide (ts_req ∈ index df) in
  let rest_recorded :=
    processed && bool_decide (rt_floor ≤ year_end) && bool_decide (rt_floor ∈ index df) in
  column_sum energy_demand_kWh df'
  = (column_sum energy_demand_kWh df + (if demand_recorded then km * cons else 0))%Qc ∧
  column_sum rest_energy_kWh df'
  = (column_sum rest_energy_kWh df
     + (if rest_recorded then clip_lower0 (cap - km * cons) else 0))%Qc.
Proof. exact (trip_contribution_sums df lt rt km cap cons year_start year_end freq_delta). Qed.

(** ** Deviations add up *)

(** Property X5.  Deviations compose by addition: a time moved by [a] minutes
    and then by [b] minutes is the time moved by [a + b] minutes, as long as
    the intermediate dates stay in the range of [datetime]. *)
Theorem apply_time_deviation_additive (today : Z) (base t1 : time) (a b : Z) :
  apply_time_deviation today base a = Some t1 →
  MINORDINAL ≤ (today * 1440 + minute_of_day t1 + b) / 1440 ≤ MAXORDINAL →
  MINORDINAL ≤ (today * 1440 + minute_of_day base + (a + b)) / 1440 ≤ MAXORDINAL →
  apply_time_deviation today t1 b = apply_time_deviation today base (a + b).
Proof.
  intros H1 Hb Hab.
  rewrite (apply_time_deviation_in_range today t1 b Hb).
  rewrite (apply_time_deviation_in_range today base (a + b) Hab).
  unfold apply_time_deviation in H1. case_bool_decide; [|done]. injection H1 as <-.
  replace (today * 1440 + minute_of_day base + a)
    with (minute_of_day base + a + today * 1440) by lia.
  rewrite Z.mod_add by lia.
  assert (Hm : 0 ≤ (minute_of_day base + a) mod 1440 < 1440) by (apply Z.mod_pos_bound; lia).
  destruct (minute_of_day_wrapped _ Hm) as [-> _].
  rewrite Zplus_mod_idemp_l. by rewrite Z.add_assoc.
Qed.

(** ** Block starts and block ends pair up *)

Lemma starts_le_ends l : ∀ open,
  ascending l →
  match open with
  | Some s => next_has l = true ∧ Forall (λ x, s ≤ x) (index l)
  | None => True
  end →
  Forall2 Z.le (open_starts open l) (ends_of l).
Proof.
  induction l as [|r t IH]; intros open Hasc Hopen.
  - destruct open as [s|]; [by destruct Hopen|]. constructor.
  - apply ascending_cons in Hasc as [Hlt Hasc].
    cbn [ends_of]. destruct (has_cap r) eqn:Hr.
    + destruct (next_has t) eqn:Hnext; cbn [andb negb].
      * destruct open as [s|]; cbn [open_starts starts_of]; rewrite Hr; cbn [andb negb].
        -- apply (IH (Some s)); [done|]. destruct Hopen as [_ Hs].
           rewrite index_cons in Hs. apply Forall_cons in Hs as [_ Hs]. done.
        -- apply (IH (Some (timestamp r))); [done|]. split; [done|].
           eapply Forall_impl; [exact Hlt|]. intros x Hx. cbn in Hx. lia.
      * destruct open as [s|]; cbn [open_starts starts_of]; rewrite Hr; cbn [andb negb].
        -- rewrite starts_of_no_cap by done. constructor.
           ++ destruct Hopen as [_ Hs]. rewrite index_cons in Hs.
              by apply Forall_cons in Hs as [Hs _].
           ++ by apply (IH None).
        -- rewrite starts_of_no_cap by done. constructor; [lia|]. by apply (IH None).
    + destruct open as [s|].
      { destruct Hopen as [Hn _]. cbn in Hn. congruence. }
      cbn [open_starts starts_of andb]. rewrite Hr. cbn [andb]. by apply (IH None).
Qed.

(** Property X9.  On a table with an ascending index the block detection
    finds as many block starts as block ends, and each start is not later
    than the end it is paired with. *)
Theorem block_starts_pair_with_ends (df : frame) :
  ascending df →
  let block_starts := (block_bounds (index df) (has_capacity df)).1 in
  let block_ends := (block_bounds (index df) (has_capacity df)).2 in
  length block_starts = length block_ends ∧ Forall2 Z.le block_starts block_ends.
Proof.
  intros Hasc. cbv zeta. rewrite block_bounds_spec by done. cbn [fst snd].
  pose proof (starts_le_ends df None Hasc I) as Hle.
  split; [by eapply Forall2_length|done].
Qed.

(** ** The credit of a day on a row *)



(** ** On the table of a year no sample is lost when it is recorded *)

Lemma floor_ts_spec ts f : 0 < f → floor_ts ts f mod f = 0 ∧ floor_ts ts f ≤ ts < floor_ts ts f + f.
Proof.
  intros Hf. unfold floor_ts. pose proof (Z.mod_pos_bound ts f Hf). split; [|lia].
  rewrite Zminus_mod, Z.mod_mod, Z.sub_diag by lia. by apply Z.mod_0_l, Z.neq_sym, Z.lt_neq.
Qed.

Lemma elem_of_date_range x a b f :
  0 < f → a mod f = 0 → x mod f = 0 → a ≤ x < b → x ∈ date_range a b f.
Proof.
  intros Hf Ha Hx Hax. unfold date_range. apply list_elem_of_fmap.
  exists ((x - a) / f).
  assert (Hdiv : (x - a) mod f = 0).
  { rewrite Zminus_mod, Ha, Hx. by apply Z.mod_0_l, Z.neq_sym, Z.lt_neq. }
  pose proof (Z.div_mod (x - a) f ltac:(lia)) as Hdm. rewrite Hdiv in Hdm.
  split; [nia|]. apply elem_of_seqZ. split; [apply Z.div_pos; lia|].
  apply Z.div_lt_upper_bound; [lia|].
  pose proof (Z.div_mod (b - a + f - 1) f ltac:(lia)) as Hdm2.
  pose proof (Z.mod_pos_bound (b - a + f - 1) f Hf). nia.
Qed.

(** Property X14.  When the resolution divides the day, a trip that leaves
    at least one step after the start of the year and returns in the year
    records both samples: the demand sum grows by distance times consumption
    and the rest-energy sum by the battery capacity minus that demand, not
    below zero. *)
Theorem trip_samples_recorded (df : frame) (year freq_delta steps lt rt : Z)
    (km cap cons : Qc) :
  0 < freq_delta →
  NS_PER_DAY = steps * freq_delta →
  index df = index (empty_table year freq_delta) →
  let year_start := combine (date year 1 1) time_min in
  let year_end := combine (date (year + 1) 1 1) time_min - freq_delta in
  year_start + freq_delta ≤ lt → lt ≤ rt → rt ≤ year_end →
  let df' := trip_contribution df lt rt km cap cons year_start year_end freq_delta in
  column_sum energy_demand_kWh df' = (column_sum energy_demand_kWh df + km * cons)%Qc ∧
  column_sum rest_energy_kWh df'
  = (column_sum rest_energy_kWh df + clip_lower0 (cap - km * cons))%Qc.
Proof.
  intros Hfreq Hsteps Hidx ys ye Hlt Hle Hrt.
  assert (Hasc : ascending df).
  { unfold ascending. rewrite Hidx. by apply ascending_empty_table. }
  destruct (trip_contribution_sums df lt rt km cap cons ys ye freq_delta Hasc) as [Hd Hr].
  cbv zeta in Hd, Hr.
  assert (Hys : ys mod freq_delta = 0).
  { unfold ys, combine, time_min, minute_of_day. cbn [hour minute]. rewrite Hsteps.
    replace ((date year 1 1 - EPOCH) * (steps * freq_delta) + (60 * 0 + 0) * NS_PER_MINUTE)
      with ((date year 1 1 - EPOCH) * steps * freq_delta) by lia.
    by apply Z.mod_mul, Z.neq_sym, Z.lt_neq. }
  destruct (floor_ts_spec lt freq_delta Hfreq) as [Hl1 Hl2].
  destruct (floor_ts_spec rt freq_delta Hfreq) as [Hr1 Hr2].
  assert (Hfl : ys + freq_delta ≤ floor_ts lt freq_delta).
  { pose proof (Z.div_mod (floor_ts lt freq_delta) freq_delta ltac:(lia)) as H1.
    pose proof (Z.div_mod ys freq_delta ltac:(lia)) as H2.
    rewrite Hl1 in H1. rewrite Hys in H2.
    assert (ys / freq_delta + 1 ≤ floor_ts lt freq_delta / freq_delta); [|nia].
    apply Z.lt_succ_r, Z.lt_succ_r.
    assert (ys / freq_delta + 1 < floor_ts lt freq_delta / freq_delta + 1); [|lia]. nia. }
  assert (Hfr : ys ≤ floor_ts rt freq_delta).
  { pose proof (Z.div_mod (floor_ts rt freq_delta) freq_delta ltac:(lia)) as H1.
    pose proof (Z.div_mod ys freq_delta ltac:(lia)) as H2.
    rewrite Hr1 in H1. rewrite Hys in H2.
    assert (ys / freq_delta < floor_ts rt freq_delta / freq_delta + 1); [|nia]. nia. }
  assert (Hin1 : floor_ts lt freq_delta - freq_delta ∈ index df).
  { rewrite Hidx, index_empty_table. apply elem_of_date_range; [done|done| |].
    - rewrite Zminus_mod, Hl1, Z.mod_same by lia. done.
    - fold ys. unfold ye in Hrt. lia. }
  assert (Hin2 : floor_ts rt freq_delta ∈ index df).
  { rewrite Hidx, index_empty_table. apply elem_of_date_range; [done|done|done|].
    fold ys. unfold ye in Hrt. lia. }
  cbv zeta. rewrite Hd, Hr.
  rewrite !(bool_decide_true (ys ≤ lt)), !(bool_decide_true (rt ≤ ye)) by lia.
  rewrite (bool_decide_true (ys ≤ _ - _)), (bool_decide_true (_ ≤ ye)) by lia.
  by rewrite !bool_decide_true by done.
Qed.

(** ** A fleet that never drives *)




Section stationary_fleet.
Context `{NumpyRandom}.
Context (today year freq_delta steps : Z).
Context (Hfreq : 0 < freq_delta) (Hsteps : NS_PER_DAY = steps * freq_delta).








End stationary_fleet.


(** ** The text columns of the output *)

Lemma ord2ymd_in_year y k :
  0 ≤ k < days_in_year y →
  ord2ymd (date y 1 1 + k) = (y, (yday2md (is_leap y) k).1, (yday2md (is_leap y) k).2).
Proof.
  intros Hk. rewrite date_january_first.
  destruct (year_decomp y) as (a & b & c & e & Hy & Hb & Hc & He & Hdays).
  pose proof (is_leap_decomp y a b c e Hy Hb Hc He) as Hleap.
  assert (Hk' : 0 ≤ k < 365 ∨ (k = 365 ∧ is_leap y = true ∧ e = 3 ∧ (c ≠ 24 ∨ b = 3))).
  { unfold days_in_year in Hk. rewrite Hleap in Hk |- *.
    repeat case_bool_decide; simpl in Hk |- *; lia. }
  clear Hk.
  unfold ord2ymd, DI400Y, DI100Y, DI4Y. cbv zeta.
  rewrite Hdays.
  replace (146097 * a + 36524 * b + 1461 * c + 365 * e + 1 + k - 1)
    with (36524 * b + 1461 * c + 365 * e + k + a * 146097) by lia.
  assert (Hlt : 0 ≤ 36524 * b + 1461 * c + 365 * e + k < 146097) by lia.
  rewrite Z.div_add, Z.mod_add by lia.
  rewrite (Z.div_small _ 146097), (Z.mod_small _ 146097) by lia.
  set (n := 36524 * b + 1461 * c + 365 * e + k) in *.
  destruct (decide (n = 146096)) as [Hlast|Hlast].
  - rewrite Hlast. unfold n in Hlast.
    assert (b = 3 ∧ c = 24 ∧ e = 3 ∧ k = 365) as (-> & -> & -> & ->) by lia.
    destruct Hk' as [?|(_ & -> & _)]; [lia|].
    change (146096 / 36524) with 4. change (146096 mod 36524) with 0.
    change (0 mod 1461) with 0. change (0 / 1461) with 0. change (0 / 365) with 0.
    rewrite (bool_decide_true (4 = 4)) by done. rewrite orb_true_r.
    change (yday2md true 365) with (12, 31). cbn [fst snd]. f_equal. f_equal. lia.
  - assert (Hb' : n / 36524 = b ∧ n mod 36524 = 1461 * c + 365 * e + k).
    { split; [symmetry; apply (Z.div_unique n 36524 b (1461 * c + 365 * e + k))
             |symmetry; apply (Z.mod_unique n 36524 b (1461 * c + 365 * e + k))];
        unfold n in *; lia. }
    destruct Hb' as [-> ->].
    rewrite (bool_decide_false (b = 4)) by lia. rewrite orb_false_r.
    set (m := 1461 * c + 365 * e + k) in *.
    assert (Hc' : m / 1461 = c ∧ m mod 1461 = 365 * e + k).
    { split; [symmetry; apply (Z.div_unique m 1461 c (365 * e + k))
             |symmetry; apply (Z.mod_unique m 1461 c (365 * e + k))];
        unfold m, n in *; lia. }
    destruct Hc' as [-> ->].
    destruct (decide (e = 3 ∧ k = 365)) as [[-> ->]|Hne].
    + destruct Hk' as [?|(_ & -> & _)]; [lia|].
      change ((365 * 3 + 365) / 365) with 4.
      rewrite (bool_decide_true (4 = 4)) by done.
      change (yday2md true 365) with (12, 31). cbn [fst snd]. f_equal. f_equal. lia.
    + assert (He' : (365 * e + k) / 365 = e ∧ (365 * e + k) mod 365 = k).
      { split; [symmetry; apply (Z.div_unique _ 365 e k)
               |symmetry; apply (Z.mod_unique _ 365 e k)]; lia. }
      destruct He' as [-> ->].
      rewrite (bool_decide_false (e = 4)) by lia.
      rewrite <- Hleap. unfold yday2md. cbv zeta.
      destruct (bool_decide (k < _)); cbn [fst snd]; f_equal; f_equal; lia.
Qed.

Lemma yday2md_checked :
  forallb (yday2md_check true) (seqZ 0 366) && forallb (yday2md_check false) (seqZ 0 365) = true.
Proof. vm_compute. reflexivity. Qed.

Lemma yday2md_spec y k :
  0 ≤ k < days_in_year y →
  let m := (yday2md (is_leap y) k).1 in
  let d := (yday2md (is_leap y) k).2 in
  1 ≤ m ≤ 12 ∧ 1 ≤ d ≤ 31 ∧ date y m d = date y 1 1 + k.
Proof.
  intros Hk. cbv zeta. pose proof yday2md_checked as Hall.
  apply andb_true_iff in Hall as [Hleap Hcommon].
  assert (Hcheck : yday2md_check (is_leap y) k = true).
  { unfold days_in_year in Hk. destruct (is_leap y).
    - rewrite forallb_forall in Hleap. apply Hleap, list_elem_of_In, elem_of_seqZ. lia.
    - rewrite forallb_forall in Hcommon. apply Hcommon, list_elem_of_In, elem_of_seqZ. lia. }
  unfold yday2md_check in Hcheck. destruct (yday2md (is_leap y) k) as [m d].
  apply andb_true_iff in Hcheck as [Hcheck Hsum]. apply andb_true_iff in Hcheck as [Hm Hd].
  apply bool_decide_eq_true in Hm, Hd, Hsum. cbn [fst snd].
  split; [done|]. split; [done|].
  rewrite date_january_first. unfold date, days_before_month. lia.
Qed.

Lemma digit_char_inj a b : 0 ≤ a ≤ 9 → 0 ≤ b ≤ 9 → digit_char a = digit_char b → a = b.
Proof.
  intros Ha Hb Heq. apply (f_equal code) in Heq.
  rewrite !code_digit_char in Heq by done. lia.
Qed.

Lemma two_digits_inj m n : 0 ≤ m < 100 → 0 ≤ n < 100 → two_digits m = two_digits n → m = n.
Proof.
  intros Hm Hn Heq. unfold two_digits in Heq. injection Heq as H1 H2.
  apply digit_char_inj in H1; [|Z.div_mod_to_equations; lia..].
  apply digit_char_inj in H2; [|Z.div_mod_to_equations; lia..].
  Z.div_mod_to_equations. lia.
Qed.

Lemma isoformat_in_year y k :
  0 ≤ k < days_in_year y →
  isoformat (date y 1 1 + k)
  = four_digits y +:+ "-" +:+ two_digits (yday2md (is_leap y) k).1
      +:+ "-" +:+ two_digits (yday2md (is_leap y) k).2.
Proof. intros Hk. unfold isoformat. by rewrite ord2ymd_in_year. Qed.

(** Within a year the text of a date tells the date. *)
Lemma isoformat_inj_in_year y k1 k2 :
  0 ≤ k1 < days_in_year y → 0 ≤ k2 < days_in_year y →
  isoformat (date y 1 1 + k1) = isoformat (date y 1 1 + k2) → k1 = k2.
Proof.
  intros H1 H2. rewrite !isoformat_in_year by done.
  destruct (yday2md_spec y k1 H1) as (Hm1 & Hd1 & Hdate1).
  destruct (yday2md_spec y k2 H2) as (Hm2 & Hd2 & Hdate2).
  destruct (yday2md (is_leap y) k1) as [m1 d1], (yday2md (is_leap y) k2) as [m2 d2].
  cbn [fst snd] in *. unfold four_digits, two_digits.
  cbv beta iota delta [String.append]. intros Heq.
  injection Heq as Hma Hmb Hda Hdb.
  assert (m1 = m2) as ->.
  { apply two_digits_inj; [lia..|]. unfold two_digits. by rewrite Hma, Hmb. }
  assert (d1 = d2) as ->.
  { apply two_digits_inj; [lia..|]. unfold two_digits. by rewrite Hda, Hdb. }
  lia.
Qed.

Lemma strftime_HM_inj t1 t2 :
  valid_time t1 → valid_time t2 → strftime_HM t1 = strftime_HM t2 → t1 = t2.
Proof.
  intros H1 H2 Heq. apply hhmm_strftime in H1, H2. rewrite Heq in H1. congruence.
Qed.

(** A timestamp of the table of a year, by its day of the year. *)
Lemma table_timestamp_day year freq_delta ts :
  0 < freq_delta →
  ts ∈ index (empty_table year freq_delta) →
  ∃ j k, ts = combine (date year 1 1) time_min + j * freq_delta ∧
    0 ≤ k < days_in_year year ∧
    timestamp_date ts = date year 1 1 + k ∧
    ts = combine (date year 1 1 + k) time_min + ts mod NS_PER_DAY.
Proof.
  intros Hf. rewrite index_empty_table. unfold date_range.
  intros (j & -> & Hj)%list_elem_of_fmap. apply elem_of_seqZ in Hj.
  rewrite year_length in Hj.
  set (start := combine (date year 1 1) time_min) in *.
  set (D := days_in_year year) in *.
  replace (start + D * NS_PER_DAY - start + freq_delta - 1)
    with (D * NS_PER_DAY + freq_delta - 1) in Hj by lia.
  assert (Hlt : 0 ≤ j * freq_delta < D * NS_PER_DAY).
  { assert (HNS : 0 < NS_PER_DAY) by (unfold NS_PER_DAY, NS_PER_MINUTE; lia).
    pose proof (days_in_year_pos year). fold D in H.
    split; [nia|].
    assert (j * freq_delta ≤ ((D * NS_PER_DAY + freq_delta - 1) / freq_delta - 1) * freq_delta)
      by nia.
    pose proof (Z.mul_div_le (D * NS_PER_DAY + freq_delta - 1) freq_delta Hf). lia. }
  exists j, (j * freq_delta / NS_PER_DAY).
  assert (HNS : 0 < NS_PER_DAY) by (unfold NS_PER_DAY, NS_PER_MINUTE; lia).
  assert (Hstart : start = (date year 1 1 - EPOCH) * NS_PER_DAY).
  { unfold start, combine, time_min, minute_of_day. cbn [hour minute]. lia. }
  assert (Hdiv : (start + j * freq_delta) / NS_PER_DAY
                 = date year 1 1 - EPOCH + j * freq_delta / NS_PER_DAY).
  { rewrite Hstart, Z.add_comm, Z.div_add by lia. lia. }
  assert (Hmod : (start + j * freq_delta) mod NS_PER_DAY = (j * freq_delta) mod NS_PER_DAY).
  { rewrite Hstart, Z.add_comm, Z.mod_add by lia. done. }
  split; [done|]. split.
  { split; [apply Z.div_pos; lia|]. apply Z.div_lt_upper_bound; lia. }
  split.
  { unfold timestamp_date. rewrite Hdiv. lia. }
  rewrite Hmod. unfold combine, time_min, minute_of_day. cbn [hour minute].
  pose proof (Z.div_mod (j * freq_delta) NS_PER_DAY ltac:(lia)). lia.
Qed.

Lemma timestamp_minute_range ts : 0 ≤ timestamp_minute ts < 1440.
Proof.
  unfold timestamp_minute, NS_PER_DAY, NS_PER_MINUTE. Z.div_mod_to_equations. lia.
Qed.

Lemma Zeit_inj ts1 ts2 : Zeit ts1 = Zeit ts2 → timestamp_minute ts1 = timestamp_minute ts2.
Proof.
  unfold Zeit. intros Heq.
  apply strftime_HM_inj in Heq; [|apply timestamp_time_valid..].
  unfold timestamp_time in Heq. injection Heq as Hh Hm.
  pose proof (timestamp_minute_range ts1). pose proof (timestamp_minute_range ts2).
  Z.div_mod_to_equations. lia.
Qed.

(** On the table of a year the two text columns tell the timestamp, when a
    step is a minute or longer. *)
Lemma Datum_Zeit_inj year freq_delta ts1 ts2 :
  NS_PER_MINUTE ≤ freq_delta →
  ts1 ∈ index (empty_table year freq_delta) → ts2 ∈ index (empty_table year freq_delta) →
  Datum ts1 = Datum ts2 → Zeit ts1 = Zeit ts2 → ts1 = ts2.
Proof.
  intros Hf Hin1 Hin2 HD HZ.
  assert (Hf0 : 0 < freq_delta) by (unfold NS_PER_MINUTE in Hf; lia).
  destruct (table_timestamp_day year freq_delta ts1 Hf0 Hin1)
    as (j1 & k1 & Hj1 & Hk1 & Hdate1 & Hts1).
  destruct (table_timestamp_day year freq_delta ts2 Hf0 Hin2)
    as (j2 & k2 & Hj2 & Hk2 & Hdate2 & Hts2).
  unfold Datum in HD. rewrite Hdate1, Hdate2 in HD.
  apply isoformat_inj_in_year in HD; [|done..]. subst k2.
  apply Zeit_inj in HZ. unfold timestamp_minute in HZ.
  assert (Hclose : - NS_PER_MINUTE < ts1 - ts2 < NS_PER_MINUTE).
  { rewrite Hts1, Hts2. unfold NS_PER_MINUTE in *. Z.div_mod_to_equations. lia. }
  assert (j1 = j2) by nia. by subst.
Qed.

Lemma output_keys (df : frame) :
  (λ o, (out_Datum o, out_Zeit o)) <$> output df
  = (λ r, (Datum (timestamp r), Zeit (timestamp r))) <$> df.
Proof. unfold output. by rewrite <- list_fmap_compose. Qed.

(** Property X20.  The output has no timestamp column: its rows are told
    apart by [Datum] and [Zeit].  When the resolution is a minute or coarser,
    no two rows of the table the builder returns share both texts. *)
Theorem output_rows_keyed `{NumpyRandom} (today : Z) (cfg : cluster)
    (year freq_delta : Z) (st : rng) (df : frame) (st' : rng) :
  FIRST_YEAR ≤ year ≤ LAST_YEAR →
  NS_PER_MINUTE ≤ freq_delta →
  build_cluster_timeseries today cfg year freq_delta st = Some (df, st') →
  NoDup ((λ o, (out_Datum o, out_Zeit o)) <$> output df).
Proof.
  intros _ Hf Hbuild.
  assert (Hf0 : 0 < freq_delta) by (unfold NS_PER_MINUTE in Hf; lia).
  apply build_cluster_timeseries_inv in Hbuild as (raw & Hsim & ->).
  apply simulate_cluster_index in Hsim.
  assert (Hasc : ascending raw).
  { unfold ascending. rewrite Hsim. by apply ascending_empty_table. }
  assert (Hidx : index (consolidate raw) = index (empty_table year freq_delta)).
  { by rewrite index_consolidate. }
  assert (Hnodup : NoDup (index (consolidate raw))).
  { rewrite Hidx, index_empty_table. unfold date_range.
    apply NoDup_fmap_2; [|apply NoDup_seqZ]. intros x y Hxy. nia. }
  rewrite output_keys. unfold index in Hnodup.
  assert (Hrows : NoDup (consolidate raw)) by apply (NoDup_fmap_1 timestamp), Hnodup.
  apply NoDup_fmap_2_strong; [|exact Hrows].
  intros r1 r2 Hr1 Hr2 Heq.
  pose proof (f_equal fst Heq) as HD. pose proof (f_equal snd Heq) as HZ.
  cbn [fst snd] in HD, HZ.
  assert (Hts : timestamp r1 = timestamp r2).
  { apply (Datum_Zeit_inj year freq_delta); [exact Hf| | |exact HD|exact HZ];
      rewrite <- Hidx; unfold index; by apply list_elem_of_fmap_2. }
  destruct (list_elem_of_lookup_1 _ _ Hr1) as [i1 Hi1].
  destruct (list_elem_of_lookup_1 _ _ Hr2) as [i2 Hi2].
  assert (i1 = i2).
  { apply (NoDup_lookup _ i1 i2 (timestamp r1) Hnodup).
    - by rewrite list_lookup_fmap, Hi1.
    - by rewrite list_lookup_fmap, Hi2, Hts. }
  subst. congruence.
Qed.

(** ** The sample generator draws within its range *)

Lemma lcg_unit_range st : (0 ≤ lcg_unit (lcg_next st) ≤ 1)%Qc.
Proof.
  unfold lcg_unit, lcg_next.
  assert (Hs : 0 ≤ (1103515245 * st + 12345) mod 2147483648 < 2147483648)
    by (apply Z.mod_pos_bound; lia).
  set (s := (1103515245 * st + 12345) mod 2147483648) in *.
  unfold Qcle. cbn [this Q2Qc]. rewrite !Qred_correct.
  unfold Qle. cbn [Qnum Qden]. lia.
Qed.

Lemma lcg_uniform_in_range : @uniform_in_range lcg_random.
Proof.
  intros lo hi st Hle. cbn [np_uniform lcg_random]. unfold lcg_uniform. cbn [fst].
  destruct (lcg_unit_range st) as [H0 H1].
  set (u := lcg_unit (lcg_next st)) in *.
  assert (Hd : (0 ≤ hi - lo)%Qc).
  { unfold Qcminus. rewrite <- (Qcplus_opp_r lo). apply Qcplus_le_compat; [done|apply Qcle_refl]. }
  split.
  - rewrite <- (Qcplus_0_r lo) at 1. apply Qcplus_le_compat; [apply Qcle_refl|].
    by apply Qcmult_nonneg.
  - apply Qcle_trans with (lo + (hi - lo) * 1)%Qc.
    + apply Qcplus_le_compat; [apply Qcle_refl|].
      rewrite (Qcmult_comm (hi - lo) u), (Qcmult_comm (hi - lo) 1).
      by apply Qcmult_le_compat_r.
    + replace (lo + (hi - lo) * 1)%Qc with hi by ring. apply Qcle_refl.
Qed.

Section bounds.
Context `{NumpyRandom}.

Lemma generate_normal_bound n config (K : Z) st :
  default "normal" (typ config) ≠ "uniform" →
  (0 ≤ max_dev_of config)%Qc → (max_dev_of config ≤ Qc_of_Z K)%Qc →
  Forall (λ d, - K ≤ d ≤ K) (generate_time_deviations n config st).1.
Proof.
  intros Htyp H0 HK. unfold generate_time_deviations, max_dev_of in *.
  set (st0 := match seed config with Some s => np_seed s | None => st end).
  rewrite bool_decide_false in * by done.
  set (m := default (Qc_of_Z 30) (max_abweichung_minuten config)) in *.
  destruct (draws _ n st0) as [ds st1]. simpl.
  rewrite <- list_fmap_compose. apply Forall_fmap, Forall_forall. intros x _. simpl.
  apply py_round_between.
  assert (Hlh : (- m ≤ m)%Qc).
  { apply Qcle_trans with 0%Qc; [|done].
    replace 0%Qc with (- 0)%Qc by done. by apply Qcopp_le_compat. }
  destruct (np_clip_between (- m) m x Hlh) as [H1 H2].
  split; [|by apply Qcle_trans with m].
  apply Qcle_trans with (- m)%Qc; [|done].
  rewrite <- Qc_of_Z_opp. by apply Qcopp_le_compat.
Qed.

Lemma generate_uniform_bound n config (K : Z) st :
  uniform_in_range →
  default "normal" (typ config) = "uniform" →
  (0 ≤ max_dev_of config)%Qc → (max_dev_of config ≤ Qc_of_Z K)%Qc →
  Forall (λ d, - K ≤ d ≤ K) (generate_time_deviations n config st).1.
Proof.
  intros Huni Htyp H0 HK. unfold generate_time_deviations, max_dev_of in *.
  set (st0 := match seed config with Some s => np_seed s | None => st end).
  rewrite bool_decide_true in * by done.
  set (m := default (Qc_of_Z 15) (max_abweichung_minuten config)) in *.
  assert (Hlh : (- m ≤ m)%Qc).
  { apply Qcle_trans with 0%Qc; [|done].
    replace 0%Qc with (- 0)%Qc by done. by apply Qcopp_le_compat. }
  pose proof (draws_Forall (λ x, (- m ≤ x ≤ m)%Qc) (np_uniform (- m) m) n st0
                (λ st1, Huni _ _ st1 Hlh)) as Hall.
  destruct (draws _ n st0) as [ds st1]. simpl in *.
  apply Forall_fmap. eapply Forall_impl; [exact Hall|].
  intros x [H1 H2]. simpl. apply py_round_between.
  split; [|by apply Qcle_trans with m].
  apply Qcle_trans with (- m)%Qc; [|done].
  rewrite <- Qc_of_Z_opp. by apply Qcopp_le_compat.
Qed.

End bounds.

(** Both distributions keep the deviations within the rounded bound. *)
Lemma generate_time_deviations_bounded `{NumpyRandom} (n : nat)
    (config : zeitverzerrung_config) (K : Z) (st : rng) :
  uniform_in_range →
  (0 ≤ max_dev_of config)%Qc → (max_dev_of config ≤ Qc_of_Z K)%Qc →
  Forall (λ d, - K ≤ d ≤ K) (generate_time_deviations n config st).1.
Proof.
  intros Huni H0 HK.
  destruct (decide (default "normal" (typ config) = "uniform")).
  - by apply generate_uniform_bound.
  - by apply generate_normal_bound.
Qed.

(** Property X6.  For a configuration that numpy accepts (a seed from 0 to
    2**32 - 1, a standard deviation that is not negative)
    [generate_time_deviations] returns one deviation per vehicle, and when
    the configured maximal deviation is not negative and at
    most the integer [K], every deviation lies between [-K] and [K] minutes,
    for both distributions (a uniform draw of numpy lies in its range). *)
Theorem deviations_within_rounded_bound `{NumpyRandom} (n : nat)
    (config : zeitverzerrung_config) (K : Z) (st : rng) :
  uniform_in_range → numpy_accepts config →
  (0 ≤ max_dev_of config)%Qc → (max_dev_of config ≤ Qc_of_Z K)%Qc →
  length (generate_time_deviations n config st).1 = n ∧
  Forall (λ d, - K ≤ d ≤ K) (generate_time_deviations n config st).1.
Proof.
  intros Huni _ H0 HK. split; [apply generate_time_deviations_length|].
  by apply generate_time_deviations_bounded.
Qed.

(** Property X7.  A group without a deviation configuration is still
    distorted: with the empty configuration, which the builder and the
    fallback handlers [handle_tour_sub] and [handle_multiday_sub] pass on,
    the handlers draw one departure and one return deviation per vehicle,
    each within 30 minutes of zero. *)
Theorem fallback_deviations_bounded `{NumpyRandom} (n : nat) (st : rng) :
  let leave_deviations := (draw_trip_deviations n no_zeitverzerrung st).1.1 in
  let return_deviations := (draw_trip_deviations n no_zeitverzerrung st).1.2 in
  length leave_deviations = n ∧ length return_deviations = n ∧
  Forall (λ d, - 30 ≤ d ≤ 30) leave_deviations ∧
  Forall (λ d, - 30 ≤ d ≤ 30) return_deviations.
Proof.
  cbv zeta. unfold draw_trip_deviations.
  pose proof (generate_time_deviations_length n no_zeitverzerrung st) as Hl1.
  pose proof (generate_normal_bound n no_zeitverzerrung 30 st) as Hb1.
  destruct (generate_time_deviations n no_zeitverzerrung st) as [l1 st1].
  pose proof (generate_time_deviations_length n no_zeitverzerrung st1) as Hl2.
  pose proof (generate_normal_bound n no_zeitverzerrung 30 st1) as Hb2.
  destruct (generate_time_deviations n no_zeitverzerrung st1) as [l2 st2].
  cbn [fst snd] in *. split_and!; [done|done|apply Hb1|apply Hb2]; done.
Qed.

(** ** The builder returns a table *)

Lemma foldl_option_is_Some {A B} (f : A → B → option A) (l : list B) : ∀ a,
  (∀ a b, b ∈ l → is_Some (f a b)) → is_Some (foldl_option f a l).
Proof.
  induction l as [|b l IH]; intros a Hf; cbn [foldl_option]; [done|].
  destruct (Hf a b) as [a' Ha']; [by left|]. rewrite Ha'. cbn.
  apply IH. intros a0 b0 Hb0. apply Hf. by right.
Qed.

Lemma foldM_is_Some `{NumpyRandom} {A B} (f : A → B → M A) (l : list B) : ∀ a st,
  (∀ a b st, b ∈ l → is_Some (f a b st)) → is_Some (foldM f a l st).
Proof.
  induction l as [|b l IH]; intros a st Hf; cbn [foldM]; [done|].
  unfold bind. destruct (Hf a b st) as [[a' st'] Ha']; [by left|]. rewrite Ha'.
  apply IH. intros a0 b0 st0 Hb0. apply Hf. by right.
Qed.

Lemma apply_time_deviation_is_Some today base dev K :
  today_margin today K → valid_time base → - K ≤ dev ≤ K →
  is_Some (apply_time_deviation today base dev).
Proof.
  intros [Hlo Hhi] [Hh Hm] Hdev. rewrite apply_time_deviation_in_range; [done|].
  unfold minute_of_day. split.
  - apply Z.div_le_lower_bound; lia.
  - apply Z.lt_succ_r. apply Z.div_lt_upper_bound; lia.
Qed.

Lemma tour_times_is_Some today day bl br dl dr K :
  today_margin today K → valid_time bl → valid_time br →
  - K ≤ dl ≤ K → - K ≤ dr ≤ K → MINORDINAL ≤ day < MAXORDINAL →
  is_Some (tour_times today day bl br dl dr).
Proof.
  intros Ht Hbl Hbr Hdl Hdr Hday.
  destruct (apply_time_deviation_is_Some today bl dl K) as [al Hal]; [done..|].
  destruct (apply_time_deviation_is_Some today br dr K) as [ar Har]; [done..|].
  by rewrite (tour_times_resolved _ _ _ _ _ _ al ar).
Qed.

Lemma multiday_times_is_Some today day bl br offset dl dr K :
  today_margin today K → valid_time bl → valid_time br →
  - K ≤ dl ≤ K → - K ≤ dr ≤ K → 0 ≤ offset →
  MINORDINAL ≤ day < MAXORDINAL → day + offset ≤ MAXORDINAL →
  is_Some (multiday_times today day bl br offset dl dr).
Proof.
  intros Ht Hbl Hbr Hdl Hdr Hoff Hday Hret.
  destruct (decide (offset = 0)) as [->|Hne].
  - rewrite multiday_times_no_offset. by eapply tour_times_is_Some.
  - destruct (apply_time_deviation_is_Some today bl dl K) as [al Hal]; [done..|].
    destruct (apply_time_deviation_is_Some today br dr K) as [ar Har]; [done..|].
    rewrite (multiday_times_offset _ _ _ _ _ _ _ al ar); [done..|lia].
Qed.

Lemma elem_of_days_of_year year day :
  day ∈ days_of_year year → date year 1 1 ≤ day < date (year + 1) 1 1.
Proof.
  unfold days_of_year. intros (k & -> & Hk)%list_elem_of_fmap.
  apply elem_of_seqZ in Hk. rewrite date_next_january. lia.
Qed.

Lemma year_in_range year day :
  FIRST_YEAR ≤ year ≤ LAST_YEAR → day ∈ days_of_year year →
  MINORDINAL ≤ day ∧ day < date (LAST_YEAR + 1) 1 1 ∧ date (LAST_YEAR + 1) 1 1 < MAXORDINAL
  ∧ date (year + 1) 1 1 ≤ date (LAST_YEAR + 1) 1 1.
Proof.
  unfold FIRST_YEAR. intros Hy Hday. apply elem_of_days_of_year in Hday.
  assert (Hle : date (year + 1) 1 1 ≤ date (LAST_YEAR + 1) 1 1).
  { rewrite !date_january_first.
    pose proof (days_before_year_le (year + 1) (LAST_YEAR + 1)). lia. }
  assert (Hlo : MINORDINAL ≤ date year 1 1).
  { rewrite date_january_first. pose proof (days_before_year_mono year).
    unfold MINORDINAL. lia. }
  split_and!; [lia|lia|done|done].
Qed.

Lemma validate_vehicle_entry g key e :
  validate_vehicle g = true → wochenplan g !! key = Some e → validate_day_entry e = true.
Proof.
  unfold validate_vehicle. rewrite !andb_true_iff.
  intros (_ & Hplan) He. unfold validate_weekly_plan in Hplan.
  rewrite forallb_forall in Hplan.
  apply elem_of_map_to_list, list_elem_of_In, Hplan in He.
  simpl in He. by apply andb_true_iff in He as [_ He].
Qed.

Lemma validate_time_valid t : validate_time t = true → valid_time t.
Proof.
  unfold validate_time, valid_time. rewrite andb_true_iff, !bool_decide_eq_true. done.
Qed.

Lemma validate_vehicle_max_dev g :
  validate_vehicle g = true →
  (0 ≤ max_dev_of (default no_zeitverzerrung (zeitverzerrung g)))%Qc.
Proof.
  unfold validate_vehicle. rewrite !andb_true_iff.
  intros ((_ & Htz) & _). unfold max_dev_of.
  destruct (zeitverzerrung g) as [tz|]; cbn [default from_option id].
  - unfold validate_zeitverzerrung in Htz. rewrite !andb_true_iff in Htz.
    destruct Htz as [_ Hmax].
    destruct (max_abweichung_minuten tz) as [x|]; cbn [default].
    + apply bool_decide_eq_true in Hmax. by case_bool_decide.
    + case_bool_decide; apply Qc_of_Z_nonneg; lia.
  - cbn. apply Qc_of_Z_nonneg. lia.
Qed.

Section progress.
Context `{NumpyRandom}.
Context (today year freq_delta K : Z).
Context (Huniform : uniform_in_range).
Context (Htoday : today_margin today K).
Context (Hyear : FIRST_YEAR ≤ year ≤ LAST_YEAR).

Lemma draw_trip_deviations_bounded n config st :
  (0 ≤ max_dev_of config)%Qc → (max_dev_of config ≤ Qc_of_Z K)%Qc →
  ∀ i, (i < n)%nat →
    - K ≤ (draw_trip_deviations n config st).1.1 !!! i ≤ K ∧
    - K ≤ (draw_trip_deviations n config st).1.2 !!! i ≤ K.
Proof.
  intros H0 HK i Hi. unfold draw_trip_deviations.
  pose proof (generate_time_deviations_length n config st) as Hl1.
  pose proof (generate_time_deviations_bounded n config K st Huniform H0 HK) as Hb1.
  destruct (generate_time_deviations n config st) as [l1 st1].
  pose proof (generate_time_deviations_length n config st1) as Hl2.
  pose proof (generate_time_deviations_bounded n config K st1 Huniform H0 HK) as Hb2.
  destruct (generate_time_deviations n config st1) as [l2 st2]. cbn [fst snd] in *.
  split; apply (Forall_lookup_total_1 (λ d, - K ≤ d ≤ K)); (done || lia).
Qed.

Lemma handle_tour_is_Some df day t n cap cons config st :
  validate_tour_entry t = true → day ∈ days_of_year year →
  (0 ≤ max_dev_of config)%Qc → (max_dev_of config ≤ Qc_of_Z K)%Qc →
  is_Some (handle_tour_sub_with_deviation today df day t n cap cons year config freq_delta st).
Proof.
  intros Ht Hday H0 HK. unfold handle_tour_sub_with_deviation.
  pose proof (draw_trip_deviations_bounded n config st H0 HK) as Hb.
  destruct (draw_trip_deviations n config st) as [[l1 l2] st1]. cbn [fst snd] in *.
  unfold validate_tour_entry in Ht. rewrite !andb_true_iff in Ht.
  destruct Ht as [[_ Hbl%validate_time_valid] Hbr%validate_time_valid].
  pose proof (year_in_range year day Hyear Hday) as (Hd1 & Hd2 & Hd3 & _).
  match goal with
  | |- is_Some (mbind _ (foldl_option ?f ?a ?l)) =>
      destruct (foldl_option_is_Some f l a) as [df' Hdf']
  end.
  - intros d i Hi%elem_of_seq. destruct (Hb i) as [Hb1 Hb2]; [lia|].
    destruct (tour_times_is_Some today day (tour_abfahrt t) (tour_rueckkehr t)
                (l1 !!! i) (l2 !!! i) K) as [[lt rt] Htimes];
      [done|done|done|done|done|lia|].
    rewrite Htimes. done.
  - rewrite Hdf'. done.
Qed.

Lemma handle_multiday_is_Some df day t n cap cons config st :
  validate_multiday_entry t = true → day ∈ days_of_year year →
  date (year + 1) 1 1 + default 0 (multi_tage_spaeter t) ≤ date (LAST_YEAR + 1) 1 1 →
  (0 ≤ max_dev_of config)%Qc → (max_dev_of config ≤ Qc_of_Z K)%Qc →
  is_Some (handle_multiday_sub_with_deviation today df day t n cap cons year config
             freq_delta st).
Proof.
  intros Ht Hday Hret H0 HK. unfold handle_multiday_sub_with_deviation.
  pose proof (draw_trip_deviations_bounded n config st H0 HK) as Hb.
  destruct (draw_trip_deviations n config st) as [[l1 l2] st1]. cbn [fst snd] in *.
  unfold validate_multiday_entry in Ht. rewrite !andb_true_iff in Ht.
  destruct Ht as [[[_ Hbl%validate_time_valid] Hbr%validate_time_valid] Hoff].
  assert (Hoff0 : 0 ≤ default 0 (multi_tage_spaeter t)).
  { destruct (multi_tage_spaeter t); cbn; [by apply bool_decide_eq_true in Hoff|done]. }
  pose proof (year_in_range year day Hyear Hday) as (Hd1 & Hd2 & Hd3 & _).
  pose proof (elem_of_days_of_year year day Hday) as Hd4.
  match goal with
  | |- is_Some (mbind _ (foldl_option ?f ?a ?l)) =>
      destruct (foldl_option_is_Some f l a) as [df' Hdf']
  end.
  - intros d i Hi%elem_of_seq. destruct (Hb i) as [Hb1 Hb2]; [lia|].
    destruct (multiday_times_is_Some today day (multi_abfahrt t) (multi_rueckkehr_uhr t)
                (default 0 (multi_tage_spaeter t)) (l1 !!! i) (l2 !!! i) K)
      as [[lt rt] Htimes];
      [done|done|done|done|done|done|lia|lia|].
    rewrite Htimes. done.
  - rewrite Hdf'. done.
Qed.

Lemma plan_day_is_Some g df day st :
  validate_vehicle g = true → day ∈ days_of_year year →
  (max_dev_of (default no_zeitverzerrung (zeitverzerrung g)) ≤ Qc_of_Z K)%Qc →
  (∀ key t, wochenplan g !! key = Some (Mehrtagstour t) →
     date (year + 1) 1 1 + default 0 (multi_tage_spaeter t) ≤ date (LAST_YEAR + 1) 1 1) →
  is_Some (plan_day today year freq_delta g df day st).
Proof.
  intros Hg Hday HK Hret. unfold plan_day.
  case_bool_decide; [done|].
  destruct (wochenplan g !! (WD !!! Z.to_nat (weekday day))) as [e|] eqn:He; cbn [default];
    [|done].
  pose proof (validate_vehicle_entry g _ e Hg He) as Hent.
  pose proof (validate_vehicle_max_dev g Hg) as Hmax0.
  destruct e as [| |t|t]; [done|done| |].
  - by apply handle_tour_is_Some.
  - apply handle_multiday_is_Some; [done|done| |done|done]. by eapply Hret.
Qed.

Lemma process_group_is_Some g df st :
  validate_vehicle g = true →
  (max_dev_of (default no_zeitverzerrung (zeitverzerrung g)) ≤ Qc_of_Z K)%Qc →
  (∀ key t, wochenplan g !! key = Some (Mehrtagstour t) →
     date (year + 1) 1 1 + default 0 (multi_tage_spaeter t) ≤ date (LAST_YEAR + 1) 1 1) →
  is_Some (process_group today year freq_delta df g st).
Proof.
  intros Hg HK Hret. unfold process_group, bind.
  match goal with
  | |- is_Some (match foldM ?f ?a ?l ?st with _ => _ end) =>
      destruct (foldM_is_Some f l a st) as [[df' st'] Hdf']
  end.
  - intros d day st0 Hday. by apply plan_day_is_Some.
  - rewrite Hdf'. done.
Qed.

End progress.

(** Property X15.  The builder returns a table, raising nothing, for a
    validated configuration when the year lies in the years that pandas
    timestamps cover in full, the resolution is positive and at most a day,
    the reference date of the times is [K] minutes and a day away from the
    ends of the [datetime] range, the seeds lie in numpy's range from 0 to
    2**32 - 1, the maximal deviations are at most [K], and
    the return dates of the multi-day tours stay in the timestamp range (a
    uniform draw of numpy lies in its range). *)
Theorem build_returns_table `{NumpyRandom} (today : Z) (cfg : cluster)
    (year freq_delta K : Z) (st : rng) :
  uniform_in_range →
  validate_cluster_config cfg = true →
  FIRST_YEAR ≤ year ≤ LAST_YEAR →
  0 < freq_delta ≤ NS_PER_DAY →
  today_margin today K →
  seeds_in_range cfg →
  deviations_at_most K cfg →
  returns_within year cfg →
  is_Some (build_cluster_timeseries today cfg year freq_delta st).
Proof.
  intros Huni Hval Hyear Hfreq Htoday _ Hdev Hret.
  unfold build_cluster_timeseries, bind, simulate_cluster.
  match goal with
  | |- is_Some (match foldM ?f ?a ?l ?st with _ => _ end) =>
      destruct (foldM_is_Some f l a st) as [[df' st'] Hdf']
  end.
  - intros d g st0 Hg. apply (process_group_is_Some today year freq_delta K); try done.
    + by eapply validate_cluster_config_vehicle.
    + by apply Hdev.
    + intros key t. by apply Hret.
  - rewrite Hdf'. done.
Qed.

(** ** Seeded configurations give reproducible tables *)

Section reproducible.
Context `{NumpyRandom}.

Lemma draw_trip_deviations_seeded n config s st1 st2 :
  seed config = Some s →
  draw_trip_deviations n config st1 = draw_trip_deviations n config st2.
Proof.
  intros Hs. unfold draw_trip_deviations.
  rewrite (generate_time_deviations_seeded n config s st1 Hs).
  rewrite (generate_time_deviations_seeded n config s st2 Hs).
  destruct (generate_time_deviations n config (np_seed s)) as [l1 st].
  done.
Qed.

Lemma foldM_same_table {B} (f : frame → B → M frame) (l : list B) : ∀ df st1 st2,
  (∀ df b st1 st2, b ∈ l → same_table (f df b st1) (f df b st2)) →
  same_table (foldM f df l st1) (foldM f df l st2).
Proof.
  induction l as [|b l IH]; intros df st1 st2 Hf; cbn [foldM]; [done|].
  unfold bind. pose proof (Hf df b st1 st2 ltac:(by left)) as Hb.
  unfold same_table in Hb.
  destruct (f df b st1) as [[d1 s1]|], (f df b st2) as [[d2 s2]|]; try done.
  cbn in Hb. injection Hb as ->. apply IH. intros d b' s s' Hb'. apply Hf. by right.
Qed.

Lemma plan_day_same_table today year freq_delta g df day st1 st2 :
  seeded g →
  same_table (plan_day today year freq_delta g df day st1)
             (plan_day today year freq_delta g df day st2).
Proof.
  intros (z & s & Hz & Hs). unfold plan_day. rewrite Hz. cbn [default from_option id].
  case_bool_decide; [done|].
  destruct (default Steht _) as [| |t|t]; [done|done| |].
  - unfold handle_tour_sub_with_deviation.
    by rewrite (draw_trip_deviations_seeded _ _ s st1 st2).
  - unfold handle_multiday_sub_with_deviation.
    by rewrite (draw_trip_deviations_seeded _ _ s st1 st2).
Qed.

Lemma same_table_map (g : frame → frame) (m1 m2 : M frame) st1 st2 :
  same_table (m1 st1) (m2 st2) →
  same_table (bind m1 (λ df, ret (g df)) st1) (bind m2 (λ df, ret (g df)) st2).
Proof.
  unfold same_table, bind, ret.
  destruct (m1 st1) as [[d1 s1]|], (m2 st2) as [[d2 s2]|]; try done.
  intros [= ->]. done.
Qed.

Lemma process_group_same_table today year freq_delta g df st1 st2 :
  seeded g →
  same_table (process_group today year freq_delta df g st1)
             (process_group today year freq_delta df g st2).
Proof.
  intros Hg. unfold process_group. apply same_table_map.
  apply foldM_same_table. intros. by apply plan_day_same_table.
Qed.

End reproducible.

(** Property X17.  When every group has a deviation configuration with a
    seed, the result of the builder does not depend on the state of the
    global random generator: two runs raise alike or return the same table. *)
Theorem seeded_build_reproducible `{NumpyRandom} (today : Z) (cfg : cluster)
    (year freq_delta : Z) (st1 st2 : rng) :
  (∀ g, g ∈ fahrzeuge cfg → seeded g) →
  fst <$> build_cluster_timeseries today cfg year freq_delta st1
  = fst <$> build_cluster_timeseries today cfg year freq_delta st2.
Proof.
  intros Hseeded. unfold build_cluster_timeseries.
  apply (same_table_map consolidate). unfold simulate_cluster.
  apply foldM_same_table. intros. apply process_group_same_table. by apply Hseeded.
Qed.

(** ** The validation raises no [KeyError] *)

Lemma value_or_type_error_bind {A B} (m : result A) (f : A → result B) :
  value_or_type_error m → (∀ a, m = Ok a → value_or_type_error (f a)) →
  value_or_type_error (m ≫= f).
Proof. intros Hm Hf. destruct m as [a|e]; cbn; [by apply Hf|done]. Qed.

Lemma value_or_type_error_require b : value_or_type_error (require b).
Proof. destruct b; cbn; auto. Qed.

Lemma value_or_type_error_contains obj k : value_or_type_error (py_contains obj k).
Proof. destruct obj; cbn; auto. Qed.

Lemma value_or_type_error_require_keys keys obj :
  value_or_type_error (require_keys keys obj).
Proof.
  induction keys as [|k keys IH]; [done|]. cbn [require_keys].
  apply value_or_type_error_bind; [apply value_or_type_error_contains|]. intros b _.
  apply value_or_type_error_bind; [apply value_or_type_error_require|]. intros _ _. exact IH.
Qed.

Lemma require_keys_contains keys obj k :
  require_keys keys obj = Ok () → k ∈ keys → py_contains obj k = Ok true.
Proof.
  induction keys as [|k' keys IH]; intros Hreq Hk; [by apply elem_of_nil in Hk|].
  cbn [require_keys] in Hreq.
  destruct (py_contains obj k') as [b|e] eqn:Hc; [|done]. cbn in Hreq.
  destruct b; [|done]. cbn in Hreq.
  apply elem_of_cons in Hk as [->|Hk]; [done|]. by apply IH.
Qed.

(** A subscript that follows the test for its key finds it. *)
Lemma getitem_present obj k :
  py_contains obj k = Ok true → value_or_type_error (py_getitem obj k).
Proof.
  destruct obj as [| | | | | |d]; cbn; auto. intros [= Hin].
  apply bool_decide_eq_true in Hin as [v Hv]. by rewrite Hv.
Qed.

Lemma value_or_type_error_hhmm_value v : value_or_type_error (hhmm_value v).
Proof. destruct v as [| | | |s| |]; cbn; auto. destruct (hhmm s); cbn; auto. Qed.

Lemma value_or_type_error_for_each {A} (check : A → result unit) l :
  (∀ x, value_or_type_error (check x)) → value_or_type_error (for_each check l).
Proof.
  intros Hc. induction l as [|x l IH]; [done|]. cbn [for_each].
  apply value_or_type_error_bind; [apply Hc|]. by intros _ _.
Qed.

Lemma value_or_type_error_when_present b m :
  (b = true → value_or_type_error m) → value_or_type_error (when_present b m).
Proof. destruct b; cbn; auto. Qed.

(** A chain of checks: every lookup follows the test for its key. *)
Ltac check_step :=
  first
    [ apply value_or_type_error_require
    | apply value_or_type_error_require_keys
    | apply value_or_type_error_contains
    | apply value_or_type_error_hhmm_value
    | apply getitem_present; eapply require_keys_contains; [eassumption|];
      repeat (first [by left | right])
    | done ].

Lemma value_or_type_error_tour tour : value_or_type_error (validate_tour_entry_raw tour).
Proof.
  unfold validate_tour_entry_raw.
  apply value_or_type_error_bind; [check_step|]. intros [] Hkeys.
  do 6 (apply value_or_type_error_bind; [check_step|]; intros ? _).
  done.
Qed.

Lemma value_or_type_error_multiday entry :
  value_or_type_error (validate_multiday_entry_raw entry).
Proof.
  unfold validate_multiday_entry_raw.
  apply value_or_type_error_bind; [check_step|]. intros [] Hkeys.
  do 6 (apply value_or_type_error_bind; [check_step|]; intros ? _).
  apply value_or_type_error_bind; [check_step|]. intros later Hlater.
  apply value_or_type_error_when_present. intros ->.
  apply value_or_type_error_bind; [by apply getitem_present|]. intros ? _. check_step.
Qed.

Lemma value_or_type_error_day_entry entry :
  value_or_type_error (validate_day_entry_raw entry).
Proof.
  destruct entry as [| | | | | |d]; try (cbn; by auto).
  cbn [validate_day_entry_raw].
  destruct (filter _ modes) as [|m [|m' found]] eqn:Hfound; try (cbn; by auto).
  assert (Hm : is_Some (dict_get d m)).
  { assert (Hin : m ∈ filter (λ m, is_Some (dict_get d m)) modes) by (rewrite Hfound; by left).
    by apply list_elem_of_filter in Hin as [Hin _]. }
  destruct Hm as [v Hv]. cbn [py_getitem]. rewrite Hv.
  repeat case_bool_decide; cbn.
  - check_step.
  - apply value_or_type_error_tour.
  - apply value_or_type_error_multiday.
Qed.

Lemma value_or_type_error_weekly_plan plan :
  value_or_type_error (validate_weekly_plan_raw plan).
Proof.
  destruct plan as [| | | | | |d]; try (cbn; by auto).
  cbn [validate_weekly_plan_raw]. apply value_or_type_error_for_each. intros item.
  apply value_or_type_error_bind; [check_step|]. intros _ _.
  apply value_or_type_error_day_entry.
Qed.

Lemma value_or_type_error_zeitverzerrung tz :
  value_or_type_error (validate_zeitverzerrung_raw tz).
Proof.
  destruct tz as [| | | | | |d]; try (cbn; by auto).
  cbn [validate_zeitverzerrung_raw].
  do 2 (apply value_or_type_error_bind; [check_step|]; intros ? _). check_step.
Qed.

Lemma value_or_type_error_vehicle vehicle :
  value_or_type_error (validate_vehicle_raw vehicle).
Proof.
  unfold validate_vehicle_raw.
  apply value_or_type_error_bind; [check_step|]. intros [] Hkeys.
  do 6 (apply value_or_type_error_bind; [check_step|]; intros ? _).
  apply value_or_type_error_bind; [check_step|]. intros has_tz Htz.
  apply value_or_type_error_bind.
  { apply value_or_type_error_when_present. intros ->.
    apply value_or_type_error_bind; [by apply getitem_present|]. intros ? _.
    apply value_or_type_error_zeitverzerrung. }
  intros _ _. apply value_or_type_error_bind; [check_step|]. intros ? _.
  apply value_or_type_error_weekly_plan.
Qed.

(** Property X18.  On any parsed JSON value (finite numbers, strings of code
    points below 256) the validation either accepts or raises [ValueError] or
    [TypeError]; it never raises [KeyError], since every key it reads was
    checked to be present before. *)
Theorem validation_raises_no_KeyError (cfg : json) :
  validate_cluster_config_raw cfg = Ok () ∨
  validate_cluster_config_raw cfg = Raise ValueError ∨
  validate_cluster_config_raw cfg = Raise TypeError.
Proof.
  assert (H : value_or_type_error (validate_cluster_config_raw cfg)).
  { unfold validate_cluster_config_raw.
    apply value_or_type_error_bind; [check_step|]. intros [] Hkeys.
    do 3 (apply value_or_type_error_bind; [check_step|]; intros ? _).
    match goal with
    | |- value_or_type_error (match ?v with _ => _ end) => destruct v; try (cbn; by auto)
    end.
    apply value_or_type_error_bind; [check_step|]. intros _ _.
    apply value_or_type_error_for_each, value_or_type_error_vehicle. }
  destruct (validate_cluster_config_raw cfg) as [[]|e]; [by left|].
  cbn in H. destruct H as [-> | ->]; auto.
Qed.

(** ** A validated configuration reads as a valid typed configuration *)

Lemma bind_Ok {A B} (m : result A) (f : A → result B) b :
  m ≫= f = Ok b → ∃ a, m = Ok a ∧ f a = Ok b.
Proof. destruct m as [a|e]; [|done]. intros Hf. by exists a. Qed.

Lemma require_Ok b u : require b = Ok u → b = true.
Proof. by destruct b. Qed.

Lemma getitem_Ok obj k v :
  py_getitem obj k = Ok v → ∃ d, obj = JDict d ∧ dict_get d k = Some v.
Proof.
  destruct obj as [| | | | | |d]; try done. cbn.
  destruct (dict_get d k) as [w|] eqn:Hw; [|done]. intros [= <-]. by exists d.
Qed.

Lemma for_each_Ok {A} (check : A → result unit) l u :
  for_each check l = Ok u → Forall (λ x, check x = Ok ()) l.
Proof.
  induction l as [|x l IH]; [constructor|]. cbn [for_each].
  intros ([] & Hx & Hl)%bind_Ok. constructor; auto.
Qed.

Lemma dict_get_elem_of d k v : dict_get d k = Some v → (k, v) ∈ d.
Proof.
  induction d as [|[k' v'] d IH]; [done|]. cbn [dict_get].
  case_bool_decide as Hk; [intros [= <-]; subst; by left|]. intros Hd. right. auto.
Qed.

Lemma hhmm_value_Ok v t :
  hhmm_value v = Ok t → read_time v = Some t ∧ validate_time t = true.
Proof.
  destruct v as [| | | |s| |]; try done. cbn.
  destruct (hhmm s) as [t'|] eqn:Ht; [|done]. intros [= <-]. split; [done|].
  apply hhmm_accepts_only in Ht as [[Hh Hm] _].
  unfold validate_time. by rewrite !bool_decide_true.
Qed.

Lemma number_Ok v u :
  require (is_number v && bool_decide (0 ≤ number_value v)%Qc) = Ok u →
  py_float v = Some (number_value v) ∧ (0 ≤ number_value v)%Qc.
Proof.
  intros [Hn Hv%bool_decide_eq_true]%require_Ok%andb_true_iff.
  unfold py_float. by rewrite Hn.
Qed.

Lemma positive_number_Ok v u :
  require (is_number v && bool_decide (0 < number_value v)%Qc) = Ok u →
  py_float v = Some (number_value v) ∧ (0 < number_value v)%Qc.
Proof.
  intros [Hn Hv%bool_decide_eq_true]%require_Ok%andb_true_iff.
  unfold py_float. by rewrite Hn.
Qed.

Lemma validate_tour_entry_reads t :
  validate_tour_entry_raw t = Ok () →
  ∃ tr, read_tour t = Some tr ∧ validate_tour_entry tr = true.
Proof.
  unfold validate_tour_entry_raw.
  intros ([] & _ & H)%bind_Ok.
  apply bind_Ok in H as (km & (d & -> & Hkm)%getitem_Ok & H).
  apply bind_Ok in H as ([] & [Hfloat Hpos]%number_Ok & H).
  apply bind_Ok in H as (a & (d' & [= <-] & Ha)%getitem_Ok & H).
  apply bind_Ok in H as (ta & [Hta Hva]%hhmm_value_Ok & H).
  apply bind_Ok in H as (r & (d' & [= <-] & Hr)%getitem_Ok & H).
  apply bind_Ok in H as (tr & [Htr Hvr]%hhmm_value_Ok & _).
  eexists. cbn [read_tour]. rewrite Hkm, Ha, Hr. cbn. rewrite Hfloat, Hta, Htr. cbn.
  split; [done|]. unfold validate_tour_entry. cbn.
  by rewrite bool_decide_true, Hva, Hvr.
Qed.

Lemma contains_dict d k b :
  py_contains (JDict d) k = Ok b → b = bool_decide (is_Some (dict_get d k)).
Proof. by intros [= <-]. Qed.

Lemma Qc_of_Z_nonneg_inv n : (0 ≤ Qc_of_Z n)%Qc → 0 ≤ n.
Proof.
  intros Hn. unfold Qcle in Hn. simpl in Hn.
  rewrite Qred_correct in Hn. unfold Qle in Hn. simpl in Hn. lia.
Qed.

Lemma Qc_of_Z_pos_inv n : (0 < Qc_of_Z n)%Qc → 0 < n.
Proof.
  intros Hn. unfold Qclt in Hn. simpl in Hn.
  rewrite Qred_correct in Hn. unfold Qlt in Hn. simpl in Hn. lia.
Qed.

Lemma int_Ok v u :
  require (is_int v && bool_decide (0 ≤ number_value v)%Qc) = Ok u →
  ∃ n, py_int v = Some n ∧ 0 ≤ n.
Proof.
  intros [Hn Hv%bool_decide_eq_true]%require_Ok%andb_true_iff.
  destruct v as [|b|n| | | |]; try done; cbn in *.
  - exists (if b then 1 else 0). split; [done|]. destruct b; lia.
  - exists n. split; [done|]. by apply Qc_of_Z_nonneg_inv.
Qed.

Lemma validate_multiday_entry_reads t :
  validate_multiday_entry_raw t = Ok () →
  ∃ tr, read_multiday t = Some tr ∧ validate_multiday_entry tr = true.
Proof.
  unfold validate_multiday_entry_raw.
  intros ([] & _ & H)%bind_Ok.
  apply bind_Ok in H as (km & (d & -> & Hkm)%getitem_Ok & H).
  apply bind_Ok in H as ([] & [Hfloat Hpos]%number_Ok & H).
  apply bind_Ok in H as (a & (d' & [= <-] & Ha)%getitem_Ok & H).
  apply bind_Ok in H as (ta & [Hta Hva]%hhmm_value_Ok & H).
  apply bind_Ok in H as (r & (d' & [= <-] & Hr)%getitem_Ok & H).
  apply bind_Ok in H as (tr & [Htr Hvr]%hhmm_value_Ok & H).
  apply bind_Ok in H as (later & ->%contains_dict & H).
  cbn [read_multiday]. rewrite Hkm, Ha, Hr. cbn [default from_option id].
  rewrite Hfloat, Hta, Htr. cbn.
  destruct (dict_get d tage_spaeter) as [v|] eqn:Hv.
  - rewrite bool_decide_true in H by done. cbn [when_present] in H.
    apply bind_Ok in H as (v' & (d' & [= <-] & Hv')%getitem_Ok & H).
    rewrite Hv in Hv'. injection Hv' as <-.
    apply int_Ok in H as (n & Hn & Hn0). cbn. rewrite Hn. cbn.
    eexists. split; [done|]. unfold validate_multiday_entry. cbn.
    by rewrite !bool_decide_true, Hva, Hvr.
  - cbn. eexists. split; [done|]. unfold validate_multiday_entry. cbn.
    by rewrite bool_decide_true, Hva, Hvr.
Qed.

Lemma nicht_verfuegbar_neq : nicht_verfuegbar ≠ "steht" ∧ nicht_verfuegbar ≠ "tour"
  ∧ nicht_verfuegbar ≠ "mehrtagstour".
Proof. by vm_compute. Qed.

Lemma validate_day_entry_reads e :
  validate_day_entry_raw e = Ok () →
  ∃ de, read_entry e = Some de ∧ validate_day_entry de = true.
Proof.
  destruct e as [| | | | | |d]; try done. cbn [validate_day_entry_raw read_entry].
  unfold modes. rewrite !filter_cons, filter_nil.
  destruct (dict_get d "steht") as [s|] eqn:Hs;
    destruct (dict_get d "tour") as [t|] eqn:Ht;
    destruct (dict_get d "mehrtagstour") as [m|] eqn:Hm;
    destruct (dict_get d nicht_verfuegbar) as [n|] eqn:Hn;
    cbv [decide is_Some_dec]; try done.
  - (* steht alone *)
    rewrite bool_decide_true by by left.
    cbn [py_getitem]. rewrite Hs. cbn.
    destruct s as [|[]| | | | |]; try done. intros _.
    exists Steht. done.
  - (* tour alone *)
    rewrite bool_decide_false.
    2:{ intros [?|[?|[]%elem_of_nil]%elem_of_cons]%elem_of_cons; [done|].
        by destruct nicht_verfuegbar_neq as (_ & ? & _). }
    rewrite bool_decide_true by done.
    cbn [py_getitem]. rewrite Ht. cbn.
    intros (tr & Hread & Hval)%validate_tour_entry_reads.
    exists (Tour tr). rewrite Hread. done.
  - (* mehrtagstour alone *)
    rewrite bool_decide_false.
    2:{ intros [?|[?|[]%elem_of_nil]%elem_of_cons]%elem_of_cons; [done|].
        by destruct nicht_verfuegbar_neq as (_ & _ & ?). }
    rewrite bool_decide_false by done.
    cbn [py_getitem]. rewrite Hm. cbn.
    intros (tr & Hread & Hval)%validate_multiday_entry_reads.
    exists (Mehrtagstour tr). cbn [default from_option id]. rewrite Hread. done.
  - (* mehrtagstour: nicht_verfügbar alone *)
    rewrite bool_decide_true by (right; by left).
    cbn [py_getitem]. rewrite Hn. cbn.
    destruct n as [|[]| | | | |]; try done. intros _.
    exists NichtVerfuegbar. done.
Qed.

Lemma read_plan_entries d (wds : list string) :
  (∀ k e, dict_get d k = Some e → validate_day_entry_raw e = Ok ()) →
  ∃ m, foldr (read_plan_day d) (Some ∅) wds = Some m ∧
       ∀ k de, m !! k = Some de → k ∈ wds ∧ validate_day_entry de = true.
Proof.
  intros Hd. induction wds as [|wd wds (m & Hm & Hall)].
  - exists ∅. split; [done|]. intros k de Hk. by rewrite lookup_empty in Hk.
  - cbn [foldr]. rewrite Hm. unfold read_plan_day at 1. cbn.
    destruct (dict_get d wd) as [e|] eqn:He.
    + destruct (validate_day_entry_reads e (Hd _ _ He)) as (de & Hde & Hval).
      rewrite Hde. cbn. eexists. split; [done|]. intros k de' Hk.
      destruct (decide (k = wd)) as [->|Hne].
      * rewrite lookup_insert_eq in Hk. injection Hk as <-. split; [by left|done].
      * rewrite lookup_insert_ne in Hk by done. destruct (Hall _ _ Hk). split; [by right|done].
    + exists m. split; [done|]. intros k de Hk. destruct (Hall _ _ Hk). split; [by right|done].
Qed.

Lemma validate_weekly_plan_reads plan :
  validate_weekly_plan_raw plan = Ok () →
  ∃ m, read_plan plan = Some m ∧ validate_weekly_plan m = true.
Proof.
  destruct plan as [| | | | | |d]; try done. cbn [validate_weekly_plan_raw read_plan].
  intros Hall%for_each_Ok.
  destruct (read_plan_entries d WD) as (m & Hm & Hentries).
  { intros k e Hk%dict_get_elem_of. rewrite Forall_forall in Hall.
    apply Hall in Hk. cbn in Hk. by apply bind_Ok in Hk as ([] & _ & Hk). }
  exists m. split; [done|]. unfold validate_weekly_plan.
  apply forallb_forall. intros [k de] Hin%list_elem_of_In%elem_of_map_to_list.
  destruct (Hentries _ _ Hin) as [Hk Hde]. cbn. by rewrite bool_decide_true, Hde.
Qed.

Lemma optional_number_Ok v u :
  require (match v with
           | Some v => is_number v && bool_decide (0 ≤ number_value v)%Qc
           | None => true
           end) = Ok u →
  ∃ x, read_optional py_float v = Some x ∧
       match x with Some x => bool_decide (0 ≤ x)%Qc | None => true end = true.
Proof.
  destruct v as [v|]; cbn [read_optional].
  - intros [Hf Hpos]%number_Ok. rewrite Hf. exists (Some (number_value v)).
    split; [done|]. by apply bool_decide_eq_true.
  - intros _. by exists None.
Qed.

Lemma validate_zeitverzerrung_reads tz :
  validate_zeitverzerrung_raw tz = Ok () →
  (∀ d, tz = JDict d → is_Some (read_seed (dict_get d "seed"))) →
  ∃ z, read_zeitverzerrung tz = Some z ∧ validate_zeitverzerrung z = true.
Proof.
  destruct tz as [| | | | | |d]; try done.
  cbn [validate_zeitverzerrung_raw read_zeitverzerrung].
  intros ([] & Htyp%require_Ok & H)%bind_Ok Hseed.
  apply bind_Ok in H as ([] & (stddev & Hstd & Hstd0)%optional_number_Ok
                            & (max_dev & Hmax & Hmax0)%optional_number_Ok).
  destruct (Hseed d eq_refl) as [sd Hsd].
  rewrite Hstd, Hmax, Hsd.
  destruct (dict_get d "typ") as [[| | | |s| |]|]; try done; cbn.
  - eexists. split; [done|]. unfold validate_zeitverzerrung. cbn.
    by rewrite Htyp, Hstd0, Hmax0.
  - eexists. split; [done|]. unfold validate_zeitverzerrung. cbn.
    by rewrite Hstd0, Hmax0.
Qed.

Lemma positive_int_Ok v u :
  require (is_int v && bool_decide (0 < number_value v)%Qc) = Ok u →
  ∃ n, py_int v = Some n ∧ 0 < n.
Proof.
  intros [Hn Hv%bool_decide_eq_true]%require_Ok%andb_true_iff.
  destruct v as [|b|n| | | |]; try done; cbn in *.
  - exists (if b then 1 else 0). split; [done|]. by destruct b.
  - exists n. split; [done|]. by apply Qc_of_Z_pos_inv.
Qed.

Lemma validate_vehicle_reads v :
  validate_vehicle_raw v = Ok () → seed_plain v = true →
  ∃ g, read_group v = Some g ∧ validate_vehicle g = true.
Proof.
  unfold validate_vehicle_raw.
  intros ([] & _ & H)%bind_Ok Hseed.
  apply bind_Ok in H as (n & (d & -> & Hn)%getitem_Ok & H).
  apply bind_Ok in H as ([] & (k & Hk & Hk0)%positive_int_Ok & H).
  apply bind_Ok in H as (cap & (d' & [= <-] & Hcap)%getitem_Ok & H).
  apply bind_Ok in H as ([] & [Hcapf Hcap0]%positive_number_Ok & H).
  apply bind_Ok in H as (cons & (d' & [= <-] & Hcons)%getitem_Ok & H).
  apply bind_Ok in H as ([] & [Hconsf Hcons0]%positive_number_Ok & H).
  apply bind_Ok in H as (has_tz & ->%contains_dict & H).
  apply bind_Ok in H as ([] & Htz & H).
  apply bind_Ok in H as (plan & (d' & [= <-] & Hplan)%getitem_Ok & H).
  apply validate_weekly_plan_reads in H as (m & Hm & Hmval).
  cbn [read_group]. rewrite Hn, Hcap, Hcons, Hplan. cbn. rewrite Hk. cbn.
  rewrite (option_guard_True (0 ≤ k)) by lia. cbn. rewrite Hcapf, Hconsf, Hm. cbn.
  cbn [seed_plain] in Hseed.
  destruct (dict_get d "zeitverzerrung") as [tz|] eqn:Hdtz.
  - rewrite bool_decide_true in Htz by done. cbn [when_present py_getitem] in Htz.
    rewrite Hdtz in Htz. cbn in Htz.
    apply validate_zeitverzerrung_reads in Htz as (z & Hz & Hzval).
    2:{ intros tzd ->. by apply bool_decide_eq_true in Hseed. }
    cbn. rewrite Hz. cbn. eexists. split; [done|].
    unfold validate_vehicle. cbn.
    rewrite !bool_decide_true by (done || lia). by rewrite Hzval, Hmval.
  - cbn. eexists. split; [done|]. unfold validate_vehicle. cbn.
    rewrite !bool_decide_true by (done || lia). by rewrite Hmval.
Qed.

Lemma read_groups l :
  Forall (λ v, validate_vehicle_raw v = Ok ()) l → forallb seed_plain l = true →
  ∃ gs, mapM read_group l = Some gs ∧ length gs = length l
        ∧ forallb validate_vehicle gs = true.
Proof.
  induction 1 as [|v l Hv _ IH]; cbn [forallb].
  - intros _. by exists [].
  - intros [Hs Hl]%andb_true_iff. destruct (IH Hl) as (gs & Hgs & Hlen & Hval).
    destruct (validate_vehicle_reads v Hv Hs) as (g & Hg & Hgval).
    exists (g :: gs). cbn. rewrite Hg. cbn. rewrite Hgs. cbn.
    split_and!; [done|by rewrite Hlen|by rewrite Hgval, Hval].
Qed.

(** Property X19.  A raw configuration that the validation accepts, and whose
    seeds are absent, [null] or integers, has every key and every kind of
    value that the builder and its handlers read: it reads as a typed
    configuration, and this one satisfies the validation of the typed
    model. *)
Theorem validated_config_reads (cfg : json) :
  validate_cluster_config_raw cfg = Ok () → seeds_plain cfg = true →
  ∃ c, read_cluster cfg = Some c ∧ validate_cluster_config c = true.
Proof.
  unfold validate_cluster_config_raw.
  intros ([] & _ & H)%bind_Ok Hseeds.
  apply bind_Ok in H as (name & (d & -> & Hname)%getitem_Ok & H).
  apply bind_Ok in H as ([] & _ & H).
  apply bind_Ok in H as (vehicles & (d' & [= <-] & Hv)%getitem_Ok & H).
  destruct vehicles as [| | | | |l|]; try done.
  apply bind_Ok in H as ([] & Hne%require_Ok & Hall%for_each_Ok).
  cbn [seeds_plain] in Hseeds. rewrite Hv in Hseeds.
  destruct (read_groups l Hall Hseeds) as (gs & Hgs & Hlen & Hval).
  cbn [read_cluster]. rewrite Hv, Hgs. cbn. eexists. split; [done|].
  unfold validate_cluster_config. cbn [fahrzeuge]. rewrite Hval, andb_true_r.
  apply bool_decide_eq_true. intros ->. cbn in Hlen.
  destruct l; [|done]. by rewrite bool_decide_true in Hne.
Qed.

(** ** The properties on sample inputs *)

Lemma weekend_run :
  ∃ df st',
    build_cluster_timeseries (H := lcg_random) sample_today weekend_cluster 2024 daily 0
    = Some (df, st').
Proof.
  assert (Hsome : bool_decide (is_Some (build_cluster_timeseries (H := lcg_random)
                    sample_today weekend_cluster 2024 daily 0)) = true)
    by (vm_compute; reflexivity).
  apply bool_decide_eq_true in Hsome as [[df st'] Hrun]. by exists df, st'.
Qed.

Lemma days_of_year_gen_spec_witness :
  1 ≤ 2024 ≤ 9998 ∧ (366 < 367)%nat ∧
  days_of_year_gen 367 2024 = (days_of_year 2024, StopIteration).
Proof. split; [lia|]. split; [lia|]. apply (days_of_year_gen_spec 367 2024); lia. Defined.

Lemma days_of_year_gen_last_year_witness :
  (365 ≤ 365)%nat ∧ days_of_year_gen 365 9999 = (days_of_year 9999, Raised OverflowError).
Proof. split; [lia|]. apply (days_of_year_gen_last_year 365). lia. Defined.

Lemma apply_time_deviation_additive_witness :
  apply_time_deviation sample_today (Time 23 50) 20 = Some (Time 0 10) ∧
  apply_time_deviation sample_today (Time 0 10) (-30)
  = apply_time_deviation sample_today (Time 23 50) (20 + -30).
Proof.
  split; [reflexivity|].
  apply (apply_time_deviation_additive sample_today (Time 23 50) (Time 0 10) 20 (-30));
    [reflexivity|by vm_compute|by vm_compute].
Defined.

Lemma deviations_within_rounded_bound_witness :
  numpy_accepts fractional_max_config ∧
  (0 ≤ max_dev_of fractional_max_config)%Qc ∧
  (max_dev_of fractional_max_config ≤ Qc_of_Z 16)%Qc ∧
  length (generate_time_deviations (H := lcg_random) 3 fractional_max_config 0).1 = 3%nat ∧
  Forall (λ d, - 16 ≤ d ≤ 16)
    (generate_time_deviations (H := lcg_random) 3 fractional_max_config 0).1.
Proof.
  assert (Hnp : numpy_accepts fractional_max_config).
  { split; [|by vm_compute]. intros s [= <-]. by vm_compute. }
  assert (H0 : (0 ≤ max_dev_of fractional_max_config)%Qc) by by vm_compute.
  assert (H16 : (max_dev_of fractional_max_config ≤ Qc_of_Z 16)%Qc) by by vm_compute.
  split; [exact Hnp|]. split; [exact H0|]. split; [exact H16|].
  apply (deviations_within_rounded_bound (H := lcg_random) 3 fractional_max_config 16 0
           lcg_uniform_in_range Hnp H0 H16).
Defined.

Lemma sample_table_ascending : ascending sample_table.
Proof. unfold ascending. apply (bool_decide_unpack _). vm_compute. exact I. Qed.

Lemma consolidation_passes_commute_witness :
  ascending sample_table ∧
  set_rest_energy_at_block_start (set_energy_demand_at_block_end sample_table)
  = set_energy_demand_at_block_end (set_rest_energy_at_block_start sample_table).
Proof.
  split; [exact sample_table_ascending|].
  apply (consolidation_passes_commute sample_table sample_table_ascending).
Defined.

Lemma block_starts_pair_with_ends_witness :
  ascending sample_table ∧
  (block_bounds (index sample_table) (has_capacity sample_table)).1 = [1; 5] ∧
  Forall2 Z.le (block_bounds (index sample_table) (has_capacity sample_table)).1
               (block_bounds (index sample_table) (has_capacity sample_table)).2.
Proof.
  split; [exact sample_table_ascending|]. split; [by vm_compute|].
  apply (block_starts_pair_with_ends sample_table sample_table_ascending).
Defined.

Lemma build_output_nonnegative_witness :
  0 < daily ∧ validate_cluster_config weekend_cluster = true ∧
  ∃ df st',
    build_cluster_timeseries (H := lcg_random) sample_today weekend_cluster 2024 daily 0
    = Some (df, st') ∧
    ∀ r, r ∈ df →
      (0 ≤ available_capacity_kWh r)%Qc ∧ (0 ≤ energy_demand_kWh r)%Qc ∧
      (0 ≤ rest_energy_kWh r)%Qc ∧
      (available_capacity_kWh r = 0%Qc →
       energy_demand_kWh r = 0%Qc ∧ rest_energy_kWh r = 0%Qc).
Proof.
  assert (Hfreq : 0 < daily) by (unfold daily, NS_PER_DAY, NS_PER_MINUTE; lia).
  assert (Hval : validate_cluster_config weekend_cluster = true) by by vm_compute.
  split; [exact Hfreq|]. split; [exact Hval|].
  destruct weekend_run as (df & st' & Hrun). exists df, st'. split; [exact Hrun|].
  exact (build_output_nonnegative (H := lcg_random) sample_today weekend_cluster 2024 daily
           0 df st' Hfreq Hval Hrun).
Defined.


Lemma capacity_within_fleet_witness :
  0 < daily ∧ validate_cluster_config weekend_cluster = true ∧
  fleet_capacity weekend_cluster = Qc_of_Z 100 ∧
  ∃ df st',
    build_cluster_timeseries (H := lcg_random) sample_today weekend_cluster 2024 daily 0
    = Some (df, st') ∧
    ∀ r, r ∈ df → (0 ≤ available_capacity_kWh r ≤ fleet_capacity weekend_cluster)%Qc.
Proof.
  assert (Hfreq : 0 < daily) by (unfold daily, NS_PER_DAY, NS_PER_MINUTE; lia).
  assert (Hval : validate_cluster_config weekend_cluster = true) by by vm_compute.
  split; [exact Hfreq|]. split; [exact Hval|]. split.
  { apply (bool_decide_unpack _). vm_compute. exact I. }
  destruct weekend_run as (df & st' & Hrun). exists df, st'. split; [exact Hrun|].
  exact (capacity_within_fleet (H := lcg_random) sample_today weekend_cluster 2024 daily
           0 df st' Hfreq Hval Hrun).
Defined.

Lemma trip_recorded_once_witness :
  ascending sample_table ∧
  column_sum energy_demand_kWh
    (trip_contribution sample_table 3 5 (Qc_of_Z 10) (Qc_of_Z 50) (Qc_of_Z 2) 0 5 1)
  = (column_sum energy_demand_kWh sample_table + Qc_of_Z 10 * Qc_of_Z 2)%Qc.
Proof.
  split; [exact sample_table_ascending|].
  exact (proj1 (trip_recorded_once sample_table 3 5 (Qc_of_Z 10) (Qc_of_Z 50) (Qc_of_Z 2)
                  0 5 1 sample_table_ascending)).
Defined.

Lemma trip_samples_recorded_witness :
  0 < daily ∧ NS_PER_DAY = 1 * daily ∧
  combine (date 2024 1 1) time_min + daily ≤ combine (date 2024 3 4) (Time 8 0) ∧
  combine (date 2024 3 4) (Time 8 0) ≤ combine (date 2024 3 4) (Time 17 0) ∧
  combine (date 2024 3 4) (Time 17 0) ≤ combine (date 2025 1 1) time_min - daily ∧
  column_sum energy_demand_kWh
    (trip_contribution (empty_table 2024 daily)
       (combine (date 2024 3 4) (Time 8 0)) (combine (date 2024 3 4) (Time 17 0))
       (Qc_of_Z 100) (Qc_of_Z 50) (Q2Qc (1 # 5))
       (combine (date 2024 1 1) time_min) (combine (date (2024 + 1) 1 1) time_min - daily)
       daily)
  = (column_sum energy_demand_kWh (empty_table 2024 daily)
     + Qc_of_Z 100 * Q2Qc (1 # 5))%Qc.
Proof.
  assert (Hfreq : 0 < daily) by (unfold daily, NS_PER_DAY, NS_PER_MINUTE; lia).
  assert (Hsteps : NS_PER_DAY = 1 * daily) by (unfold daily; lia).
  assert (H1 : combine (date 2024 1 1) time_min + daily
               ≤ combine (date 2024 3 4) (Time 8 0)) by by vm_compute.
  assert (H2 : combine (date 2024 3 4) (Time 8 0)
               ≤ combine (date 2024 3 4) (Time 17 0)) by by vm_compute.
  assert (H3 : combine (date 2024 3 4) (Time 17 0)
               ≤ combine (date (2024 + 1) 1 1) time_min - daily) by by vm_compute.
  split_and!; [exact Hfreq|exact Hsteps|exact H1|exact H2|exact H3|].
  exact (proj1 (trip_samples_recorded (empty_table 2024 daily) 2024 daily 1
                  (combine (date 2024 3 4) (Time 8 0)) (combine (date 2024 3 4) (Time 17 0))
                  (Qc_of_Z 100) (Qc_of_Z 50) (Q2Qc (1 # 5))
                  Hfreq Hsteps eq_refl H1 H2 H3)).
Defined.

Lemma weekend_cluster_groups g : g ∈ fahrzeuge weekend_cluster → g = weekend_group.
Proof. intros Hg. by apply list_elem_of_singleton in Hg. Qed.

Lemma build_returns_table_witness :
  validate_cluster_config weekend_cluster = true ∧
  FIRST_YEAR ≤ 2024 ≤ LAST_YEAR ∧ 0 < daily ≤ NS_PER_DAY ∧
  today_margin sample_today 30 ∧
  seeds_in_range weekend_cluster ∧
  deviations_at_most 30 weekend_cluster ∧
  returns_within 2024 weekend_cluster ∧
  is_Some (build_cluster_timeseries (H := lcg_random) sample_today weekend_cluster 2024
             daily 0).
Proof.
  assert (Hval : validate_cluster_config weekend_cluster = true) by by vm_compute.
  assert (Hyear : FIRST_YEAR ≤ 2024 ≤ LAST_YEAR) by (unfold FIRST_YEAR, LAST_YEAR; lia).
  assert (Hfreq : 0 < daily ≤ NS_PER_DAY) by (unfold daily, NS_PER_DAY, NS_PER_MINUTE; lia).
  assert (Htoday : today_margin sample_today 30) by (unfold today_margin; by vm_compute).
  assert (Hseeds : seeds_in_range weekend_cluster).
  { intros g ->%weekend_cluster_groups s [= <-]. by vm_compute. }
  assert (Hdev : deviations_at_most 30 weekend_cluster).
  { intros g ->%weekend_cluster_groups. by vm_compute. }
  assert (Hret : returns_within 2024 weekend_cluster).
  { intros g key t ->%weekend_cluster_groups Hkey.
    apply elem_of_map_to_list in Hkey.
    assert (Hall : forallb (λ p : string * day_entry,
                       match p.2 with
                       | Mehrtagstour t =>
                           bool_decide (date (2024 + 1) 1 1 + default 0 (multi_tage_spaeter t)
                                        ≤ date (LAST_YEAR + 1) 1 1)
                       | _ => true
                       end) (map_to_list (wochenplan weekend_group)) = true)
      by (vm_compute; reflexivity).
    rewrite forallb_forall in Hall. apply list_elem_of_In, Hall in Hkey.
    by apply bool_decide_eq_true in Hkey. }
  split_and!; [exact Hval|apply Hyear|apply Hyear|apply Hfreq|apply Hfreq|exact Htoday
              |exact Hseeds|exact Hdev|exact Hret|].
  exact (build_returns_table (H := lcg_random) sample_today weekend_cluster 2024 daily 30 0
           lcg_uniform_in_range Hval Hyear Hfreq Htoday Hseeds Hdev Hret).
Defined.

Lemma validated_config_reads_witness :
  validate_cluster_config_raw sample_raw_cluster = Ok () ∧
  seeds_plain sample_raw_cluster = true ∧
  ∃ c, read_cluster sample_raw_cluster = Some c ∧ validate_cluster_config c = true.
Proof.
  assert (Hval : validate_cluster_config_raw sample_raw_cluster = Ok ()) by by vm_compute.
  assert (Hseeds : seeds_plain sample_raw_cluster = true) by by vm_compute.
  split; [exact Hval|]. split; [exact Hseeds|].
  exact (validated_config_reads sample_raw_cluster Hval Hseeds).
Defined.

Lemma weekend_cluster_seeded g : g ∈ fahrzeuge weekend_cluster → seeded g.
Proof. intros ->%weekend_cluster_groups. by exists seeded_config, 42. Qed.

Lemma seeded_build_reproducible_witness :
  (∀ g, g ∈ fahrzeuge weekend_cluster → seeded g) ∧
  fst <$> build_cluster_timeseries (H := lcg_random) sample_today weekend_cluster 2024 daily 0
  = fst <$> build_cluster_timeseries (H := lcg_random) sample_today weekend_cluster 2024
              daily 7.
Proof.
  split; [exact weekend_cluster_seeded|].
  exact (seeded_build_reproducible (H := lcg_random) sample_today weekend_cluster 2024 daily
           0 7 weekend_cluster_seeded).
Defined.

Lemma output_rows_keyed_witness :
  FIRST_YEAR ≤ 2024 ≤ LAST_YEAR ∧ NS_PER_MINUTE ≤ daily ∧
  ∃ df st',
    build_cluster_timeseries (H := lcg_random) sample_today weekend_cluster 2024 daily 0
    = Some (df, st') ∧
    NoDup ((λ o, (out_Datum o, out_Zeit o)) <$> output df).
Proof.
  assert (Hyear : FIRST_YEAR ≤ 2024 ≤ LAST_YEAR) by (unfold FIRST_YEAR, LAST_YEAR; lia).
  assert (Hfreq : NS_PER_MINUTE ≤ daily) by (unfold daily, NS_PER_DAY, NS_PER_MINUTE; lia).
  split; [exact Hyear|]. split; [exact Hfreq|].
  destruct weekend_run as (df & st' & Hrun). exists df, st'. split; [exact Hrun|].
  exact (output_rows_keyed (H := lcg_random) sample_today weekend_cluster 2024 daily 0
           df st' Hyear Hfreq Hrun).
Defined.



